(** * Models.py: masks, positional encoding and the Transformer wiring

    A shallow embedding of [Models.py].  Tensors are row-major storage with a
    shape, as torch keeps them; Python exceptions are the [Raise] results of
    [res]; [nn.Parameter] objects live in a heap of locations so that weight
    tying is aliasing of locations. *)

From Stdlib Require Import String.
From stdpp Require Import gmap.
From Stdlib Require Import ZArith List Bool Lia.
Import ListNotations.
Open Scope nat_scope.

(** ** Exceptions and results *)

Inductive exn : Type :=
| AssertionError
| IndexError
| RuntimeError
| ValueError
| ZeroDivisionError.

Inductive res (A : Type) : Type :=
| Ok (a : A)
| Raise (e : exn).
Arguments Ok {A} a.
Arguments Raise {A} e.

#[global] Instance res_ret : MRet res := fun A a => Ok a.

#[global] Instance res_bind : MBind res := fun A B k r =>
  match r with
  | Ok a => k a
  | Raise e => Raise e
  end.

Definition is_ok {A} (r : res A) : bool :=
  match r with
  | Ok _ => true
  | Raise _ => false
  end.

(** ** Tensors: a shape and the elements in row-major order *)

Record Tensor (A : Type) : Type := mkTensor {
  shape : list nat;
  data : list A
}.
Arguments mkTensor {A} shape data.
Arguments shape {A} t.
Arguments data {A} t.

Fixpoint numel (s : list nat) : nat :=
  match s with
  | [] => 1
  | d :: s' => d * numel s'
  end.

Definition wf {A} (t : Tensor A) : Prop :=
  length (data t) = numel (shape t).

(** Offset of a multi-index in the row-major storage. *)
Fixpoint ravel (s idx : list nat) : nat :=
  match s, idx with
  | _ :: s', i :: idx' => i * numel s' + ravel s' idx'
  | _, _ => 0
  end.

Fixpoint in_bounds (s idx : list nat) : bool :=
  match s, idx with
  | [], [] => true
  | d :: s', i :: idx' => (i <? d) && in_bounds s' idx'
  | _, _ => false
  end.

(** All multi-indices of a shape, in storage order. *)
Fixpoint indices (s : list nat) : list (list nat) :=
  match s with
  | [] => [[]]
  | d :: s' => flat_map (fun i => map (cons i) (indices s')) (seq 0 d)
  end.

(** [t[idx]]; [None] stands for torch's IndexError. *)
Definition get {A} (t : Tensor A) (idx : list nat) : option A :=
  if in_bounds (shape t) idx then nth_error (data t) (ravel (shape t) idx)
  else None.

Definition get0 {A} (d : A) (t : Tensor A) (idx : list nat) : A :=
  nth (ravel (shape t) idx) (data t) d.

Definition tabulate {A} (s : list nat) (f : list nat -> A) : Tensor A :=
  mkTensor s (map f (indices s)).

Definition tmap {A B} (f : A -> B) (t : Tensor A) : Tensor B :=
  mkTensor (shape t) (map f (data t)).

(** [t.size(i)] for a non-negative [i]. *)
Definition size_at {A} (t : Tensor A) (i : nat) : res nat :=
  match nth_error (shape t) i with
  | Some d => Ok d
  | None => Raise IndexError
  end.

Definition insert_at {A} (k : nat) (x : A) (l : list A) : list A :=
  firstn k l ++ x :: skipn k l.

(** [t.unsqueeze(dim)]: [dim] ranges over [-(rank+1) .. rank]. *)
Definition unsqueeze {A} (t : Tensor A) (dim : Z) : res (Tensor A) :=
  let n := Z.of_nat (length (shape t)) in
  if ((- (n + 1) <=? dim) && (dim <=? n))%Z then
    let d := if (dim <? 0)%Z then (dim + n + 1)%Z else dim in
    Ok (mkTensor (insert_at (Z.to_nat d) 1 (shape t)) (data t))
  else Raise IndexError.

(** [torch.ones(s)] *)
Definition ones (s : list nat) : Tensor Z :=
  mkTensor s (repeat 1%Z (numel s)).

(** [torch.triu(t, diagonal)]: on the last two dimensions, the entries with
    [j - i >= diagonal] are kept and the others are zero. *)
Definition triu (t : Tensor Z) (diagonal : Z) : res (Tensor Z) :=
  if length (shape t) <? 2 then Raise RuntimeError
  else Ok (tabulate (shape t) (fun idx =>
         match rev idx with
         | j :: i :: _ =>
             if (diagonal <=? Z.of_nat j - Z.of_nat i)%Z then get0 0%Z t idx
             else 0%Z
         | _ => 0%Z
         end)).

(** Broadcasting of two shapes, aligned at the trailing dimension. *)
Fixpoint broadcast_rev (a b : list nat) : res (list nat) :=
  match a, b with
  | [], _ => Ok b
  | _, [] => Ok a
  | x :: a', y :: b' =>
      r ← broadcast_rev a' b';
      if x =? y then Ok (x :: r)
      else if x =? 1 then Ok (y :: r)
      else if y =? 1 then Ok (x :: r)
      else Raise RuntimeError
  end.

Definition broadcast_shapes (a b : list nat) : res (list nat) :=
  r ← broadcast_rev (rev a) (rev b); Ok (rev r).

(** Index into an operand of shape [s] for the index [idx] of the result. *)
Fixpoint bidx_aligned (s idx : list nat) : list nat :=
  match s, idx with
  | d :: s', i :: idx' => (if d =? 1 then 0 else i) :: bidx_aligned s' idx'
  | _, _ => []
  end.

Definition bidx (s idx : list nat) : list nat :=
  bidx_aligned s (skipn (length idx - length s) idx).

Definition broadcast2 {A B C} (da : A) (db : B) (op : A -> B -> C)
    (a : Tensor A) (b : Tensor B) : res (Tensor C) :=
  s ← broadcast_shapes (shape a) (shape b);
  Ok (tabulate s (fun idx =>
        op (get0 da a (bidx (shape a) idx)) (get0 db b (bidx (shape b) idx)))).

(** [a & b] on boolean tensors *)
Definition tensor_and (a b : Tensor bool) : res (Tensor bool) :=
  broadcast2 false false andb a b.

(** [t[:, :n]] *)
Definition slice_dim1 {A} (d : A) (t : Tensor A) (n : nat) : res (Tensor A) :=
  match shape t with
  | s0 :: s1 :: rest =>
      Ok (tabulate (s0 :: Nat.min n s1 :: rest) (fun idx => get0 d t idx))
  | _ => Raise IndexError
  end.

(** [t.view(-1, n)] *)
Definition view_rows {A} (t : Tensor A) (n : nat) : res (Tensor A) :=
  if n =? 0 then Raise RuntimeError
  else if numel (shape t) mod n =? 0
       then Ok (mkTensor [numel (shape t) / n; n] (data t))
       else Raise RuntimeError.

(** ** Mask builders *)

(** The values an element of an integer tensor can take (torch.int64). *)
Definition in_int64 (z : Z) : Prop := (- 2 ^ 63 <= z < 2 ^ 63)%Z.

(** [(seq != pad_idx).unsqueeze(-2)], for a pad index that is a token id, a
    value of the elements' type ([in_int64]): the comparison is then the
    exact one.  torch refuses to compare with a Python integer too large for
    a tensor element; the theorems on this function take the pad index in
    range, and [Transformer.forward] passes the index [nn.Embedding]
    validated. *)
Definition get_pad_mask (seq : Tensor Z) (pad_idx : Z) : res (Tensor bool) :=
  unsqueeze (tmap (fun x => negb (x =? pad_idx)%Z) seq) (-2).

(** [sz_b, len_s = seq.size()] fails unless [seq] has two dimensions.  The
    entries of the ones tensor are the floats 0.0 and 1.0, on which [1 - x]
    is exact; they are kept as integers. *)
Definition get_subsequent_mask (seq : Tensor Z) : res (Tensor bool) :=
  match shape seq with
  | [sz_b; len_s] =>
      u ← triu (ones [1; len_s; len_s]) 1;
      Ok (tmap (fun x => negb (x =? 0)%Z) (tmap (fun x => (1 - x)%Z) u))
  | _ => Raise ValueError
  end.

(** [get_pad_mask(trg_seq, pad) & get_subsequent_mask(trg_seq)], the
    expression of [Transformer.forward]. *)
Definition target_mask (seq : Tensor Z) (pad_idx : Z) : res (Tensor bool) :=
  p ← get_pad_mask seq pad_idx;
  s ← get_subsequent_mask seq;
  tensor_and p s.

Definition count_true (t : Tensor bool) : nat :=
  length (filter (fun b => b) (data t)).

(** The lower triangle with its diagonal, on the last two dimensions. *)
Definition lower (idx : list nat) : bool :=
  match idx with
  | [_; i; j] => j <=? i
  | _ => false
  end.

(** ** The numeric library and the layers of [transformer.Layers]

    Floating-point arithmetic, random initialisation and the attention blocks
    are used through their interfaces only.  [World] is the state those
    collaborators own: the random generator and the blocks' own parameters. *)

Inductive init_kind : Type :=
| Normal            (* nn.init.normal_, the default of nn.Embedding *)
| KaimingUniform    (* the default of nn.Linear *)
| XavierUniform.    (* nn.init.xavier_uniform_ *)

Class Runtime : Type := {
  F : Type;                             (* float32 tensor elements *)
  F64 : Type;                           (* Python and numpy floats *)
  fzero : F;
  fadd : F -> F -> F;                   (* tensor + tensor, elementwise *)
  fmul_py : F -> F64 -> F;              (* tensor *= Python float *)
  fdot : list F -> list F -> F;         (* one entry of a matrix product *)
  to_float32 : F64 -> F;                (* torch.FloatTensor(ndarray) *)
  lit_half : F64;                       (* 0.5 *)
  lit_neg_half : F64;                   (* -0.5 *)
  py_pow : Z -> F64 -> res F64;         (* int ** float *)
  py_truediv : Z -> Z -> F64;           (* int / int, divisor not 0 *)
  np_power : Z -> F64 -> F64;           (* np.power(int, float) *)
  np_rdiv : Z -> F64 -> F64;            (* int / np.float64 *)
  np_sin : F64 -> F64;
  np_cos : F64 -> F64;
  World : Type;
  init_values : init_kind -> list nat -> World -> list F * World;
  Dropout : Type;
  LayerNorm : Type;
  EncoderLayer : Type;
  DecoderLayer : Type;
  Dropout_new : F64 -> World -> res (Dropout * World);
  LayerNorm_new : nat -> World -> res (LayerNorm * World);
  EncoderLayer_new :
    nat -> nat -> nat -> nat -> nat -> F64 -> World -> res (EncoderLayer * World);
  DecoderLayer_new :
    nat -> nat -> nat -> nat -> nat -> F64 -> World -> res (DecoderLayer * World);
  EncoderLayer_reset : EncoderLayer -> World -> World;
  DecoderLayer_reset : DecoderLayer -> World -> World
}.

(** The forward passes of the collaborators.  An encoder block maps
    [(x, slf_attn_mask)] to [(x', attn)]; a decoder block maps
    [(x, enc_output, slf_attn_mask, dec_enc_attn_mask)] to
    [(x', slf_attn, enc_attn)]. *)
Class Blocks {rt : Runtime} : Type := {
  Dropout_forward : Dropout -> Tensor F -> World -> res (Tensor F * World);
  LayerNorm_forward : LayerNorm -> Tensor F -> World -> res (Tensor F * World);
  EncoderLayer_forward :
    EncoderLayer -> Tensor F -> Tensor bool ->
    World -> res ((Tensor F * Tensor F) * World);
  DecoderLayer_forward :
    DecoderLayer -> Tensor F -> Tensor F -> Tensor bool -> Tensor bool ->
    World -> res ((Tensor F * Tensor F * Tensor F) * World)
}.

(** The same collaborators with another decoder block. *)
Definition with_decoder_layer {rt : Runtime} (bl : Blocks)
    (g : DecoderLayer -> Tensor F -> Tensor F -> Tensor bool -> Tensor bool ->
         World -> res ((Tensor F * Tensor F * Tensor F) * World)) : Blocks :=
  {| Dropout_forward := Dropout_forward;
     LayerNorm_forward := LayerNorm_forward;
     EncoderLayer_forward := EncoderLayer_forward;
     DecoderLayer_forward := g |}.

(** The same collaborators with another encoder block. *)
Definition with_encoder_layer {rt : Runtime} (bl : Blocks)
    (g : EncoderLayer -> Tensor F -> Tensor bool ->
         World -> res ((Tensor F * Tensor F) * World)) : Blocks :=
  {| Dropout_forward := Dropout_forward;
     LayerNorm_forward := LayerNorm_forward;
     EncoderLayer_forward := g;
     DecoderLayer_forward := DecoderLayer_forward |}.

Section Model.
Context {rt : Runtime} {bl : Blocks}.

(** ** Module state: the heap of parameters and the collaborators' world *)

Definition loc := nat.

Record State : Type := mkState {
  heap : gmap nat (Tensor F);
  world : World
}.

Definition M (A : Type) : Type := State -> res (A * State).

#[global] Instance M_ret : MRet M := fun A a st => Ok (a, st).

#[global] Instance M_bind : MBind M := fun A B k m st =>
  match m st with
  | Ok (a, st') => k a st'
  | Raise e => Raise e
  end.

Definition lift {A} (r : res A) : M A :=
  fun st =>
    match r with
    | Ok a => Ok (a, st)
    | Raise e => Raise e
    end.

(** A call into a collaborator: it sees and changes the world only. *)
Definition ext {A} (f : World -> res (A * World)) : M A :=
  fun st =>
    match f (world st) with
    | Ok (a, w) => Ok (a, mkState (heap st) w)
    | Raise e => Raise e
    end.

Definition ext_total {A} (f : World -> A * World) : M A :=
  fun st => let '(a, w) := f (world st) in Ok (a, mkState (heap st) w).

(** [Parameter(t)]: a new object. *)
Definition alloc (t : Tensor F) : M loc :=
  fun st =>
    let l := fresh (dom (heap st)) in
    Ok (l, mkState (<[l := t]> (heap st)) (world st)).

Definition read (l : loc) : M (Tensor F) :=
  fun st =>
    match heap st !! l with
    | Some t => Ok (t, st)
    | None => Raise RuntimeError
    end.

Definition write (l : loc) (t : Tensor F) : M unit :=
  fun st => Ok (tt, mkState (<[l := t]> (heap st)) (world st)).

Definition assert (b : bool) : M unit :=
  if b then mret tt else lift (Raise AssertionError).


Definition update (l : loc) (f : Tensor F -> Tensor F) : M unit :=
  t ← read l; write l (f t).

Fixpoint replicateM {A} (n : nat) (m : M A) : M (list A) :=
  match n with
  | 0 => mret []
  | S n' => a ← m; l ← replicateM n' m; mret (a :: l)
  end.

(** ** torch.nn.functional: embedding lookup and linear map *)

Fixpoint chunks {A} (n k : nat) (l : list A) : list (list A) :=
  match k with
  | 0 => []
  | S k' => firstn n l :: chunks n k' (skipn n l)
  end.

Definition row {A} (n i : nat) (l : list A) : list A :=
  firstn n (skipn (i * n) l).

(** The two assertions of [F.embedding] on its [padding_idx]: a positive
    index is below [weight.size(0)], a negative one is at least
    [-weight.size(0)]; zero is not checked. *)
Definition check_padding_idx (W : Tensor F) (padding_idx : Z) : res unit :=
  if (0 <? padding_idx)%Z then
    n ← size_at W 0;
    if (padding_idx <? Z.of_nat n)%Z then Ok tt else Raise AssertionError
  else if (padding_idx <? 0)%Z then
    n ← size_at W 0;
    if (- Z.of_nat n <=? padding_idx)%Z then Ok tt else Raise AssertionError
  else Ok tt.

(** What these assertions decide for a table of [rows] rows. *)
Definition pad_accepted (padding_idx : Z) (rows : nat) : bool :=
  if (0 <? padding_idx)%Z then (padding_idx <? Z.of_nat rows)%Z
  else if (padding_idx <? 0)%Z then (- Z.of_nat rows <=? padding_idx)%Z
  else true.

(** [F.embedding(ids, W, padding_idx)]: AssertionError unless the padding
    index is within the table, whatever the ids are; then one row of [W] per
    id, IndexError outside [0 .. V-1]. *)
Definition F_embedding (W : Tensor F) (ids : Tensor Z) (padding_idx : Z)
    : res (Tensor F) :=
  _ ← check_padding_idx W padding_idx;
  match shape W with
  | [V; d] =>
      if forallb (fun i => (0 <=? i)%Z && (i <? Z.of_nat V)%Z) (data ids)
      then Ok (mkTensor (shape ids ++ [d])
                 (flat_map (fun i => row d (Z.to_nat i) (data W)) (data ids)))
      else Raise IndexError
  | _ => Raise RuntimeError
  end.

(** [F.linear(x, W)] without bias: [x @ W.T] on the last dimension. *)
Definition F_linear (x W : Tensor F) : res (Tensor F) :=
  match shape W, rev (shape x) with
  | [n_out; n_in], d :: lead =>
      if d =? n_in
      then Ok (mkTensor (rev lead ++ [n_out])
                 (flat_map (fun r => map (fdot r) (chunks n_in n_out (data W)))
                    (chunks n_in (numel (rev lead)) (data x))))
      else Raise RuntimeError
  | _, _ => Raise RuntimeError
  end.

(** ** PositionalEncoding *)

Definition range (n : nat) : list Z := map Z.of_nat (seq 0 n).

(** [np.array(rows)] of equally long rows; no row gives shape (0,). *)
Definition np_array {A} (rows : list (list A)) : Tensor A :=
  match rows with
  | [] => mkTensor [0] []
  | r :: _ => mkTensor [length rows; length r] (concat rows)
  end.

(** [t[:, start::2] = f(t[:, start::2])] *)
Definition map_cols (start : nat) (f : F64 -> F64) (t : Tensor F64)
    : res (Tensor F64) :=
  match shape t with
  | [r; c] =>
      Ok (tabulate [r; c] (fun idx =>
            let v := get0 lit_half t idx in
            match idx with
            | [_; j] => if (start <=? j) && Nat.even (j - start) then f v else v
            | _ => v
            end))
  | _ => Raise IndexError
  end.

Definition get_position_angle_vec (d_hid : nat) (position : Z) : list F64 :=
  map (fun hid_j =>
         np_rdiv position
           (np_power 10000 (py_truediv (2 * (hid_j / 2)) (Z.of_nat d_hid))))
      (range d_hid).

(** [pos / 10000^(2i/d)], with the operations of the source. *)
Definition position_angle (d_hid pos i : nat) : F64 :=
  np_rdiv (Z.of_nat pos)
    (np_power 10000 (py_truediv (2 * Z.of_nat i) (Z.of_nat d_hid))).

(** The entry of [sinusoid_table] at [pos, hid_j] before sin and cos. *)
Definition raw_angle (d_hid : nat) (idx : list nat) : F64 :=
  match idx with
  | [pos; hid_j] => position_angle d_hid pos (hid_j / 2)
  | _ => lit_half
  end.

(** The entry of the finished table: sin on even columns, cos on odd ones. *)
Definition table_entry (d_hid : nat) (idx : list nat) : F :=
  match idx with
  | [_; hid_j] =>
      to_float32 (if Nat.even hid_j then np_sin (raw_angle d_hid idx)
                  else np_cos (raw_angle d_hid idx))
  | _ => fzero
  end.

Definition _get_sinusoid_encoding_table (n_position d_hid : nat)
    : res (Tensor F) :=
  let sinusoid_table :=
    np_array (map (get_position_angle_vec d_hid) (range n_position)) in
  t1 ← map_cols 0 np_sin sinusoid_table;
  t2 ← map_cols 1 np_cos t1;
  unsqueeze (tmap to_float32 t2) 0.

Record PositionalEncoding : Type := mkPositionalEncoding {
  pos_table : Tensor F
}.

Definition PositionalEncoding_new (d_hid n_position : nat)
    : res PositionalEncoding :=
  t ← _get_sinusoid_encoding_table n_position d_hid;
  Ok (mkPositionalEncoding t).

(** [x + self.pos_table[:, :x.size(1)].clone().detach()] *)
Definition PositionalEncoding_forward (pe : PositionalEncoding) (x : Tensor F)
    : res (Tensor F) :=
  n ← size_at x 1;
  s ← slice_dim1 fzero (pos_table pe) n;
  broadcast2 fzero fzero fadd x s.

(** ** nn.Embedding and nn.Linear: a module holds a reference to its weight *)

Record Embedding : Type := mkEmbedding {
  num_embeddings : nat;
  embedding_dim : nat;
  padding_idx : Z;
  weight : loc
}.

Record Linear : Type := mkLinear {
  in_features : nat;
  out_features : nat;
  lin_weight : loc
}.

(** [self.weight[self.padding_idx].fill_(0)] *)
Definition fill_row_zero (t : Tensor F) (r : Z) : res (Tensor F) :=
  match shape t with
  | [n; d] =>
      if (0 <=? r)%Z && (r <? Z.of_nat n)%Z
      then Ok (mkTensor [n; d]
                 (firstn (Z.to_nat r * d) (data t) ++ repeat fzero d
                  ++ skipn ((Z.to_nat r + 1) * d) (data t)))
      else Raise IndexError
  | _ => Raise IndexError
  end.

Definition nn_Embedding (num dim : nat) (pad_idx : Z) : M Embedding :=
  pidx ← (if (0 <? pad_idx)%Z then
            _ ← assert (pad_idx <? Z.of_nat num)%Z; mret pad_idx
          else if (pad_idx <? 0)%Z then
            _ ← assert (- Z.of_nat num <=? pad_idx)%Z;
            mret (Z.of_nat num + pad_idx)%Z
          else mret pad_idx);
  w ← ext_total (init_values Normal [num; dim]);
  t ← lift (fill_row_zero (mkTensor [num; dim] w) pidx);
  l ← alloc t;
  mret (mkEmbedding num dim pidx l).

(** [nn.Linear(n_in, n_out, bias=False)] *)
Definition nn_Linear (n_in n_out : nat) : M Linear :=
  w ← ext_total (init_values KaimingUniform [n_out; n_in]);
  l ← alloc (mkTensor [n_out; n_in] w);
  mret (mkLinear n_in n_out l).

(** [F.embedding(input, self.weight, self.padding_idx, ...)] *)
Definition Embedding_forward (e : Embedding) (ids : Tensor Z) : M (Tensor F) :=
  W ← read (weight e); lift (F_embedding W ids (padding_idx e)).

Definition Linear_forward (l : Linear) (x : Tensor F) : M (Tensor F) :=
  W ← read (lin_weight l); lift (F_linear x W).

(** [nn.init.xavier_uniform_(p)]: new values in the same object. *)
Definition xavier_uniform_ (p : loc) : M unit :=
  t ← read p;
  w ← ext_total (init_values XavierUniform (shape t));
  write p (mkTensor (shape t) w).

(** [t *= c] for a Python float [c] *)
Definition imul (t : Tensor F) (c : F64) : Tensor F :=
  tmap (fun x => fmul_py x c) t.

(** ** Encoder *)

Record Encoder : Type := mkEncoder {
  src_word_emb : Embedding;
  enc_position_enc : PositionalEncoding;
  enc_dropout : Dropout;
  enc_layer_stack : list EncoderLayer;
  enc_layer_norm : LayerNorm;
  enc_scale_emb : bool;
  enc_d_model : nat
}.

Definition Encoder_new
    (n_src_vocab d_word_vec n_layers n_head d_k d_v d_model d_inner : nat)
    (pad_idx : Z) (dropout : F64) (n_position : nat) (scale_emb : bool)
    : M Encoder :=
  emb ← nn_Embedding n_src_vocab d_word_vec pad_idx;
  pe ← lift (PositionalEncoding_new d_word_vec n_position);
  dr ← ext (Dropout_new dropout);
  ls ← replicateM n_layers
         (ext (EncoderLayer_new d_model d_inner n_head d_k d_v dropout));
  ln ← ext (LayerNorm_new d_model);
  mret (mkEncoder emb pe dr ls ln scale_emb d_model).

(** The embedding steps shared by [Encoder.forward] and [Decoder.forward]:
    lookup, the optional [*= d_model ** 0.5], positions, dropout, norm. *)
Definition embed (emb : Embedding) (scale_emb : bool) (d_model : nat)
    (pe : PositionalEncoding) (dr : Dropout) (ln : LayerNorm)
    (seq : Tensor Z) : M (Tensor F) :=
  x ← Embedding_forward emb seq;
  x ← (if scale_emb
       then c ← lift (py_pow (Z.of_nat d_model) lit_half); mret (imul x c)
       else mret x);
  x ← lift (PositionalEncoding_forward pe x);
  x ← ext (Dropout_forward dr x);
  ext (LayerNorm_forward ln x).

(** The loop over [self.layer_stack] of [Encoder.forward]. *)
Fixpoint enc_loop (layers : list EncoderLayer) (src_mask : Tensor bool)
    (return_attns : bool) (enc_output : Tensor F)
    (enc_slf_attn_list : list (Tensor F)) : M (Tensor F * list (Tensor F)) :=
  match layers with
  | [] => mret (enc_output, enc_slf_attn_list)
  | enc_layer :: rest =>
      '(enc_output, enc_slf_attn) ←
        ext (EncoderLayer_forward enc_layer enc_output src_mask);
      enc_loop rest src_mask return_attns enc_output
        (enc_slf_attn_list ++ (if return_attns then [enc_slf_attn] else []))
  end.

(** The result is [(enc_output, enc_slf_attn_list)] or [(enc_output,)]. *)
Definition Encoder_forward (e : Encoder) (src_seq : Tensor Z)
    (src_mask : Tensor bool) (return_attns : bool)
    : M (Tensor F * option (list (Tensor F))) :=
  enc_output ← embed (src_word_emb e) (enc_scale_emb e) (enc_d_model e)
                 (enc_position_enc e) (enc_dropout e) (enc_layer_norm e) src_seq;
  '(enc_output, enc_slf_attn_list) ←
    enc_loop (enc_layer_stack e) src_mask return_attns enc_output [];
  if return_attns then mret (enc_output, Some enc_slf_attn_list)
  else mret (enc_output, None).

(** ** Decoder *)

Record Decoder : Type := mkDecoder {
  trg_word_emb : Embedding;
  dec_position_enc : PositionalEncoding;
  dec_dropout : Dropout;
  dec_layer_stack : list DecoderLayer;
  dec_layer_norm : LayerNorm;
  dec_scale_emb : bool;
  dec_d_model : nat
}.

Definition Decoder_new
    (n_trg_vocab d_word_vec n_layers n_head d_k d_v d_model d_inner : nat)
    (pad_idx : Z) (n_position : nat) (dropout : F64) (scale_emb : bool)
    : M Decoder :=
  emb ← nn_Embedding n_trg_vocab d_word_vec pad_idx;
  pe ← lift (PositionalEncoding_new d_word_vec n_position);
  dr ← ext (Dropout_new dropout);
  ls ← replicateM n_layers
         (ext (DecoderLayer_new d_model d_inner n_head d_k d_v dropout));
  ln ← ext (LayerNorm_new d_model);
  mret (mkDecoder emb pe dr ls ln scale_emb d_model).

Fixpoint dec_loop (layers : list DecoderLayer)
    (trg_mask : Tensor bool) (enc_output : Tensor F) (src_mask : Tensor bool)
    (return_attns : bool) (dec_output : Tensor F)
    (dec_slf_attn_list dec_enc_attn_list : list (Tensor F))
    : M (Tensor F * list (Tensor F) * list (Tensor F)) :=
  match layers with
  | [] => mret (dec_output, dec_slf_attn_list, dec_enc_attn_list)
  | dec_layer :: rest =>
      '(dec_output, dec_slf_attn, dec_enc_attn) ←
        ext (DecoderLayer_forward dec_layer dec_output enc_output
               trg_mask src_mask);
      dec_loop rest trg_mask enc_output src_mask return_attns dec_output
        (dec_slf_attn_list ++ (if return_attns then [dec_slf_attn] else []))
        (dec_enc_attn_list ++ (if return_attns then [dec_enc_attn] else []))
  end.

Definition Decoder_forward (d : Decoder) (trg_seq : Tensor Z)
    (trg_mask : Tensor bool) (enc_output : Tensor F) (src_mask : Tensor bool)
    (return_attns : bool)
    : M (Tensor F * option (list (Tensor F) * list (Tensor F))) :=
  dec_output ← embed (trg_word_emb d) (dec_scale_emb d) (dec_d_model d)
                 (dec_position_enc d) (dec_dropout d) (dec_layer_norm d) trg_seq;
  '(dec_output, dec_slf_attn_list, dec_enc_attn_list) ←
    dec_loop (dec_layer_stack d) trg_mask enc_output src_mask return_attns
      dec_output [] [];
  if return_attns
  then mret (dec_output, Some (dec_slf_attn_list, dec_enc_attn_list))
  else mret (dec_output, None).

(** ** Transformer *)

Record Config : Type := mkConfig {
  n_src_vocab : nat;
  n_trg_vocab : nat;
  c_src_pad_idx : Z;
  c_trg_pad_idx : Z;
  d_word_vec : nat;
  c_d_model : nat;
  d_inner : nat;
  n_layers : nat;
  n_head : nat;
  d_k : nat;
  d_v : nat;
  dropout : F64;
  n_position : nat;
  trg_emb_prj_weight_sharing : bool;
  emb_src_trg_weight_sharing : bool;
  scale_emb_or_prj : String.string
}.

Record Transformer : Type := mkTransformer {
  src_pad_idx : Z;
  trg_pad_idx : Z;
  scale_prj : bool;
  d_model : nat;
  encoder : Encoder;
  decoder : Decoder;
  trg_word_prj : Linear
}.

Definition str_in (s : String.string) (l : list String.string) : bool :=
  existsb (String.eqb s) l.

Definition set_weight (e : Embedding) (l : loc) : Embedding :=
  mkEmbedding (num_embeddings e) (embedding_dim e) (padding_idx e) l.

Definition set_lin_weight (p : Linear) (l : loc) : Linear :=
  mkLinear (in_features p) (out_features p) l.

Definition set_src_word_emb (e : Encoder) (emb : Embedding) : Encoder :=
  mkEncoder emb (enc_position_enc e) (enc_dropout e) (enc_layer_stack e)
    (enc_layer_norm e) (enc_scale_emb e) (enc_d_model e).

(** [for p in self.parameters(): if p.dim() > 1: xavier_uniform_(p)], in
    the order of registration.  The three weights of this file have two
    dimensions; the blocks re-initialise their own parameters. *)
Definition init_parameters (e : Encoder) (d : Decoder) (prj : Linear) : M unit :=
  _ ← xavier_uniform_ (weight (src_word_emb e));
  _ ← ext_total (fun w =>
        (tt, fold_left (fun w l => EncoderLayer_reset l w) (enc_layer_stack e) w));
  _ ← xavier_uniform_ (weight (trg_word_emb d));
  _ ← ext_total (fun w =>
        (tt, fold_left (fun w l => DecoderLayer_reset l w) (dec_layer_stack d) w));
  xavier_uniform_ (lin_weight prj).

Definition Transformer_new (c : Config) : M Transformer :=
  _ ← assert (str_in (scale_emb_or_prj c) ["emb"%string; "prj"%string; "none"%string]);
  let scale_emb :=
    if trg_emb_prj_weight_sharing c
    then String.eqb (scale_emb_or_prj c) "emb"%string else false in
  let scale_prj :=
    if trg_emb_prj_weight_sharing c
    then String.eqb (scale_emb_or_prj c) "prj"%string else false in
  enc ← Encoder_new (n_src_vocab c) (d_word_vec c) (n_layers c) (n_head c)
          (d_k c) (d_v c) (c_d_model c) (d_inner c) (c_src_pad_idx c)
          (dropout c) (n_position c) scale_emb;
  dec ← Decoder_new (n_trg_vocab c) (d_word_vec c) (n_layers c) (n_head c)
          (d_k c) (d_v c) (c_d_model c) (d_inner c) (c_trg_pad_idx c)
          (n_position c) (dropout c) scale_emb;
  prj ← nn_Linear (c_d_model c) (n_trg_vocab c);
  _ ← init_parameters enc dec prj;
  _ ← assert (c_d_model c =? d_word_vec c);
  let prj :=
    if trg_emb_prj_weight_sharing c
    then set_lin_weight prj (weight (trg_word_emb dec)) else prj in
  let enc :=
    if emb_src_trg_weight_sharing c
    then set_src_word_emb enc
           (set_weight (src_word_emb enc) (weight (trg_word_emb dec)))
    else enc in
  mret (mkTransformer (c_src_pad_idx c) (c_trg_pad_idx c) scale_prj
          (c_d_model c) enc dec prj).

(** [seq_logit], before the final [view]. *)
Definition Transformer_logits (m : Transformer) (src_seq trg_seq : Tensor Z)
    : M (Tensor F) :=
  src_mask ← lift (get_pad_mask src_seq (src_pad_idx m));
  trg_mask ← lift (target_mask trg_seq (trg_pad_idx m));
  '(enc_output, _) ← Encoder_forward (encoder m) src_seq src_mask false;
  '(dec_output, _) ←
    Decoder_forward (decoder m) trg_seq trg_mask enc_output src_mask false;
  seq_logit ← Linear_forward (trg_word_prj m) dec_output;
  if scale_prj m
  then c ← lift (py_pow (Z.of_nat (d_model m)) lit_neg_half);
       mret (imul seq_logit c)
  else mret seq_logit.

(** [seq_logit.view(-1, seq_logit.size(2))] *)
Definition Transformer_forward (m : Transformer) (src_seq trg_seq : Tensor Z)
    : M (Tensor F) :=
  seq_logit ← Transformer_logits m src_seq trg_seq;
  n ← lift (size_at seq_logit 2);
  lift (view_rows seq_logit n).

(** ** The life of a model: forward passes and parameter updates

    The training procedure changes a parameter in place through a reference
    it holds; a forward pass returns logits.  Neither assigns an attribute
    of the model. *)

Inductive action : Type :=
| Forward (src_seq trg_seq : Tensor Z)
| Update (p : loc) (t : Tensor F).

Definition step (m : Transformer) (a : action) (st : State) : State :=
  match a with
  | Forward src_seq trg_seq =>
      match Transformer_forward m src_seq trg_seq st with
      | Ok (_, st') => st'
      | Raise _ => st
      end
  | Update p t => mkState (<[p := t]> (heap st)) (world st)
  end.

Definition run (m : Transformer) (acts : list action) (st : State) : State :=
  fold_left (fun st a => step m a st) acts st.

(** The same configuration with another scaling-mode selector. *)
Definition with_scale (c : Config) (s : String.string) : Config :=
  mkConfig (n_src_vocab c) (n_trg_vocab c) (c_src_pad_idx c) (c_trg_pad_idx c)
    (d_word_vec c) (c_d_model c) (d_inner c) (n_layers c) (n_head c)
    (d_k c) (d_v c) (dropout c) (n_position c)
    (trg_emb_prj_weight_sharing c) (emb_src_trg_weight_sharing c) s.

Definition set_scale_prj (m : Transformer) (b : bool) : Transformer :=
  mkTransformer (src_pad_idx m) (trg_pad_idx m) b (d_model m)
    (encoder m) (decoder m) (trg_word_prj m).

(** ** What the theorems ask of a state and of the collaborators *)

(** The parameter at [l] exists and has shape [s]. *)
Definition has_shape (st : State) (l : loc) (s : list nat) : Prop :=
  exists t, heap st !! l = Some t /\ shape t = s.

(** Every parameter of [st] is a parameter of [st'], with the same shape. *)
Definition extends (st st' : State) : Prop :=
  forall l s, has_shape st l s -> has_shape st' l s.

(** [nn.Embedding] accepts [pad_idx] for a table of [n] rows. *)
Definition valid_pad (n : nat) (pad_idx : Z) : Prop :=
  (- Z.of_nat n <= pad_idx < Z.of_nat n)%Z.

Definition ctor_total {A} (f : World -> res (A * World)) : Prop :=
  forall w, exists a w', f w = Ok (a, w').

(** The constructors of the collaborators accept the configuration. *)
Record ctors_accept (c : Config) : Prop := {
  Dropout_accepts : ctor_total (Dropout_new (dropout c));
  LayerNorm_accepts : ctor_total (LayerNorm_new (c_d_model c));
  EncoderLayer_accepts :
    ctor_total (EncoderLayer_new (c_d_model c) (d_inner c) (n_head c)
                  (d_k c) (d_v c) (dropout c));
  DecoderLayer_accepts :
    ctor_total (DecoderLayer_new (c_d_model c) (d_inner c) (n_head c)
                  (d_k c) (d_v c) (dropout c))
}.

(** The dropout, the layer norm and the blocks of the encoder [e] accept a
    (B, L, d) tensor, the blocks with a (B, 1, L) mask, and return a tensor
    of that shape.  Nothing is asked of other layer objects or of other
    shapes. *)
Record Encoder_accepts (e : Encoder) (d B L : nat) : Prop := {
  enc_dropout_accepts : forall x w,
    shape x = [B; L; d] -> wf x ->
    exists y w', Dropout_forward (enc_dropout e) x w = Ok (y, w') /\
      shape y = [B; L; d] /\ wf y;
  enc_layer_norm_accepts : forall x w,
    shape x = [B; L; d] -> wf x ->
    exists y w', LayerNorm_forward (enc_layer_norm e) x w = Ok (y, w') /\
      shape y = [B; L; d] /\ wf y;
  enc_layers_accept : forall l x mask w,
    In l (enc_layer_stack e) ->
    shape x = [B; L; d] -> wf x -> shape mask = [B; 1; L] -> wf mask ->
    exists y a w',
      EncoderLayer_forward l x mask w = Ok ((y, a), w') /\
      shape y = [B; L; d] /\ wf y
}.

(** The same for the decoder [dec], on a (B, Lt, d) tensor with an encoder
    output of shape (B, Ls, d), a (B, Lt, Lt) self-attention mask and a
    (B, 1, Ls) cross-attention mask. *)
Record Decoder_accepts (dec : Decoder) (d B Lt Ls : nat) : Prop := {
  dec_dropout_accepts : forall x w,
    shape x = [B; Lt; d] -> wf x ->
    exists y w', Dropout_forward (dec_dropout dec) x w = Ok (y, w') /\
      shape y = [B; Lt; d] /\ wf y;
  dec_layer_norm_accepts : forall x w,
    shape x = [B; Lt; d] -> wf x ->
    exists y w', LayerNorm_forward (dec_layer_norm dec) x w = Ok (y, w') /\
      shape y = [B; Lt; d] /\ wf y;
  dec_layers_accept : forall l x e tm sm w,
    In l (dec_layer_stack dec) ->
    shape x = [B; Lt; d] -> wf x -> shape e = [B; Ls; d] -> wf e ->
    shape tm = [B; Lt; Lt] -> wf tm -> shape sm = [B; 1; Ls] -> wf sm ->
    exists y a c w',
      DecoderLayer_forward l x e tm sm w = Ok ((y, a, c), w') /\
      shape y = [B; Lt; d] /\ wf y
}.

(** The parameter at [l], if there is one, holds as many values as its
    shape says. *)
Definition table_wf (st : State) (l : loc) : Prop :=
  forall t, heap st !! l = Some t -> wf t.

(** The two embedding tables are tensors, and each embedding's stored
    [padding_idx] passes the check of the lookup on the table the embedding
    refers to ([Vs] and [Vt] rows). *)
Record lookups_ok (m : Transformer) (st : State) (Vs Vt : nat) : Prop := {
  src_table_wf : table_wf st (weight (src_word_emb (encoder m)));
  trg_table_wf : table_wf st (weight (trg_word_emb (decoder m)));
  src_pad_accepted :
    pad_accepted (padding_idx (src_word_emb (encoder m))) Vs = true;
  trg_pad_accepted :
    pad_accepted (padding_idx (trg_word_emb (decoder m))) Vt = true
}.

(** A computation that leaves every parameter as it was. *)
Definition heap_stable {A} (m : M A) : Prop :=
  forall st a st', m st = Ok (a, st') -> heap st' = heap st.

Definition ids_in_range (ids : Tensor Z) (V : nat) : Prop :=
  Forall (fun i => (0 <= i < Z.of_nat V)%Z) (data ids).

(** A model of dimension [d] with vocabularies of [Vs] and [Vt] entries and
    [P] positions, in a state that holds its three weights. *)
Record model_ok (m : Transformer) (st : State) (d Vs Vt P : nat) : Prop := {
  src_emb_ok : has_shape st (weight (src_word_emb (encoder m))) [Vs; d];
  trg_emb_ok : has_shape st (weight (trg_word_emb (decoder m))) [Vt; d];
  prj_ok : has_shape st (lin_weight (trg_word_prj m)) [Vt; d];
  enc_table_ok : shape (pos_table (enc_position_enc (encoder m))) = [1; P; d];
  dec_table_ok : shape (pos_table (dec_position_enc (decoder m))) = [1; P; d];
  enc_d_ok : enc_d_model (encoder m) = d;
  dec_d_ok : dec_d_model (decoder m) = d;
  d_ok : d_model m = d
}.

(** Every parameter of [st] is in [st'] with the value it had. *)
Definition keeps (st st' : State) : Prop :=
  forall (l : loc) t, heap st !! l = Some t -> heap st' !! l = Some t.

(** The parameter at [l] holds values [xavier_uniform_] drew for its shape. *)
Definition drawn_by_xavier (st : State) (l : loc) : Prop :=
  exists t w,
    heap st !! l = Some t /\
    data t = fst (init_values XavierUniform (shape t) w).

(** The primary output of a forward pass, with the state it leaves. *)
Definition primary {A} (r : res ((Tensor F * A) * State))
    : res (Tensor F * State) :=
  match r with
  | Ok ((o, _), st) => Ok (o, st)
  | Raise e => Raise e
  end.

Definition primary3 {A B} (r : res ((Tensor F * A * B) * State))
    : res (Tensor F * State) :=
  match r with
  | Ok ((o, _, _), st) => Ok (o, st)
  | Raise e => Raise e
  end.

(** The blocks applied in order, each to the output of the one before, with
    the attention matrix each of them returns. *)
Inductive enc_trace (src_mask : Tensor bool)
    : list EncoderLayer -> Tensor F -> State ->
      Tensor F -> list (Tensor F) -> State -> Prop :=
| enc_trace_nil x st : enc_trace src_mask [] x st x [] st
| enc_trace_cons l rest x st x1 a st1 x2 attns st2 :
    ext (EncoderLayer_forward l x src_mask) st = Ok ((x1, a), st1) ->
    enc_trace src_mask rest x1 st1 x2 attns st2 ->
    enc_trace src_mask (l :: rest) x st x2 (a :: attns) st2.

Inductive dec_trace (trg_mask : Tensor bool) (enc_output : Tensor F)
    (src_mask : Tensor bool)
    : list DecoderLayer -> Tensor F -> State ->
      Tensor F -> list (Tensor F) -> list (Tensor F) -> State -> Prop :=
| dec_trace_nil x st : dec_trace trg_mask enc_output src_mask [] x st x [] [] st
| dec_trace_cons l rest x st x1 a c st1 x2 slf enc st2 :
    ext (DecoderLayer_forward l x enc_output trg_mask src_mask) st
      = Ok ((x1, a, c), st1) ->
    dec_trace trg_mask enc_output src_mask rest x1 st1 x2 slf enc st2 ->
    dec_trace trg_mask enc_output src_mask (l :: rest) x st x2
      (a :: slf) (c :: enc) st2.

End Model.

(** ** An exact-integer runtime

    Integers stand in for the floats and the blocks are the identity, so that
    the model can be run on small inputs. *)

Definition int_runtime : Runtime := {|
  F := Z;
  F64 := Z;
  fzero := 0%Z;
  fadd := Z.add;
  fmul_py := Z.mul;
  fdot := fun a b => fold_left Z.add (zip_with Z.mul a b) 0%Z;
  to_float32 := fun x => x;
  lit_half := 1%Z;
  lit_neg_half := (-1)%Z;
  py_pow := fun b e =>
    if (b =? 0)%Z && (e <? 0)%Z then Raise ZeroDivisionError else Ok (b * e)%Z;
  py_truediv := Z.div;
  np_power := fun b e => (b + e)%Z;
  np_rdiv := fun p x => (p * x)%Z;
  np_sin := fun x => (2 * x)%Z;
  np_cos := fun x => (2 * x + 1)%Z;
  World := nat;
  init_values := fun _ s w => (repeat (Z.of_nat w) (numel s), S w);
  Dropout := unit;
  LayerNorm := unit;
  EncoderLayer := nat;
  DecoderLayer := nat;
  Dropout_new := fun _ w => Ok (tt, w);
  LayerNorm_new := fun _ w => Ok (tt, w);
  EncoderLayer_new := fun _ _ _ _ _ _ w => Ok (w, S w);
  DecoderLayer_new := fun _ _ _ _ _ _ w => Ok (w, S w);
  EncoderLayer_reset := fun _ w => S w;
  DecoderLayer_reset := fun _ w => S w
|}.

Definition int_blocks : @Blocks int_runtime :=
  @Build_Blocks int_runtime
    (fun _ x w => Ok (x, w))
    (fun _ x w => Ok (x, w))
    (fun _ x _ w => Ok ((x, x), S w))
    (fun _ x _ _ _ w => Ok ((x, x, x), S w)).

Definition int_config : @Config int_runtime :=
  @mkConfig int_runtime 10 12 0%Z 0%Z 2 2 4 1 2 1 1 0%Z 5 true true "prj".

Definition empty_state : @State int_runtime := @mkState int_runtime ∅ 0.

(** A shared-embedding configuration whose source vocabulary is the larger. *)
Definition int_config_wide : @Config int_runtime :=
  @mkConfig int_runtime 12 10 0%Z 0%Z 2 2 4 1 2 1 1 0%Z 5 true true "prj".

(** The same with the last source id as source padding index. *)
Definition int_config_wide_pad : @Config int_runtime :=
  @mkConfig int_runtime 12 10 11%Z 0%Z 2 2 4 1 2 1 1 0%Z 5 true true "prj".

(** A configuration with three layers and no weight sharing. *)
Definition int_config_unshared : @Config int_runtime :=
  @mkConfig int_runtime 10 12 0%Z 0%Z 2 2 4 3 2 1 1 0%Z 5 false false "none".

(** * Properties *)

(** ** Row-major indexing *)

Lemma flat_map_uniform_length {A B} (f : A -> list B) (n : nat) (l : list A) :
  (forall a, In a l -> length (f a) = n) ->
  length (flat_map f l) = length l * n.
Proof.
  induction l as [|a l IH]; intros Hn; simpl; [reflexivity|].
  rewrite length_app, Hn by (simpl; auto).
  rewrite IH by (intros x Hx; apply Hn; simpl; auto). reflexivity.
Qed.

Lemma nth_error_flat_map_uniform {A B} (f : A -> list B) (n : nat) :
  forall (l : list A) (i k : nat) (a : A),
    (forall x, In x l -> length (f x) = n) ->
    nth_error l i = Some a -> k < n ->
    nth_error (flat_map f l) (i * n + k) = nth_error (f a) k.
Proof.
  induction l as [|x l IH]; intros i k a Hn Hi Hk.
  - destruct i; discriminate.
  - destruct i as [|i]; simpl in Hi |- *.
    + injection Hi as ->. rewrite nth_error_app1; [reflexivity|].
      rewrite Hn by (simpl; auto). exact Hk.
    + rewrite nth_error_app2 by (rewrite Hn by (simpl; auto); lia).
      rewrite Hn by (simpl; auto).
      replace (n + i * n + k - n) with (i * n + k) by lia.
      apply IH; auto. intros y Hy. apply Hn. simpl; auto.
Qed.

Lemma nth_error_seq_lt (a n i : nat) :
  i < n -> nth_error (seq a n) i = Some (a + i).
Proof.
  revert a i. induction n as [|n IH]; intros a i Hi; [lia|].
  destruct i as [|i]; simpl; [f_equal; lia|].
  rewrite IH by lia. f_equal. lia.
Qed.

Lemma length_indices (s : list nat) : length (indices s) = numel s.
Proof.
  induction s as [|d s IH]; simpl; [reflexivity|].
  rewrite (flat_map_uniform_length _ (numel s)).
  - rewrite length_seq. reflexivity.
  - intros a _. rewrite length_map. exact IH.
Qed.

Lemma in_bounds_cons (d : nat) (s : list nat) (i : nat) (idx : list nat) :
  in_bounds (d :: s) (i :: idx) = true <-> i < d /\ in_bounds s idx = true.
Proof.
  simpl. rewrite andb_true_iff, Nat.ltb_lt. reflexivity.
Qed.

Lemma ravel_lt (s idx : list nat) :
  in_bounds s idx = true -> ravel s idx < numel s.
Proof.
  revert idx. induction s as [|d s IH]; intros [|i idx] H; simpl in *;
    try discriminate; [lia|].
  apply andb_true_iff in H as [Hi H]. apply Nat.ltb_lt in Hi.
  specialize (IH _ H). nia.
Qed.

Lemma nth_error_indices (s idx : list nat) :
  in_bounds s idx = true -> nth_error (indices s) (ravel s idx) = Some idx.
Proof.
  revert idx. induction s as [|d s IH]; intros [|i idx] H; simpl in *;
    try discriminate; [reflexivity|].
  apply andb_true_iff in H as [Hi H]. apply Nat.ltb_lt in Hi.
  rewrite (nth_error_flat_map_uniform _ (numel s) _ i (ravel s idx) i).
  - rewrite nth_error_map, (IH _ H). reflexivity.
  - intros x _. rewrite length_map. apply length_indices.
  - rewrite nth_error_seq_lt by exact Hi. reflexivity.
  - apply ravel_lt, H.
Qed.

Lemma in_indices_bounds (s idx : list nat) :
  In idx (indices s) -> in_bounds s idx = true.
Proof.
  revert idx. induction s as [|d s IH]; intros idx H; simpl in H.
  - destruct H as [<-|[]]. reflexivity.
  - apply in_flat_map in H as (i & Hi & H).
    apply in_map_iff in H as (idx' & <- & H).
    apply in_seq in Hi. apply in_bounds_cons. split; [lia|auto].
Qed.

Lemma wf_tabulate {A} (s : list nat) (f : list nat -> A) : wf (tabulate s f).
Proof.
  unfold wf, tabulate; simpl. rewrite length_map. apply length_indices.
Qed.

Lemma get_tabulate {A} (s : list nat) (f : list nat -> A) (idx : list nat) :
  in_bounds s idx = true -> get (tabulate s f) idx = Some (f idx).
Proof.
  intros H. unfold get, tabulate; simpl. rewrite H, nth_error_map.
  rewrite nth_error_indices by exact H. reflexivity.
Qed.

Lemma get_in_bounds {A} (t : Tensor A) (idx : list nat) (v : A) :
  get t idx = Some v -> in_bounds (shape t) idx = true.
Proof.
  unfold get. destruct (in_bounds (shape t) idx); [reflexivity|discriminate].
Qed.

Lemma get_is_Some {A} (t : Tensor A) (idx : list nat) :
  wf t -> in_bounds (shape t) idx = true -> exists v, get t idx = Some v.
Proof.
  intros Hwf H. unfold get. rewrite H.
  destruct (nth_error (data t) (ravel (shape t) idx)) eqn:E; [eauto|].
  apply nth_error_None in E. apply ravel_lt in H. unfold wf in Hwf. lia.
Qed.

Lemma get0_get {A} (d : A) (t : Tensor A) (idx : list nat) (v : A) :
  get t idx = Some v -> get0 d t idx = v.
Proof.
  unfold get, get0. destruct (in_bounds (shape t) idx); [|discriminate].
  intros H. apply nth_error_nth. exact H.
Qed.

Lemma tabulate_ext {A} (s : list nat) (f g : list nat -> A) :
  (forall idx, in_bounds s idx = true -> f idx = g idx) ->
  tabulate s f = tabulate s g.
Proof.
  intros H. unfold tabulate. f_equal. apply map_ext_in.
  intros idx Hin. apply H, in_indices_bounds, Hin.
Qed.

Lemma get_tmap {A B} (f : A -> B) (t : Tensor A) (idx : list nat) :
  get (tmap f t) idx = option_map f (get t idx).
Proof.
  unfold get, tmap; simpl. destruct (in_bounds (shape t) idx); [|reflexivity].
  apply nth_error_map.
Qed.

Lemma tmap_tabulate {A B} (g : A -> B) (s : list nat) (f : list nat -> A) :
  tmap g (tabulate s f) = tabulate s (fun idx => g (f idx)).
Proof.
  unfold tmap, tabulate; simpl. rewrite map_map. reflexivity.
Qed.

(** ** Counting the true entries of a tabulated mask *)

Lemma filter_flat_map_length {A B} (p : B -> bool) (f : A -> list B) (l : list A) :
  length (filter p (flat_map f l))
  = list_sum (map (fun a => length (filter p (f a))) l).
Proof.
  induction l as [|a l IH]; simpl; [reflexivity|].
  rewrite filter_app, length_app, IH. reflexivity.
Qed.

Lemma filter_map_length {A B} (p : B -> bool) (f : A -> B) (l : list A) :
  length (filter p (map f l)) = length (filter (fun a => p (f a)) l).
Proof.
  induction l as [|a l IH]; simpl; [reflexivity|].
  destruct (p (f a)); simpl; rewrite IH; reflexivity.
Qed.

Lemma count_indices_cons (p : list nat -> bool) (d : nat) (s : list nat) :
  length (filter p (indices (d :: s)))
  = list_sum (map (fun i =>
      length (filter (fun idx => p (i :: idx)) (indices s))) (seq 0 d)).
Proof.
  simpl. rewrite filter_flat_map_length. f_equal. apply map_ext.
  intros i. apply filter_map_length.
Qed.

Lemma list_sum_ext_in {A} (f g : A -> nat) (l : list A) :
  (forall a, In a l -> f a = g a) ->
  list_sum (map f l) = list_sum (map g l).
Proof.
  intros H. f_equal. apply map_ext_in, H.
Qed.

Lemma sum_le_row (L i : nat) :
  list_sum (map (fun j => if j <=? i then 1 else 0) (seq 0 L)) = Nat.min L (S i).
Proof.
  induction L as [|L IH]; [reflexivity|].
  rewrite seq_S, map_app, list_sum_app, IH. simpl.
  destruct (L <=? i) eqn:E;
    [apply Nat.leb_le in E | apply Nat.leb_gt in E]; lia.
Qed.

Lemma sum_triangle (L n : nat) :
  n <= L ->
  2 * list_sum (map (fun i => Nat.min L (S i)) (seq 0 n)) = n * (n + 1).
Proof.
  induction n as [|n IH]; intros Hn; [reflexivity|].
  rewrite seq_S, map_app, list_sum_app. simpl map. simpl list_sum.
  specialize (IH ltac:(lia)). nia.
Qed.

(** ** Padding mask and subsequent mask *)

Lemma nth_repeat_lt {A} (a d : A) (n m : nat) :
  n < m -> nth n (repeat a m) d = a.
Proof.
  revert n. induction m as [|m IH]; intros [|n] H; simpl; try lia; auto.
  apply IH. lia.
Qed.

Lemma in_bounds3 (s0 s1 s2 : nat) (idx : list nat) :
  in_bounds [s0; s1; s2] idx = true ->
  exists b i j, idx = [b; i; j] /\ b < s0 /\ i < s1 /\ j < s2.
Proof.
  destruct idx as [|b [|i [|j [|k idx]]]]; simpl; intros H;
    repeat (apply andb_true_iff in H as [? H]); try discriminate.
  exists b, i, j. rewrite <- !Nat.ltb_lt. auto.
Qed.

Lemma in_bounds3_intro (s0 s1 s2 b i j : nat) :
  b < s0 -> i < s1 -> j < s2 -> in_bounds [s0; s1; s2] [b; i; j] = true.
Proof.
  intros Hb Hi Hj. simpl.
  rewrite !andb_true_iff, !Nat.ltb_lt. auto.
Qed.

Lemma get_subsequent_mask_tabulate (seq : Tensor Z) (B L : nat) :
  shape seq = [B; L] ->
  get_subsequent_mask seq = Ok (tabulate [1; L; L] lower).
Proof.
  intros Hs. unfold get_subsequent_mask. rewrite Hs.
  unfold triu. simpl length. change (3 <? 2) with false.
  cbn [mbind res_bind shape ones]. rewrite !tmap_tabulate. f_equal.
  apply tabulate_ext. intros idx Hin.
  destruct (in_bounds3 _ _ _ _ Hin) as (b & i & j & -> & Hb & Hi & Hj).
  cbn [rev app lower shape ones].
  unfold get0. cbn [shape data ones].
  rewrite nth_repeat_lt by (apply (ravel_lt [1; L; L] [b; i; j]), Hin).
  destruct (Z.leb_spec 1 (Z.of_nat j - Z.of_nat i));
    destruct (Nat.leb_spec j i); simpl; try reflexivity; lia.
Qed.

Lemma count_lower (L : nat) :
  count_true (tabulate [1; L; L] lower) = L * (L + 1) / 2.
Proof.
  unfold count_true, tabulate; cbn [data].
  rewrite filter_map_length, count_indices_cons. cbn [seq map list_sum fold_right].
  rewrite Nat.add_0_r, count_indices_cons.
  rewrite (list_sum_ext_in _ (fun i => Nat.min L (S i))).
  - rewrite <- (sum_triangle L L) by lia.
    rewrite Nat.mul_comm, Nat.div_mul by lia. reflexivity.
  - intros i _. rewrite count_indices_cons, <- sum_le_row.
    apply list_sum_ext_in. intros j _. cbn [indices filter lower].
    destruct (j <=? i); reflexivity.
Qed.

Lemma get_pad_mask_ok (seq : Tensor Z) (pad_idx : Z) (B L : nat) :
  shape seq = [B; L] ->
  get_pad_mask seq pad_idx
  = Ok (mkTensor [B; 1; L] (map (fun x => negb (x =? pad_idx)%Z) (data seq))).
Proof.
  intros Hs. unfold get_pad_mask, unsqueeze, tmap. cbn [shape data].
  rewrite Hs. reflexivity.
Qed.

Lemma get_pad_mask_wf (seq : Tensor Z) (pad_idx : Z) (B L : nat) :
  shape seq = [B; L] -> wf seq ->
  wf (mkTensor [B; 1; L] (map (fun x => negb (x =? pad_idx)%Z) (data seq))).
Proof.
  intros Hs Hwf. unfold wf in *. cbn [shape data numel].
  rewrite length_map, Hwf, Hs. cbn [numel]. lia.
Qed.

Lemma get_pad_mask_entry (seq : Tensor Z) (pad_idx : Z) (B L b t : nat) (v : Z) :
  shape seq = [B; L] -> get seq [b; t] = Some v ->
  get (mkTensor [B; 1; L] (map (fun x => negb (x =? pad_idx)%Z) (data seq)))
      [b; 0; t] = Some (negb (v =? pad_idx)%Z).
Proof.
  unfold get. intros Hs. rewrite Hs. cbn [shape data in_bounds ravel numel].
  destruct (b <? B); [|discriminate]. destruct (t <? L); [|discriminate].
  cbn [andb]. change (0 <? 1) with true. cbn [andb].
  intros H. rewrite nth_error_map.
  replace (b * (1 * (L * 1)) + (0 * (L * 1) + (t * 1 + 0)))
    with (b * (L * 1) + (t * 1 + 0)) by lia.
  rewrite H. reflexivity.
Qed.

(** ** Broadcasting a (B, 1, L) tensor against a (1, L, L) tensor *)

Lemma broadcast_shapes_mask (B L : nat) :
  broadcast_shapes [B; 1; L] [1; L; L] = Ok [B; L; L].
Proof.
  unfold broadcast_shapes. cbn [rev app broadcast_rev mbind res_bind].
  rewrite Nat.eqb_refl. cbn [mbind res_bind].
  destruct (1 =? L) eqn:E1; [apply Nat.eqb_eq in E1; subst L|];
    cbn [Nat.eqb mbind res_bind];
    (destruct (B =? 1) eqn:E2; [apply Nat.eqb_eq in E2; subst B|]);
    cbn [Nat.eqb mbind res_bind rev app]; reflexivity.
Qed.

Lemma bidx_pad (B L b i j : nat) :
  b < B -> j < L -> bidx [B; 1; L] [b; i; j] = [b; 0; j].
Proof.
  intros Hb Hj. unfold bidx. cbn [length Nat.sub skipn bidx_aligned Nat.eqb].
  destruct (B =? 1) eqn:E1; [apply Nat.eqb_eq in E1|];
    (destruct (L =? 1) eqn:E2; [apply Nat.eqb_eq in E2|]);
    repeat f_equal; lia.
Qed.

Lemma bidx_sub (L b i j : nat) :
  i < L -> j < L -> bidx [1; L; L] [b; i; j] = [0; i; j].
Proof.
  intros Hi Hj. unfold bidx. cbn [length Nat.sub skipn bidx_aligned Nat.eqb].
  destruct (L =? 1) eqn:E2; [apply Nat.eqb_eq in E2|];
    repeat f_equal; lia.
Qed.

Lemma target_mask_entry (seq : Tensor Z) (pad_idx : Z) (B L : nat) :
  shape seq = [B; L] -> wf seq ->
  exists p s m,
    get_pad_mask seq pad_idx = Ok p /\
    get_subsequent_mask seq = Ok s /\
    target_mask seq pad_idx = Ok m /\
    shape m = [B; L; L] /\ wf m /\
    forall b i j, b < B -> i < L -> j < L ->
      exists v, get seq [b; j] = Some v /\
        get p [b; 0; j] = Some (negb (v =? pad_idx)%Z) /\
        get s [0; i; j] = Some (j <=? i) /\
        get m [b; i; j] = Some (negb (v =? pad_idx)%Z && (j <=? i)).
Proof.
  intros Hs Hwf. unfold target_mask.
  rewrite (get_pad_mask_ok _ _ B L Hs), (get_subsequent_mask_tabulate _ B L Hs).
  cbn [mbind res_bind]. unfold tensor_and, broadcast2.
  cbn [shape tabulate]. rewrite broadcast_shapes_mask. cbn [mbind res_bind].
  do 3 eexists. repeat (split; [reflexivity|]).
  split; [apply wf_tabulate|].
  intros b i j Hb Hi Hj.
  destruct (get_is_Some seq [b; j]) as [v Hv]; [exact Hwf| |].
  { rewrite Hs. simpl. rewrite !andb_true_iff, !Nat.ltb_lt. auto. }
  exists v. split; [exact Hv|].
  pose proof (get_pad_mask_entry seq pad_idx B L b j v Hs Hv) as Hp.
  assert (Hsub : get (tabulate [1; L; L] lower) [0; i; j] = Some (j <=? i)).
  { rewrite get_tabulate by (apply in_bounds3_intro; lia). reflexivity. }
  split; [exact Hp|]. split; [exact Hsub|].
  rewrite get_tabulate by (apply in_bounds3_intro; assumption).
  rewrite bidx_pad, bidx_sub by assumption.
  rewrite (get0_get _ _ _ _ Hp).
  change (mkTensor [1; L; L] (map lower (indices [1; L; L])))
    with (tabulate [1; L; L] lower).
  rewrite (get0_get _ _ _ _ Hsub). reflexivity.
Qed.

(** C3. For every 2D integer tensor [seq] of shape (B, L) and every pad
    index that is a value of the elements' type (an int64), [get_pad_mask]
    returns a boolean tensor of shape (B, 1, L) whose entry [b, 0, t] is
    [seq[b, t] != pad_idx].  The function is a value of its two arguments:
    it reads [seq] and writes nothing. *)
Theorem get_pad_mask_spec (seq : Tensor Z) (pad_idx : Z) (B L : nat) :
  in_int64 pad_idx ->
  shape seq = [B; L] -> wf seq ->
  exists m,
    get_pad_mask seq pad_idx = Ok m /\
    shape m = [B; 1; L] /\ wf m /\
    forall b t, b < B -> t < L ->
      exists v, get seq [b; t] = Some v /\
                get m [b; 0; t] = Some (negb (v =? pad_idx)%Z).
Proof.
  intros _ Hs Hwf. rewrite (get_pad_mask_ok _ _ B L Hs).
  eexists. split; [reflexivity|]. split; [reflexivity|]. split.
  - apply (get_pad_mask_wf seq pad_idx B L Hs Hwf).
  - intros b t Hb Ht.
    destruct (get_is_Some seq [b; t]) as [v Hv]; [exact Hwf| |].
    { rewrite Hs. simpl. rewrite !andb_true_iff, !Nat.ltb_lt. auto. }
    exists v. split; [exact Hv|].
    apply get_pad_mask_entry; assumption.
Qed.

Lemma get_pad_mask_spec_witness :
  let seq := mkTensor [1; 3] [1; 2; 0]%Z in
  in_int64 0 /\ shape seq = [1; 3] /\ wf seq /\
  exists m,
    get_pad_mask seq 0 = Ok m /\
    shape m = [1; 1; 3] /\ wf m /\
    forall b t, b < 1 -> t < 3 ->
      exists v, get seq [b; t] = Some v /\
                get m [b; 0; t] = Some (negb (v =? 0)%Z).
Proof.
  intros seq.
  assert (Hpad : in_int64 0) by (unfold in_int64; lia).
  split; [exact Hpad|]. split; [reflexivity|]. split; [reflexivity|].
  apply (get_pad_mask_spec seq 0 1 3 Hpad); reflexivity.
Defined.

(** C2. For every 2D tensor [seq] of shape (B, L), [get_subsequent_mask]
    returns a boolean tensor of shape (1, L, L) whose entry (i, j) is true
    iff [j <= i]; it has exactly L*(L+1)/2 true entries, and any other
    tensor with L columns gives the same mask, whatever its rows hold. *)
Theorem get_subsequent_mask_spec (seq : Tensor Z) (B L : nat) :
  shape seq = [B; L] ->
  exists m,
    get_subsequent_mask seq = Ok m /\
    shape m = [1; L; L] /\ wf m /\
    (forall i j, i < L -> j < L -> get m [0; i; j] = Some (j <=? i)) /\
    count_true m = L * (L + 1) / 2 /\
    (forall (seq' : Tensor Z) (B' : nat),
        shape seq' = [B'; L] -> get_subsequent_mask seq' = Ok m).
Proof.
  intros Hs. exists (tabulate [1; L; L] lower).
  split; [apply (get_subsequent_mask_tabulate _ B L Hs)|].
  split; [reflexivity|]. split; [apply wf_tabulate|]. split; [|split].
  - intros i j Hi Hj.
    rewrite get_tabulate by (apply in_bounds3_intro; lia). reflexivity.
  - apply count_lower.
  - intros seq' B' Hs'. apply (get_subsequent_mask_tabulate _ B' L Hs').
Qed.

Lemma get_subsequent_mask_spec_witness :
  let seq := mkTensor [1; 3] [1; 2; 0]%Z in
  shape seq = [1; 3] /\
  exists m,
    get_subsequent_mask seq = Ok m /\
    shape m = [1; 3; 3] /\ wf m /\
    (forall i j, i < 3 -> j < 3 -> get m [0; i; j] = Some (j <=? i)) /\
    count_true m = 3 * (3 + 1) / 2 /\
    (forall (seq' : Tensor Z) (B' : nat),
        shape seq' = [B'; 3] -> get_subsequent_mask seq' = Ok m).
Proof.
  intros seq. split; [reflexivity|].
  apply (get_subsequent_mask_spec seq 1 3). reflexivity.
Defined.

(** ** The sinusoid table *)

Lemma flat_map_singleton {A B} (f : A -> B) (l : list A) :
  flat_map (fun x => [f x]) l = map f l.
Proof. induction l as [|a l IH]; simpl; congruence. Qed.

Lemma map_flat_map {A B C} (g : B -> C) (f : A -> list B) (l : list A) :
  map g (flat_map f l) = flat_map (fun x => map g (f x)) l.
Proof.
  induction l as [|a l IH]; simpl; [reflexivity|].
  rewrite map_app, IH. reflexivity.
Qed.

Lemma indices2 (n d : nat) :
  indices [n; d] = flat_map (fun i => map (fun j => [i; j]) (seq 0 d)) (seq 0 n).
Proof.
  cbn [indices]. apply flat_map_ext. intros i.
  change (fun i0 : nat => map (cons i0) [[]]) with (fun j : nat => [[j]]).
  rewrite (flat_map_singleton (fun j => [j])), map_map. reflexivity.
Qed.

Lemma tabulate2_data {A} (n d : nat) (h : list nat -> A) :
  data (tabulate [n; d] h)
  = flat_map (fun i => map (fun j => h [i; j]) (seq 0 d)) (seq 0 n).
Proof.
  unfold tabulate; cbn [data]. rewrite indices2, map_flat_map.
  apply flat_map_ext. intros i. apply map_map.
Qed.

Lemma in_bounds2 (s0 s1 : nat) (idx : list nat) :
  in_bounds [s0; s1] idx = true ->
  exists i j, idx = [i; j] /\ i < s0 /\ j < s1.
Proof.
  destruct idx as [|i [|j [|k idx]]]; simpl; intros H;
    repeat (apply andb_true_iff in H as [? H]); try discriminate.
  exists i, j. rewrite <- !Nat.ltb_lt. auto.
Qed.

Lemma get0_tabulate {A} (d : A) (s : list nat) (f : list nat -> A)
    (idx : list nat) :
  in_bounds s idx = true -> get0 d (tabulate s f) idx = f idx.
Proof.
  intros H. apply get0_get, get_tabulate, H.
Qed.

Lemma get_unsqueeze0 {A} (s : list nat) (l : list A) (idx : list nat) :
  get (mkTensor (1 :: s) l) (0 :: idx) = get (mkTensor s l) idx.
Proof.
  unfold get. cbn [shape data in_bounds ravel]. reflexivity.
Qed.

Section Sinusoid.
Context {rt : Runtime}.

Lemma np_array_angles (n_position d_hid : nat) :
  0 < n_position ->
  np_array (map (get_position_angle_vec d_hid) (range n_position))
  = tabulate [n_position; d_hid] (raw_angle d_hid).
Proof.
  intros Hn. unfold np_array.
  assert (Hd : forall p, length (get_position_angle_vec d_hid p) = d_hid).
  { intros p. unfold get_position_angle_vec, range.
    rewrite !length_map, length_seq. reflexivity. }
  destruct (map (get_position_angle_vec d_hid) (range n_position))
    as [|r rows] eqn:E.
  { apply (f_equal (@length _)) in E. unfold range in E.
    rewrite !length_map, length_seq in E. simpl in E. lia. }
  assert (Hr : length r = d_hid).
  { destruct n_position as [|n]; [lia|]. cbn in E. injection E as <- _.
    apply Hd. }
  rewrite Hr, <- E. unfold range at 1. rewrite !length_map, length_seq.
  unfold tabulate at 1. f_equal.
  change (map (raw_angle d_hid) (indices [n_position; d_hid]))
    with (data (tabulate [n_position; d_hid] (raw_angle d_hid))).
  rewrite tabulate2_data. unfold range.
  rewrite map_map, <- flat_map_concat_map.
  apply flat_map_ext. intros pos.
  unfold get_position_angle_vec, range. rewrite map_map.
  apply map_ext. intros j. cbn [raw_angle]. unfold position_angle.
  rewrite Nat2Z.inj_div. reflexivity.
Qed.

Lemma even_pred (j : nat) :
  (1 <=? j) && Nat.even (j - 1) = negb (Nat.even j).
Proof.
  destruct j as [|k]; [reflexivity|].
  replace (S k - 1) with k by lia.
  rewrite Nat.even_succ, <- Nat.negb_even, negb_involutive. reflexivity.
Qed.

Lemma map_cols_tabulate (start : nat) (f : F64 -> F64) (n d : nat)
    (h : list nat -> F64) :
  map_cols start f (tabulate [n; d] h)
  = Ok (tabulate [n; d] (fun idx =>
          match idx with
          | [_; j] =>
              if (start <=? j) && Nat.even (j - start) then f (h idx)
              else h idx
          | _ => h idx
          end)).
Proof.
  unfold map_cols. cbn [shape tabulate]. f_equal.
  apply tabulate_ext. intros idx Hin.
  change (mkTensor [n; d] (map h (indices [n; d]))) with (tabulate [n; d] h).
  rewrite get0_tabulate by exact Hin. reflexivity.
Qed.

Lemma sinusoid_table_tabulate (n_position d_hid : nat) :
  0 < n_position ->
  _get_sinusoid_encoding_table n_position d_hid
  = Ok (mkTensor [1; n_position; d_hid]
          (data (tabulate [n_position; d_hid] (table_entry d_hid)))).
Proof.
  intros Hn. unfold _get_sinusoid_encoding_table.
  rewrite np_array_angles by exact Hn.
  rewrite map_cols_tabulate. cbn [mbind res_bind].
  rewrite map_cols_tabulate. cbn [mbind res_bind].
  rewrite tmap_tabulate. unfold unsqueeze, tabulate. cbn [shape data].
  change (insert_at _ 1 [n_position; d_hid]) with [1; n_position; d_hid].
  cbn [length Z.of_nat]. cbn [Z.leb Z.opp Z.add Z.compare andb Pos.of_succ_nat
    Pos.succ Z.ltb Pos.add Pos.compare Pos.compare_cont].
  f_equal. f_equal.
  apply map_ext_in. intros idx Hin.
  apply in_indices_bounds in Hin.
  destruct (in_bounds2 _ _ _ Hin) as (pos & j & -> & Hpos & Hj).
  cbn [table_entry]. rewrite even_pred, Nat.sub_0_r. cbn [Nat.leb andb].
  destruct (Nat.even j); reflexivity.
Qed.

Lemma PositionalEncoding_new_ok (d_hid n_position : nat) :
  0 < n_position ->
  exists t,
    PositionalEncoding_new d_hid n_position = Ok (mkPositionalEncoding t) /\
    shape t = [1; n_position; d_hid].
Proof.
  intros Hn. unfold PositionalEncoding_new.
  rewrite sinusoid_table_tabulate by exact Hn.
  eexists. split; reflexivity.
Qed.

(** Without a position there is no table: numpy builds a one-dimensional
    empty array and the column slice raises. *)
Lemma sinusoid_table_no_position (d_hid : nat) :
  _get_sinusoid_encoding_table 0 d_hid = Raise IndexError.
Proof. reflexivity. Qed.

(** C6. The table built at construction for ([d_hid], [n_position]) has
    shape (1, n_position, d_hid); for every [pos < n_position] and every [i]
    with [2i+1 < d_hid] its entries at columns [2i] and [2i+1] are the sine
    and the cosine of [pos / 10000^(2i/d_hid)] (as numpy computes them,
    stored as float32).  [PositionalEncoding.__init__] stores this value in
    [pos_table]; nothing recomputes it. *)
Theorem sinusoid_table_spec (n_position d_hid : nat) :
  0 < n_position ->
  exists t,
    _get_sinusoid_encoding_table n_position d_hid = Ok t /\
    PositionalEncoding_new d_hid n_position = Ok (mkPositionalEncoding t) /\
    shape t = [1; n_position; d_hid] /\ wf t /\
    forall pos i, pos < n_position -> 2 * i + 1 < d_hid ->
      get t [0; pos; 2 * i]
        = Some (to_float32 (np_sin (position_angle d_hid pos i))) /\
      get t [0; pos; 2 * i + 1]
        = Some (to_float32 (np_cos (position_angle d_hid pos i))).
Proof.
  intros Hn. eexists. split; [apply sinusoid_table_tabulate, Hn|].
  split.
  { unfold PositionalEncoding_new.
    rewrite sinusoid_table_tabulate by exact Hn. reflexivity. }
  split; [reflexivity|]. split.
  { unfold wf. cbn [shape data tabulate numel].
    rewrite length_map, length_indices. cbn [numel]. lia. }
  intros pos i Hpos Hi.
  rewrite !get_unsqueeze0.
  change (mkTensor [n_position; d_hid]
            (data (tabulate [n_position; d_hid] (table_entry d_hid))))
    with (tabulate [n_position; d_hid] (table_entry d_hid)).
  rewrite !get_tabulate
    by (simpl; rewrite !andb_true_iff, !Nat.ltb_lt; repeat split; lia).
  cbn [table_entry raw_angle].
  replace (Nat.even (2 * i)) with true
    by (symmetry; rewrite Nat.even_mul; reflexivity).
  replace (Nat.even (2 * i + 1)) with false
    by (symmetry; rewrite Nat.add_comm, Nat.even_add_mul_2; reflexivity).
  replace (2 * i / 2) with i
    by (symmetry; rewrite Nat.mul_comm; apply Nat.div_mul; lia).
  replace ((2 * i + 1) / 2) with i
    by (apply (Nat.div_unique _ 2 i 1); lia).
  split; reflexivity.
Qed.

End Sinusoid.

(** ** Adding the position table *)

Lemma bidx_aligned_in_bounds (s idx : list nat) :
  in_bounds s idx = true -> bidx_aligned s idx = idx.
Proof.
  revert idx. induction s as [|d s IH]; intros [|i idx] H; simpl in *;
    try discriminate; [reflexivity|].
  apply andb_true_iff in H as [Hi H]. apply Nat.ltb_lt in Hi.
  rewrite (IH _ H). destruct (d =? 1) eqn:E; [|reflexivity].
  apply Nat.eqb_eq in E. f_equal. lia.
Qed.

Lemma in_bounds_length (s idx : list nat) :
  in_bounds s idx = true -> length idx = length s.
Proof.
  revert idx. induction s as [|d s IH]; intros [|i idx] H; simpl in *;
    try discriminate; [reflexivity|].
  apply andb_true_iff in H as [_ H]. f_equal. auto.
Qed.

Lemma bidx_in_bounds (s idx : list nat) :
  in_bounds s idx = true -> bidx s idx = idx.
Proof.
  intros H. unfold bidx. rewrite (in_bounds_length _ _ H), Nat.sub_diag.
  apply bidx_aligned_in_bounds, H.
Qed.

Lemma broadcast_rev_batch (B : nat) : broadcast_rev [B] [1] = Ok [B].
Proof.
  cbn [broadcast_rev mbind res_bind].
  destruct (B =? 1) eqn:E; [reflexivity|]. cbn [Nat.eqb]. reflexivity.
Qed.

Lemma broadcast_shapes_table (B L d : nat) :
  broadcast_shapes [B; L; d] [1; L; d] = Ok [B; L; d].
Proof.
  unfold broadcast_shapes. cbn [rev app].
  change (broadcast_rev [d; L; B] [d; L; 1])
    with (r ← (r ← broadcast_rev [B] [1];
               if L =? L then Ok (L :: r)
               else if L =? 1 then Ok (L :: r)
               else if L =? 1 then Ok (L :: r) else Raise RuntimeError);
          if d =? d then Ok (d :: r)
          else if d =? 1 then Ok (d :: r)
          else if d =? 1 then Ok (d :: r) else Raise RuntimeError).
  rewrite broadcast_rev_batch, !Nat.eqb_refl. reflexivity.
Qed.

Lemma broadcast_shapes_row (B L d : nat) :
  broadcast_shapes [B; L; d] [1; 1; d] = Ok [B; L; d].
Proof.
  unfold broadcast_shapes. cbn [rev app].
  change (broadcast_rev [d; L; B] [d; 1; 1])
    with (r ← (r ← broadcast_rev [B] [1];
               if L =? 1 then Ok (L :: r)
               else if L =? 1 then Ok (1 :: r)
               else if 1 =? 1 then Ok (L :: r) else Raise RuntimeError);
          if d =? d then Ok (d :: r)
          else if d =? 1 then Ok (d :: r)
          else if d =? 1 then Ok (d :: r) else Raise RuntimeError).
  rewrite broadcast_rev_batch, Nat.eqb_refl. cbn [mbind res_bind].
  destruct (L =? 1); reflexivity.
Qed.

Lemma broadcast_shapes_mismatch (B L P d : nat) :
  P < L -> 2 <= P -> broadcast_shapes [B; L; d] [1; P; d] = Raise RuntimeError.
Proof.
  intros HL HP. unfold broadcast_shapes. cbn [rev app].
  change (broadcast_rev [d; L; B] [d; P; 1])
    with (r ← (r ← broadcast_rev [B] [1];
               if L =? P then Ok (L :: r)
               else if L =? 1 then Ok (P :: r)
               else if P =? 1 then Ok (L :: r) else Raise RuntimeError);
          if d =? d then Ok (d :: r)
          else if d =? 1 then Ok (d :: r)
          else if d =? 1 then Ok (d :: r) else Raise RuntimeError).
  rewrite broadcast_rev_batch. cbn [mbind res_bind].
  replace (L =? P) with false by (symmetry; apply Nat.eqb_neq; lia).
  replace (L =? 1) with false by (symmetry; apply Nat.eqb_neq; lia).
  replace (P =? 1) with false by (symmetry; apply Nat.eqb_neq; lia).
  reflexivity.
Qed.

Lemma bidx_table (L d b t k : nat) :
  k < d ->
  bidx [1; L; d] [b; t; k] = [0; if L =? 1 then 0 else t; k].
Proof.
  intros Hk. unfold bidx. cbn [length Nat.sub skipn bidx_aligned Nat.eqb].
  destruct (d =? 1) eqn:E; [|reflexivity].
  apply Nat.eqb_eq in E. repeat f_equal. lia.
Qed.

Section Positional.
Context {rt : Runtime}.

Lemma PositionalEncoding_forward_unfold (pe : PositionalEncoding)
    (x : Tensor F) (B L d P : nat) :
  shape x = [B; L; d] -> shape (pos_table pe) = [1; P; d] ->
  PositionalEncoding_forward pe x
  = broadcast2 fzero fzero fadd x
      (tabulate [1; Nat.min L P; d] (get0 fzero (pos_table pe))).
Proof.
  intros Hx Ht. unfold PositionalEncoding_forward, size_at, slice_dim1.
  rewrite Hx, Ht. reflexivity.
Qed.

Lemma add_table_entry (x : Tensor F) (table : Tensor F) (B L L' d : nat)
    (b t k t' : nat) (xv tv : F) :
  shape x = [B; L; d] ->
  b < B -> t < L -> k < d ->
  (if L' =? 1 then 0 else t) = t' -> t' < L' ->
  get x [b; t; k] = Some xv ->
  get table [0; t'; k] = Some tv ->
  get (tabulate [B; L; d] (fun idx =>
         fadd (get0 fzero x (bidx [B; L; d] idx))
              (get0 fzero (tabulate [1; L'; d] (get0 fzero table))
                 (bidx [1; L'; d] idx))))
      [b; t; k]
  = Some (fadd xv tv).
Proof.
  intros Hx Hb Ht Hk Ht' Hlt Hxv Htv.
  rewrite get_tabulate by (apply in_bounds3_intro; assumption).
  rewrite bidx_in_bounds by (apply in_bounds3_intro; assumption).
  rewrite bidx_table, Ht' by exact Hk.
  rewrite get0_tabulate by (apply in_bounds3_intro; lia).
  rewrite (get0_get _ _ _ _ Hxv), (get0_get _ _ _ _ Htv). reflexivity.
Qed.

(** C7, as the code has it.  For [x] of shape (B, L, d) and a table of
    shape (1, P, d): when [L <= P] the result is [x + table[:, :L]]; when
    [L > P >= 2] the addition raises (the shapes do not broadcast); when
    [P = 1] nothing is raised for any [L] and the single table row is added
    at every position. *)
Theorem PositionalEncoding_forward_spec (pe : PositionalEncoding)
    (x : Tensor F) (B L d P : nat) :
  shape x = [B; L; d] -> wf x ->
  shape (pos_table pe) = [1; P; d] -> wf (pos_table pe) ->
  (L <= P ->
   exists y, PositionalEncoding_forward pe x = Ok y /\
     shape y = [B; L; d] /\ wf y /\
     forall b t k, b < B -> t < L -> k < d ->
       exists xv tv, get x [b; t; k] = Some xv /\
         get (pos_table pe) [0; t; k] = Some tv /\
         get y [b; t; k] = Some (fadd xv tv)) /\
  (P < L -> 2 <= P ->
   PositionalEncoding_forward pe x = Raise RuntimeError) /\
  (P = 1 ->
   exists y, PositionalEncoding_forward pe x = Ok y /\
     shape y = [B; L; d] /\ wf y /\
     forall b t k, b < B -> t < L -> k < d ->
       exists xv tv, get x [b; t; k] = Some xv /\
         get (pos_table pe) [0; 0; k] = Some tv /\
         get y [b; t; k] = Some (fadd xv tv)).
Proof.
  intros Hx Hwx Ht Hwt.
  rewrite (PositionalEncoding_forward_unfold pe x B L d P Hx Ht).
  unfold broadcast2. cbn [shape tabulate]. rewrite Hx.
  split; [|split].
  - intros HL. rewrite Nat.min_l by exact HL.
    rewrite broadcast_shapes_table. cbn [mbind res_bind].
    eexists. split; [reflexivity|]. split; [reflexivity|].
    split; [apply wf_tabulate|].
    intros b t k Hb Htl Hk.
    destruct (get_is_Some x [b; t; k] Hwx) as [xv Hxv].
    { rewrite Hx. apply in_bounds3_intro; assumption. }
    destruct (get_is_Some (pos_table pe) [0; t; k] Hwt) as [tv Htv].
    { rewrite Ht. apply in_bounds3_intro; lia. }
    exists xv, tv. split; [exact Hxv|]. split; [exact Htv|].
    apply (add_table_entry x (pos_table pe) B L L d b t k t xv tv);
      try assumption.
    destruct (L =? 1) eqn:E; [|reflexivity].
    apply Nat.eqb_eq in E. lia.
  - intros HL HP. rewrite Nat.min_r by lia.
    rewrite broadcast_shapes_mismatch by assumption. reflexivity.
  - intros ->.
    destruct L as [|L'].
    + cbn [Nat.min]. rewrite broadcast_shapes_table. cbn [mbind res_bind].
      eexists. split; [reflexivity|]. split; [reflexivity|].
      split; [apply wf_tabulate|]. intros b t k Hb Htl. lia.
    + replace (Nat.min (S L') 1) with 1 by lia.
      rewrite broadcast_shapes_row. cbn [mbind res_bind].
      eexists. split; [reflexivity|]. split; [reflexivity|].
      split; [apply wf_tabulate|].
      intros b t k Hb Htl Hk.
      destruct (get_is_Some x [b; t; k] Hwx) as [xv Hxv].
      { rewrite Hx. apply in_bounds3_intro; assumption. }
      destruct (get_is_Some (pos_table pe) [0; 0; k] Hwt) as [tv Htv].
      { rewrite Ht. apply in_bounds3_intro; lia. }
      exists xv, tv. split; [exact Hxv|]. split; [exact Htv|].
        eapply add_table_entry; eauto.
Qed.

End Positional.

(** ** Running monadic code *)

Section Proofs.
Context {rt : Runtime} {bl : Blocks}.

Lemma bind_run {A B} (m : M A) (k : A -> M B) (st : State) :
  (m ≫= k) st
  = match m st with
    | Ok (a, st') => k a st'
    | Raise e => Raise e
    end.
Proof. reflexivity. Qed.

Lemma bind_Ok_inv {A B} (m : M A) (k : A -> M B) (st st' : State) (b : B) :
  (m ≫= k) st = Ok (b, st') ->
  exists a st1, m st = Ok (a, st1) /\ k a st1 = Ok (b, st').
Proof.
  rewrite bind_run. destruct (m st) as [[a st1]|e]; [eauto|discriminate].
Qed.

Lemma bind_ext_r {A B} (m : M A) (k1 k2 : A -> M B) (st : State) :
  (forall a st', k1 a st' = k2 a st') -> (m ≫= k1) st = (m ≫= k2) st.
Proof.
  intros H. rewrite !bind_run. destruct (m st) as [[a st']|e]; auto.
Qed.

Lemma bind_ext_l {A B} (m1 m2 : M A) (k : A -> M B) (st : State) :
  m1 st = m2 st -> (m1 ≫= k) st = (m2 ≫= k) st.
Proof.
  intros H. rewrite !bind_run, H. reflexivity.
Qed.

(** ** The attention flag *)

Lemma enc_loop_primary (layers : list EncoderLayer) (src_mask : Tensor bool) :
  forall x acc1 acc2 st,
    primary (enc_loop layers src_mask true x acc1 st)
    = primary (enc_loop layers src_mask false x acc2 st).
Proof.
  induction layers as [|l rest IH]; intros x acc1 acc2 st; [reflexivity|].
  cbn [enc_loop]. rewrite !bind_run.
  destruct (ext (EncoderLayer_forward l x src_mask) st) as [[[x1 a] st1]|e];
    [apply IH|reflexivity].
Qed.

Lemma enc_loop_trace (layers : list EncoderLayer) (src_mask : Tensor bool) :
  forall x acc st o l st',
    enc_loop layers src_mask true x acc st = Ok ((o, l), st') ->
    exists attns, l = acc ++ attns /\
      enc_trace src_mask layers x st o attns st'.
Proof.
  induction layers as [|lay rest IH]; intros x acc st o l st' H.
  - cbn in H. injection H as <- <- <-. exists []. rewrite app_nil_r.
    split; [reflexivity|constructor].
  - cbn [enc_loop] in H. apply bind_Ok_inv in H as ([x1 a] & st1 & H1 & H).
    apply IH in H as (attns & -> & Ht). exists (a :: attns).
    rewrite <- app_assoc. split; [reflexivity|]. econstructor; eassumption.
Qed.

Lemma enc_trace_length src_mask layers x st o attns st' :
  enc_trace src_mask layers x st o attns st' -> length attns = length layers.
Proof. induction 1; simpl; congruence. Qed.

Lemma dec_loop_primary (layers : list DecoderLayer)
    (trg_mask : Tensor bool) (enc_output : Tensor F) (src_mask : Tensor bool) :
  forall x a1 b1 a2 b2 st,
    primary3 (dec_loop layers trg_mask enc_output src_mask true x a1 b1 st)
    = primary3 (dec_loop layers trg_mask enc_output src_mask false x a2 b2 st).
Proof.
  induction layers as [|l rest IH]; intros x a1 b1 a2 b2 st; [reflexivity|].
  cbn [dec_loop]. rewrite !bind_run.
  destruct (ext (DecoderLayer_forward l x enc_output trg_mask src_mask) st)
    as [[[[x1 a] c] st1]|e]; [apply IH|reflexivity].
Qed.

Lemma dec_loop_trace (layers : list DecoderLayer)
    (trg_mask : Tensor bool) (enc_output : Tensor F) (src_mask : Tensor bool) :
  forall x a1 b1 st o l1 l2 st',
    dec_loop layers trg_mask enc_output src_mask true x a1 b1 st
      = Ok ((o, l1, l2), st') ->
    exists slf enc, l1 = a1 ++ slf /\ l2 = b1 ++ enc /\
      dec_trace trg_mask enc_output src_mask layers x st o slf enc st'.
Proof.
  induction layers as [|lay rest IH]; intros x a1 b1 st o l1 l2 st' H.
  - cbn in H. injection H as <- <- <- <-. exists [], []. rewrite !app_nil_r.
    repeat split; constructor.
  - cbn [dec_loop] in H.
    apply bind_Ok_inv in H as ([[x1 a] c] & st1 & H1 & H).
    apply IH in H as (slf & enc & -> & -> & Ht). exists (a :: slf), (c :: enc).
    rewrite <- !app_assoc. repeat split. econstructor; eassumption.
Qed.

Lemma dec_trace_length trg_mask enc_output src_mask layers x st o slf enc st' :
  dec_trace trg_mask enc_output src_mask layers x st o slf enc st' ->
  length slf = length layers /\ length enc = length layers.
Proof. induction 1; simpl; [auto|]. destruct IHdec_trace. split; congruence. Qed.

(** C9. For every input, [Encoder.forward] (and [Decoder.forward]) run with
    [return_attns] true and run with it false give the same primary output
    tensor (and the same error when they fail) and leave the same state.
    With the flag false no list is returned; with it true the lists hold one
    attention matrix per block, in the order of the blocks. *)
Theorem return_attns_spec (e : Encoder) (d : Decoder)
    (src_seq trg_seq : Tensor Z) (src_mask trg_mask : Tensor bool)
    (enc_output : Tensor F) (st : State) :
  primary (Encoder_forward e src_seq src_mask true st)
    = primary (Encoder_forward e src_seq src_mask false st) /\
  primary (Decoder_forward d trg_seq trg_mask enc_output src_mask true st)
    = primary (Decoder_forward d trg_seq trg_mask enc_output src_mask false st) /\
  match Encoder_forward e src_seq src_mask false st with
  | Ok ((_, aux), _) => aux = None
  | Raise _ => True
  end /\
  match Decoder_forward d trg_seq trg_mask enc_output src_mask false st with
  | Ok ((_, aux), _) => aux = None
  | Raise _ => True
  end /\
  match Encoder_forward e src_seq src_mask true st with
  | Ok ((o, aux), st') =>
      exists x0 st0 attns,
        embed (src_word_emb e) (enc_scale_emb e) (enc_d_model e)
          (enc_position_enc e) (enc_dropout e) (enc_layer_norm e) src_seq st
          = Ok (x0, st0) /\
        aux = Some attns /\
        enc_trace src_mask (enc_layer_stack e) x0 st0 o attns st' /\
        length attns = length (enc_layer_stack e)
  | Raise _ => True
  end /\
  match Decoder_forward d trg_seq trg_mask enc_output src_mask true st with
  | Ok ((o, aux), st') =>
      exists x0 st0 slf enc,
        embed (trg_word_emb d) (dec_scale_emb d) (dec_d_model d)
          (dec_position_enc d) (dec_dropout d) (dec_layer_norm d) trg_seq st
          = Ok (x0, st0) /\
        aux = Some (slf, enc) /\
        dec_trace trg_mask enc_output src_mask (dec_layer_stack d)
          x0 st0 o slf enc st' /\
        length slf = length (dec_layer_stack d) /\
        length enc = length (dec_layer_stack d)
  | Raise _ => True
  end.
Proof.
  unfold Encoder_forward, Decoder_forward. rewrite !bind_run.
  destruct (embed (src_word_emb e) _ _ _ _ _ src_seq st) as [[x0 st0]|ex];
    destruct (embed (trg_word_emb d) _ _ _ _ _ trg_seq st) as [[y0 su0]|ey];
    rewrite ?bind_run.
  all: try pose proof (enc_loop_primary (enc_layer_stack e) src_mask x0 [] [] st0)
         as He.
  all: try pose proof (dec_loop_primary (dec_layer_stack d) trg_mask enc_output
                         src_mask y0 [] [] [] [] su0) as Hd.
  all: try pose proof (enc_loop_trace (enc_layer_stack e) src_mask x0 [] st0)
         as Te.
  all: try pose proof (dec_loop_trace (dec_layer_stack d) trg_mask enc_output
                         src_mask y0 [] [] su0) as Td.
  all: try (destruct (enc_loop (enc_layer_stack e) src_mask true x0 [] st0)
              as [[[o1 l1] st1]|e1];
            destruct (enc_loop (enc_layer_stack e) src_mask false x0 [] st0)
              as [[[o2 l2] st2]|e2]; cbn in He; try discriminate He).
  all: try (destruct (dec_loop (dec_layer_stack d) trg_mask enc_output src_mask
                        true y0 [] [] su0) as [[[[p1 m1] n1] su1]|f1];
            destruct (dec_loop (dec_layer_stack d) trg_mask enc_output src_mask
                        false y0 [] [] su0) as [[[[p2 m2] n2] su2]|f2];
            cbn in Hd; try discriminate Hd).
  all: cbn.
  all: repeat split; try assumption; try reflexivity; try congruence.
  all: try (destruct (Te _ _ _ eq_refl) as (attns & -> & Ht);
            exists x0, st0, attns; repeat split; try assumption;
            eapply enc_trace_length; eassumption).
  all: try (destruct (Td _ _ _ _ eq_refl) as (slf & enc & -> & -> & Ht);
            exists y0, su0, slf, enc;
            destruct (dec_trace_length _ _ _ _ _ _ _ _ _ _ Ht);
            repeat split; assumption).
Qed.


(** ** The mask the decoder blocks receive *)

Section SoleMask.
Variable g :
  DecoderLayer -> Tensor F -> Tensor F -> Tensor bool -> Tensor bool ->
  World -> res ((Tensor F * Tensor F * Tensor F) * World).
Variable tm : Tensor bool.
Hypothesis g_agrees :
  forall l x e sm w, g l x e tm sm w = DecoderLayer_forward l x e tm sm w.

Lemma dec_loop_with_decoder_layer (layers : list DecoderLayer) :
  forall enc_output src_mask flag x a b st,
    dec_loop (bl := with_decoder_layer bl g) layers tm enc_output src_mask
      flag x a b st
    = dec_loop layers tm enc_output src_mask flag x a b st.
Proof.
  induction layers as [|l rest IH]; intros enc_output src_mask flag x a b st;
    [reflexivity|].
  cbn [dec_loop]. rewrite !bind_run.
  unfold ext. cbn [DecoderLayer_forward with_decoder_layer].
  rewrite g_agrees.
  destruct (DecoderLayer_forward l x enc_output tm src_mask (world st))
    as [[[[x1 a1] c1] w1]|e]; [apply IH|reflexivity].
Qed.

Lemma Decoder_forward_with_decoder_layer (d : Decoder) (trg_seq : Tensor Z)
    (enc_output : Tensor F) (src_mask : Tensor bool) (flag : bool) (st : State) :
  Decoder_forward (bl := with_decoder_layer bl g) d trg_seq tm enc_output
    src_mask flag st
  = Decoder_forward d trg_seq tm enc_output src_mask flag st.
Proof.
  unfold Decoder_forward. rewrite !bind_run.
  change (embed (bl := with_decoder_layer bl g)) with (embed (bl := bl)).
  destruct (embed _ _ _ _ _ _ trg_seq st) as [[x0 st0]|e]; [|reflexivity].
  rewrite !bind_run, dec_loop_with_decoder_layer. reflexivity.
Qed.

Lemma Transformer_forward_with_decoder_layer (m : Transformer)
    (src_seq trg_seq : Tensor Z) (st : State) :
  target_mask trg_seq (trg_pad_idx m) = Ok tm ->
  Transformer_forward (bl := with_decoder_layer bl g) m src_seq trg_seq st
  = Transformer_forward m src_seq trg_seq st.
Proof.
  intros Htm. unfold Transformer_forward. apply bind_ext_l.
  unfold Transformer_logits. rewrite Htm.
  apply bind_ext_r. intros src_mask st0.
  rewrite !(bind_run (lift (Ok tm))). cbn [lift].
  apply bind_ext_r. intros [enc_output aux] st1.
  apply bind_ext_l. apply Decoder_forward_with_decoder_layer.
Qed.

End SoleMask.

End Proofs.

(** ** Construction *)

Section Construction.
Context {rt : Runtime}.

Lemma assert_Ok_inv (b : bool) (st st' : State) (u : unit) :
  assert b st = Ok (u, st') -> b = true /\ st' = st.
Proof.
  unfold assert. destruct b; [|discriminate].
  intros H. injection H as _ <-. auto.
Qed.

Lemma mret_Ok_inv {A} (a b : A) (st st' : State) :
  mret (M := M) a st = Ok (b, st') -> b = a /\ st' = st.
Proof.
  intros H. injection H as <- <-. auto.
Qed.

Ltac peel H :=
  repeat (let a := fresh "a" in let st := fresh "st" in
          let H1 := fresh "Hstep" in
          apply bind_Ok_inv in H as (a & st & H1 & H)).

Lemma nn_Embedding_inv (num dim : nat) (pad : Z) (st st' : State)
    (e : Embedding) :
  nn_Embedding num dim pad st = Ok (e, st') ->
  num_embeddings e = num /\ embedding_dim e = dim.
Proof.
  unfold nn_Embedding. intros H. peel H.
  apply mret_Ok_inv in H as [-> _]. auto.
Qed.

Lemma Encoder_new_inv n d nl nh dk dv dm di pad dr np sc st e st' :
  Encoder_new n d nl nh dk dv dm di pad dr np sc st = Ok (e, st') ->
  enc_scale_emb e = sc /\ enc_d_model e = dm /\
  num_embeddings (src_word_emb e) = n.
Proof.
  unfold Encoder_new. intros H. peel H.
  apply mret_Ok_inv in H as [-> _]. cbn.
  apply nn_Embedding_inv in Hstep as [-> _]. auto.
Qed.

Lemma Decoder_new_inv n d nl nh dk dv dm di pad np dr sc st e st' :
  Decoder_new n d nl nh dk dv dm di pad np dr sc st = Ok (e, st') ->
  dec_scale_emb e = sc /\ dec_d_model e = dm /\
  num_embeddings (trg_word_emb e) = n.
Proof.
  unfold Decoder_new. intros H. peel H.
  apply mret_Ok_inv in H as [-> _]. cbn.
  apply nn_Embedding_inv in Hstep as [-> _]. auto.
Qed.

(** What the constructor returns when it returns. *)
Lemma Transformer_new_inv (c : Config) (st st' : State) (m : Transformer) :
  Transformer_new c st = Ok (m, st') ->
  exists enc dec prj,
    m = mkTransformer (c_src_pad_idx c) (c_trg_pad_idx c)
          (if trg_emb_prj_weight_sharing c
           then String.eqb (scale_emb_or_prj c) "prj" else false)
          (c_d_model c)
          (if emb_src_trg_weight_sharing c
           then set_src_word_emb enc
                  (set_weight (src_word_emb enc) (weight (trg_word_emb dec)))
           else enc)
          dec
          (if trg_emb_prj_weight_sharing c
           then set_lin_weight prj (weight (trg_word_emb dec)) else prj) /\
    enc_scale_emb enc
      = (if trg_emb_prj_weight_sharing c
         then String.eqb (scale_emb_or_prj c) "emb" else false) /\
    dec_scale_emb dec
      = (if trg_emb_prj_weight_sharing c
         then String.eqb (scale_emb_or_prj c) "emb" else false) /\
    num_embeddings (src_word_emb enc) = n_src_vocab c /\
    str_in (scale_emb_or_prj c) ["emb"%string; "prj"%string; "none"%string]
      = true /\
    c_d_model c = d_word_vec c.
Proof.
  unfold Transformer_new. intros H. peel H.
  apply mret_Ok_inv in H as [-> _].
  apply assert_Ok_inv in Hstep as [Hlegal _].
  apply assert_Ok_inv in Hstep4 as [Hdim _]. apply Nat.eqb_eq in Hdim.
  apply Encoder_new_inv in Hstep0 as (Hsc & _ & Hn).
  apply Decoder_new_inv in Hstep1 as (Hsd & _ & _).
  eexists _, _, _. split; [reflexivity|]. auto.
Qed.

End Construction.

(** ** The forward pass only reads the parameters *)

Create HintDb stable.

Section Lifetime.
Context {rt : Runtime} {bl : Blocks}.

Lemma heap_stable_bind {A B} (m : M A) (k : A -> M B) :
  heap_stable m -> (forall a, heap_stable (k a)) -> heap_stable (m ≫= k).
Proof.
  intros Hm Hk st b st' H. apply bind_Ok_inv in H as (a & st1 & H1 & H2).
  rewrite (Hk _ _ _ _ H2). eapply Hm, H1.
Qed.

Lemma heap_stable_ret {A} (a : A) : heap_stable (mret a).
Proof. intros st b st' H. injection H as _ <-. reflexivity. Qed.

Lemma heap_stable_lift {A} (r : res A) : heap_stable (lift r).
Proof.
  intros st b st' H. unfold lift in H. destruct r; [|discriminate].
  injection H as _ <-. reflexivity.
Qed.

Lemma heap_stable_ext {A} (f : World -> res (A * World)) : heap_stable (ext f).
Proof.
  intros st b st' H. unfold ext in H.
  destruct (f (world st)) as [[a w]|e]; [|discriminate].
  injection H as _ <-. reflexivity.
Qed.

Lemma heap_stable_read (l : loc) : heap_stable (read l).
Proof.
  intros st b st' H. unfold read in H.
  destruct (heap st !! l); [|discriminate]. injection H as _ <-. reflexivity.
Qed.

#[local] Hint Resolve heap_stable_ret heap_stable_lift heap_stable_ext
  heap_stable_read : stable.

Ltac stable :=
  repeat first
    [ apply heap_stable_bind; [|intros ?]
    | match goal with |- heap_stable (if ?b then _ else _) => destruct b end
    | match goal with |- heap_stable (match ?p with (_, _) => _ end) =>
        destruct p end
    | solve [auto with stable] ].

Lemma heap_stable_embed emb sc d pe dr ln seq :
  heap_stable (embed emb sc d pe dr ln seq).
Proof. unfold embed, Embedding_forward. stable. Qed.

Lemma heap_stable_enc_loop layers mask flag :
  forall x acc, heap_stable (enc_loop layers mask flag x acc).
Proof.
  induction layers as [|l rest IH]; intros x acc; cbn [enc_loop]; stable.
Qed.

Lemma heap_stable_dec_loop layers tm e sm flag :
  forall x a b, heap_stable (dec_loop layers tm e sm flag x a b).
Proof.
  induction layers as [|l rest IH]; intros x a b; cbn [dec_loop]; stable.
Qed.

#[local] Hint Resolve heap_stable_embed heap_stable_enc_loop
  heap_stable_dec_loop : stable.

Lemma heap_stable_forward (m : Transformer) (src_seq trg_seq : Tensor Z) :
  heap_stable (Transformer_forward m src_seq trg_seq).
Proof.
  unfold Transformer_forward, Transformer_logits, Encoder_forward,
    Decoder_forward, Linear_forward.
  stable.
Qed.

Lemma step_Forward_heap (m : Transformer) (src_seq trg_seq : Tensor Z)
    (st : State) :
  heap (step m (Forward src_seq trg_seq) st) = heap st.
Proof.
  cbn [step].
  destruct (Transformer_forward m src_seq trg_seq st) as [[t st']|e] eqn:E;
    [|reflexivity].
  eapply heap_stable_forward, E.
Qed.

Lemma run_Update (m : Transformer) (acts : list action) (p : loc)
    (t : Tensor F) (st : State) :
  heap (run m (acts ++ [Update p t]) st) !! p = Some t.
Proof.
  unfold run. rewrite fold_left_app. cbn [fold_left step heap].
  apply lookup_insert_eq.
Qed.

(** C4. After [Transformer(...)] returns: with
    [trg_emb_prj_weight_sharing] the projection weight and the target
    embedding weight are one parameter object, and with
    [emb_src_trg_weight_sharing] so are the source and the target embedding
    weights (with both, all three are one).  After any sequence of forward
    passes and parameter updates, a value written through one reference is
    the value read through the other; a forward pass changes no
    parameter. *)
Theorem weight_sharing_spec (c : Config) (st st' : State) (m : Transformer) :
  Transformer_new c st = Ok (m, st') ->
  (trg_emb_prj_weight_sharing c = true ->
   lin_weight (trg_word_prj m) = weight (trg_word_emb (decoder m)) /\
   forall acts t,
     heap (run m (acts ++ [Update (lin_weight (trg_word_prj m)) t]) st')
       !! weight (trg_word_emb (decoder m)) = Some t /\
     heap (run m (acts ++ [Update (weight (trg_word_emb (decoder m))) t]) st')
       !! lin_weight (trg_word_prj m) = Some t) /\
  (emb_src_trg_weight_sharing c = true ->
   weight (src_word_emb (encoder m)) = weight (trg_word_emb (decoder m)) /\
   forall acts t,
     heap (run m (acts ++ [Update (weight (src_word_emb (encoder m))) t]) st')
       !! weight (trg_word_emb (decoder m)) = Some t /\
     heap (run m (acts ++ [Update (weight (trg_word_emb (decoder m))) t]) st')
       !! weight (src_word_emb (encoder m)) = Some t) /\
  (trg_emb_prj_weight_sharing c = true ->
   emb_src_trg_weight_sharing c = true ->
   weight (src_word_emb (encoder m)) = weight (trg_word_emb (decoder m)) /\
   lin_weight (trg_word_prj m) = weight (trg_word_emb (decoder m))) /\
  (forall src_seq trg_seq st1,
     heap (step m (Forward src_seq trg_seq) st1) = heap st1).
Proof.
  intros H.
  destruct (Transformer_new_inv c st st' m H)
    as (enc & dec & prj & -> & _).
  cbn [trg_word_prj decoder encoder].
  assert (Hprj : trg_emb_prj_weight_sharing c = true ->
            lin_weight (if trg_emb_prj_weight_sharing c
                        then set_lin_weight prj (weight (trg_word_emb dec))
                        else prj)
            = weight (trg_word_emb dec)).
  { intros ->. reflexivity. }
  assert (Hemb : emb_src_trg_weight_sharing c = true ->
            weight (src_word_emb
                      (if emb_src_trg_weight_sharing c
                       then set_src_word_emb enc
                              (set_weight (src_word_emb enc)
                                 (weight (trg_word_emb dec)))
                       else enc))
            = weight (trg_word_emb dec)).
  { intros ->. reflexivity. }
  split; [|split; [|split]].
  - intros Hs. specialize (Hprj Hs). split; [exact Hprj|].
    intros acts t. rewrite Hprj. split; apply run_Update.
  - intros Hs. specialize (Hemb Hs). split; [exact Hemb|].
    intros acts t. rewrite Hemb. split; apply run_Update.
  - intros H1 H2. auto.
  - intros src_seq trg_seq st1. apply step_Forward_heap.
Qed.

End Lifetime.

(** ** The theorems on the integer runtime *)

Lemma sinusoid_table_spec_witness :
  0 < 3 /\
  exists t,
    @_get_sinusoid_encoding_table int_runtime 3 4 = Ok t /\
    shape t = [1; 3; 4] /\
    get t [0; 2; 2] = Some (4 * 10000)%Z /\
    get t [0; 2; 3] = Some (4 * 10000 + 1)%Z.
Proof.
  split; [lia|].
  destruct (@sinusoid_table_spec int_runtime 3 4 ltac:(lia))
    as (t & Ht & _ & Hs & _ & Hent).
  exists t. split; [exact Ht|]. split; [exact Hs|].
  destruct (Hent 2 1 ltac:(lia) ltac:(lia)) as [Hsin Hcos].
  split; [exact Hsin|exact Hcos].
Defined.

Lemma PositionalEncoding_forward_spec_witness :
  let pe := @mkPositionalEncoding int_runtime (mkTensor [1; 2; 1] [5; 6]%Z) in
  let x := mkTensor [1; 2; 1] [10; 20]%Z in
  shape x = [1; 2; 1] /\ wf x /\
  shape (pos_table pe) = [1; 2; 1] /\ wf (pos_table pe) /\
  exists y, PositionalEncoding_forward pe x = Ok y /\ shape y = [1; 2; 1].
Proof.
  intros pe x. repeat (split; [reflexivity|]).
  destruct (@PositionalEncoding_forward_spec int_runtime pe x 1 2 1 2
              eq_refl eq_refl eq_refl eq_refl) as [H _].
  destruct (H ltac:(lia)) as (y & Hy & Hs & _). exists y. auto.
Defined.

(** With one position in the table, a sequence of length two is accepted:
    row 0 of the table is added at both positions. *)
Lemma PositionalEncoding_forward_overlong :
  let x := mkTensor [1; 2; 2] [10; 20; 30; 40]%Z in
  exists pe,
    @PositionalEncoding_new int_runtime 2 1 = Ok pe /\
    shape (pos_table pe) = [1; 1; 2] /\
    shape x = [1; 2; 2] /\ 1 < 2 /\
    PositionalEncoding_forward pe x
    = Ok (mkTensor [1; 2; 2] [10; 21; 30; 41]%Z).
Proof.
  intros x. eexists. split; [reflexivity|].
  repeat split. lia.
Qed.

Lemma weight_sharing_spec_witness :
  exists m st',
    @Transformer_new int_runtime int_config empty_state = Ok (m, st') /\
    lin_weight (trg_word_prj m) = weight (trg_word_emb (decoder m)) /\
    weight (src_word_emb (encoder m)) = weight (trg_word_emb (decoder m)).
Proof.
  destruct (@Transformer_new int_runtime int_config empty_state)
    as [[m st']|e] eqn:E; [|vm_compute in E; discriminate].
  exists m, st'. split; [reflexivity|].
  destruct (@weight_sharing_spec int_runtime int_blocks int_config
              empty_state st' m E) as (H1 & H2 & _).
  split; [apply H1; reflexivity|apply H2; reflexivity].
Defined.

(** ** The logits of the unscaled model *)

Section Scaling.
Context {rt : Runtime} {bl : Blocks}.

Lemma bind_assoc_run {A B C} (m : M A) (k : A -> M B) (h : B -> M C)
    (st : State) :
  ((m ≫= k) ≫= h) st = (m ≫= (fun a => k a ≫= h)) st.
Proof.
  rewrite !bind_run. destruct (m st) as [[a st']|e]; reflexivity.
Qed.

Lemma Transformer_new_unshared (c : Config) (s1 s2 : String.string)
    (st : State) :
  trg_emb_prj_weight_sharing c = false ->
  str_in s1 ["emb"%string; "prj"%string; "none"%string] = true ->
  str_in s2 ["emb"%string; "prj"%string; "none"%string] = true ->
  Transformer_new (with_scale c s1) st = Transformer_new (with_scale c s2) st.
Proof.
  intros Hs H1 H2. unfold Transformer_new.
  cbn [with_scale n_src_vocab n_trg_vocab c_src_pad_idx c_trg_pad_idx
       d_word_vec c_d_model d_inner n_layers n_head d_k d_v dropout n_position
       trg_emb_prj_weight_sharing emb_src_trg_weight_sharing scale_emb_or_prj].
  rewrite Hs, H1, H2. reflexivity.
Qed.

Lemma Transformer_logits_scale (m : Transformer) (src_seq trg_seq : Tensor Z)
    (st : State) :
  Transformer_logits m src_seq trg_seq st
  = (x ← Transformer_logits (set_scale_prj m false) src_seq trg_seq;
     if scale_prj m
     then k ← lift (py_pow (Z.of_nat (d_model m)) lit_neg_half);
          mret (imul x k)
     else mret x) st.
Proof.
  unfold Transformer_logits.
  cbn [set_scale_prj src_pad_idx trg_pad_idx scale_prj d_model encoder decoder
       trg_word_prj].
  rewrite bind_assoc_run. apply bind_ext_r. intros src_mask st0.
  rewrite bind_assoc_run. apply bind_ext_r. intros trg_mask st1.
  rewrite bind_assoc_run. apply bind_ext_r. intros [enc_output aux] st2.
  rewrite bind_assoc_run. apply bind_ext_r. intros [dec_output aux'] st3.
  rewrite bind_assoc_run. apply bind_ext_r. intros seq_logit st4.
  reflexivity.
Qed.

End Scaling.

(** ** Construction succeeds on a valid configuration *)

Section ConstructionTotal.
Context {rt : Runtime}.

Lemma bind_Ok {A B} (m : M A) (k : A -> M B) (st st1 : State) (a : A) :
  m st = Ok (a, st1) -> (m ≫= k) st = k a st1.
Proof. intros H. rewrite bind_run, H. reflexivity. Qed.

Lemma extends_refl (st : State) : extends st st.
Proof. intros l s H. exact H. Qed.

Lemma extends_trans (st1 st2 st3 : State) :
  extends st1 st2 -> extends st2 st3 -> extends st1 st3.
Proof. intros H1 H2 l s H. auto. Qed.

Lemma extends_heap (st st' : State) : heap st' = heap st -> extends st st'.
Proof. intros E l s (t & Ht & Hs). exists t. rewrite E. auto. Qed.

Lemma alloc_total (t : Tensor F) (st : State) :
  exists l st', alloc t st = Ok (l, st') /\
    has_shape st' l (shape t) /\ extends st st'.
Proof.
  unfold alloc. eexists _, _. split; [reflexivity|]. split.
  - exists t. cbn [heap]. rewrite lookup_insert_eq. auto.
  - intros l s (u & Hu & Hs). exists u. cbn [heap]. split; [|exact Hs].
    rewrite lookup_insert_ne; [exact Hu|].
    intros E.
    assert (Hin : l ∈ dom (heap st)) by (apply elem_of_dom; rewrite Hu; eauto).
    rewrite <- E in Hin. exact (is_fresh _ Hin).
Qed.

Lemma ext_total_run {A} (f : World -> A * World) (st : State) :
  exists a st', ext_total f st = Ok (a, st') /\ heap st' = heap st.
Proof.
  unfold ext_total. destruct (f (world st)) as [a w].
  eexists _, _. split; reflexivity.
Qed.

Lemma ext_run {A} (f : World -> res (A * World)) (st : State) :
  ctor_total f ->
  exists a st', ext f st = Ok (a, st') /\ heap st' = heap st.
Proof.
  intros Hf. unfold ext. destruct (Hf (world st)) as (a & w & ->).
  eexists _, _. split; reflexivity.
Qed.

Lemma replicateM_ext_total {A} (f : World -> res (A * World)) (n : nat) :
  ctor_total f ->
  forall st, exists l st',
    replicateM n (ext f) st = Ok (l, st') /\ heap st' = heap st.
Proof.
  intros Hf. induction n as [|n IH]; intros st; cbn [replicateM].
  - eexists _, _. split; reflexivity.
  - destruct (ext_run f st Hf) as (a & st1 & E1 & H1).
    destruct (IH st1) as (l & st2 & E2 & H2).
    exists (a :: l), st2.
    rewrite (bind_Ok _ _ _ _ _ E1), (bind_Ok _ _ _ _ _ E2).
    split; [reflexivity|congruence].
Qed.

Lemma xavier_total (p : loc) (s : list nat) (st : State) :
  has_shape st p s ->
  exists st', xavier_uniform_ p st = Ok (tt, st') /\ extends st st'.
Proof.
  intros (t & Ht & Hs). unfold xavier_uniform_, read, write.
  rewrite bind_run, Ht.
  destruct (ext_total_run (init_values XavierUniform (shape t)) st)
    as (w & st1 & E1 & H1).
  rewrite (bind_Ok _ _ _ _ _ E1).
  eexists. split; [reflexivity|].
  intros l s' (u & Hu & Hs'). unfold has_shape. cbn [heap]. rewrite H1.
  destruct (Nat.eq_dec p l) as [<-|Hne].
  - rewrite Ht in Hu. injection Hu as <-.
    eexists. rewrite lookup_insert_eq. split; [reflexivity|exact Hs'].
  - exists u. rewrite lookup_insert_ne by exact Hne. auto.
Qed.

Lemma nn_Embedding_total (num dim : nat) (pad : Z) (st : State) :
  valid_pad num pad ->
  exists e st', nn_Embedding num dim pad st = Ok (e, st') /\
    num_embeddings e = num /\
    has_shape st' (weight e) [num; dim] /\ extends st st'.
Proof.
  intros Hpad. unfold valid_pad in Hpad. unfold nn_Embedding.
  assert (Hp : exists pidx,
             (if (0 <? pad)%Z
              then _ ← assert (pad <? Z.of_nat num)%Z; mret pad
              else if (pad <? 0)%Z
                   then _ ← assert (- Z.of_nat num <=? pad)%Z;
                        mret (Z.of_nat num + pad)%Z
                   else mret pad) st = Ok (pidx, st) /\
             (0 <= pidx < Z.of_nat num)%Z).
  { destruct (Z.ltb_spec 0 pad).
    - exists pad. replace (pad <? Z.of_nat num)%Z with true
        by (symmetry; apply Z.ltb_lt; lia).
      split; [reflexivity|lia].
    - destruct (Z.ltb_spec pad 0).
      + exists (Z.of_nat num + pad)%Z.
        replace (- Z.of_nat num <=? pad)%Z with true
          by (symmetry; apply Z.leb_le; lia).
        split; [reflexivity|lia].
      + exists pad. split; [reflexivity|lia]. }
  destruct Hp as (pidx & Ep & Hpidx).
  rewrite (bind_Ok _ _ _ _ _ Ep).
  destruct (ext_total_run (init_values Normal [num; dim]) st)
    as (w & st1 & E1 & H1).
  rewrite (bind_Ok _ _ _ _ _ E1).
  unfold fill_row_zero. cbn [shape data].
  replace ((0 <=? pidx)%Z && (pidx <? Z.of_nat num)%Z) with true
    by (symmetry; apply andb_true_iff; split;
        [apply Z.leb_le|apply Z.ltb_lt]; lia).
  rewrite bind_run. cbn [lift].
  match goal with
  | |- context [alloc ?t] =>
      destruct (alloc_total t st1) as (l & st2 & E2 & Hl & Hext)
  end.
  rewrite (bind_Ok _ _ _ _ _ E2).
  eexists _, _. split; [reflexivity|]. split; [reflexivity|].
  split; [exact Hl|].
  eapply extends_trans; [apply extends_heap, H1|exact Hext].
Qed.

Lemma nn_Linear_total (n_in n_out : nat) (st : State) :
  exists p st', nn_Linear n_in n_out st = Ok (p, st') /\
    has_shape st' (lin_weight p) [n_out; n_in] /\ extends st st'.
Proof.
  unfold nn_Linear.
  destruct (ext_total_run (init_values KaimingUniform [n_out; n_in]) st)
    as (w & st1 & E1 & H1).
  rewrite (bind_Ok _ _ _ _ _ E1).
  destruct (alloc_total (mkTensor [n_out; n_in] w) st1)
    as (l & st2 & E2 & Hl & Hext).
  rewrite (bind_Ok _ _ _ _ _ E2).
  eexists _, _. split; [reflexivity|]. split; [exact Hl|].
  eapply extends_trans; [apply extends_heap, H1|exact Hext].
Qed.

Lemma lift_Ok_bind {A B} (r : res A) (a : A) (k : A -> M B) (st : State) :
  r = Ok a -> (lift r ≫= k) st = k a st.
Proof. intros ->. reflexivity. Qed.

Lemma Encoder_new_total n d nl nh dk dv dm di pad dr np sc (st : State) :
  valid_pad n pad -> 0 < np ->
  ctor_total (Dropout_new dr) ->
  ctor_total (EncoderLayer_new dm di nh dk dv dr) ->
  ctor_total (LayerNorm_new dm) ->
  exists e st',
    Encoder_new n d nl nh dk dv dm di pad dr np sc st = Ok (e, st') /\
    num_embeddings (src_word_emb e) = n /\
    has_shape st' (weight (src_word_emb e)) [n; d] /\ extends st st' /\
    shape (pos_table (enc_position_enc e)) = [1; np; d] /\
    enc_d_model e = dm.
Proof.
  intros Hpad Hnp Hdr Hlay Hln. unfold Encoder_new.
  destruct (nn_Embedding_total n d pad st Hpad)
    as (emb & st1 & E1 & Hnum & Hshape & Hext).
  rewrite (bind_Ok _ _ _ _ _ E1).
  destruct (PositionalEncoding_new_ok d np Hnp) as (t & Ht & Hst).
  rewrite (lift_Ok_bind _ _ _ _ Ht).
  destruct (ext_run _ st1 Hdr) as (dro & st2 & E2 & H2).
  rewrite (bind_Ok _ _ _ _ _ E2).
  destruct (replicateM_ext_total _ nl Hlay st2) as (ls & st3 & E3 & H3).
  rewrite (bind_Ok _ _ _ _ _ E3).
  destruct (ext_run _ st3 Hln) as (ln & st4 & E4 & H4).
  rewrite (bind_Ok _ _ _ _ _ E4).
  eexists _, _. split; [reflexivity|].
  cbn [src_word_emb enc_position_enc enc_d_model pos_table].
  assert (Hh : extends st1 st4) by (apply extends_heap; congruence).
  split; [exact Hnum|]. split; [apply Hh, Hshape|].
  split; [eapply extends_trans; eassumption|]. auto.
Qed.

Lemma Decoder_new_total n d nl nh dk dv dm di pad np dr sc (st : State) :
  valid_pad n pad -> 0 < np ->
  ctor_total (Dropout_new dr) ->
  ctor_total (DecoderLayer_new dm di nh dk dv dr) ->
  ctor_total (LayerNorm_new dm) ->
  exists e st',
    Decoder_new n d nl nh dk dv dm di pad np dr sc st = Ok (e, st') /\
    num_embeddings (trg_word_emb e) = n /\
    has_shape st' (weight (trg_word_emb e)) [n; d] /\ extends st st' /\
    shape (pos_table (dec_position_enc e)) = [1; np; d] /\
    dec_d_model e = dm.
Proof.
  intros Hpad Hnp Hdr Hlay Hln. unfold Decoder_new.
  destruct (nn_Embedding_total n d pad st Hpad)
    as (emb & st1 & E1 & Hnum & Hshape & Hext).
  rewrite (bind_Ok _ _ _ _ _ E1).
  destruct (PositionalEncoding_new_ok d np Hnp) as (t & Ht & Hst).
  rewrite (lift_Ok_bind _ _ _ _ Ht).
  destruct (ext_run _ st1 Hdr) as (dro & st2 & E2 & H2).
  rewrite (bind_Ok _ _ _ _ _ E2).
  destruct (replicateM_ext_total _ nl Hlay st2) as (ls & st3 & E3 & H3).
  rewrite (bind_Ok _ _ _ _ _ E3).
  destruct (ext_run _ st3 Hln) as (ln & st4 & E4 & H4).
  rewrite (bind_Ok _ _ _ _ _ E4).
  eexists _, _. split; [reflexivity|].
  cbn [trg_word_emb dec_position_enc dec_d_model pos_table].
  assert (Hh : extends st1 st4) by (apply extends_heap; congruence).
  split; [exact Hnum|]. split; [apply Hh, Hshape|].
  split; [eapply extends_trans; eassumption|]. auto.
Qed.

Lemma init_parameters_total (e : Encoder) (d : Decoder) (prj : Linear)
    (s0 s1 s2 : list nat) (st : State) :
  has_shape st (weight (src_word_emb e)) s0 ->
  has_shape st (weight (trg_word_emb d)) s1 ->
  has_shape st (lin_weight prj) s2 ->
  exists st', init_parameters e d prj st = Ok (tt, st') /\ extends st st'.
Proof.
  intros H0 H1 H2. unfold init_parameters.
  destruct (xavier_total _ _ _ H0) as (st1 & E1 & X1).
  rewrite (bind_Ok _ _ _ _ _ E1).
  match goal with
  | |- context [ext_total ?f ≫= _] =>
      destruct (ext_total_run f st1) as ([] & st2 & E2 & X2)
  end.
  rewrite (bind_Ok _ _ _ _ _ E2).
  apply extends_heap in X2.
  destruct (xavier_total _ _ st2 (X2 _ _ (X1 _ _ H1))) as (st3 & E3 & X3).
  rewrite (bind_Ok _ _ _ _ _ E3).
  match goal with
  | |- context [ext_total ?f ≫= _] =>
      destruct (ext_total_run f st3) as ([] & st4 & E4 & X4)
  end.
  rewrite (bind_Ok _ _ _ _ _ E4).
  apply extends_heap in X4.
  destruct (xavier_total _ _ st4 (X4 _ _ (X3 _ _ (X2 _ _ (X1 _ _ H2)))))
    as (st5 & E5 & X5).
  exists st5. split; [exact E5|].
  repeat (eapply extends_trans; [eassumption|]). apply extends_refl.
Qed.

(** On a valid configuration the constructor returns a well-formed model,
    whatever the two vocabulary sizes are. *)
Lemma Transformer_new_total (c : Config) (st : State) :
  str_in (scale_emb_or_prj c) ["emb"%string; "prj"%string; "none"%string]
    = true ->
  c_d_model c = d_word_vec c ->
  valid_pad (n_src_vocab c) (c_src_pad_idx c) ->
  valid_pad (n_trg_vocab c) (c_trg_pad_idx c) ->
  0 < n_position c ->
  ctors_accept c ->
  exists m st',
    Transformer_new c st = Ok (m, st') /\
    model_ok m st' (d_word_vec c)
      (if emb_src_trg_weight_sharing c then n_trg_vocab c else n_src_vocab c)
      (n_trg_vocab c) (n_position c).
Proof.
  intros Hlegal Hdim Hps Hpt Hnp [Hdr Hln Hel Hdl]. unfold Transformer_new.
  rewrite Hlegal. cbn [assert]. rewrite bind_run. cbn [mret M_ret].
  match goal with
  | |- context [Encoder_new ?n ?d ?nl ?nh ?dk ?dv ?dm ?di ?pad ?dr ?np ?sc] =>
      destruct (Encoder_new_total n d nl nh dk dv dm di pad dr np sc st
                  Hps Hnp Hdr Hel Hln)
        as (enc & st1 & E1 & _ & S0 & X1 & T0 & D0)
  end.
  rewrite (bind_Ok _ _ _ _ _ E1).
  match goal with
  | |- context [Decoder_new ?n ?d ?nl ?nh ?dk ?dv ?dm ?di ?pad ?np ?dr ?sc] =>
      destruct (Decoder_new_total n d nl nh dk dv dm di pad np dr sc st1
                  Hpt Hnp Hdr Hdl Hln)
        as (dec & st2 & E2 & _ & S1 & X2 & T1 & D1)
  end.
  rewrite (bind_Ok _ _ _ _ _ E2).
  destruct (nn_Linear_total (c_d_model c) (n_trg_vocab c) st2)
    as (prj & st3 & E3 & S2 & X3).
  rewrite (bind_Ok _ _ _ _ _ E3).
  destruct (init_parameters_total enc dec prj _ _ _ st3
              (X3 _ _ (X2 _ _ S0)) (X3 _ _ S1) S2) as (st4 & E4 & X4).
  rewrite (bind_Ok _ _ _ _ _ E4).
  rewrite Hdim, Nat.eqb_refl. cbn [assert]. rewrite bind_run. cbn [mret M_ret].
  eexists _, _. split; [reflexivity|].
  rewrite Hdim in S2, D0, D1.
  split; cbn [encoder decoder trg_word_prj d_model].
  - destruct (emb_src_trg_weight_sharing c); cbn.
    + apply X4, X3, S1.
    + apply X4, X3, X2, S0.
  - apply X4, X3, S1.
  - destruct (trg_emb_prj_weight_sharing c); cbn.
    + apply X4, X3, S1.
    + apply X4, S2.
  - destruct (emb_src_trg_weight_sharing c); exact T0.
  - exact T1.
  - destruct (emb_src_trg_weight_sharing c); exact D0.
  - exact D1.
  - reflexivity.
Qed.

End ConstructionTotal.

Lemma int_ctors_accept : @ctors_accept int_runtime int_config.
Proof.
  split; intros w; eexists _, _; reflexivity.
Qed.

(** ** The target mask and the flattened logits *)

Lemma target_mask_shape (seq : Tensor Z) (pad_idx : Z) (B L : nat) :
  shape seq = [B; L] ->
  exists m, target_mask seq pad_idx = Ok m /\ shape m = [B; L; L].
Proof.
  intros Hs. unfold target_mask.
  rewrite (get_pad_mask_ok _ _ B L Hs), (get_subsequent_mask_tabulate _ B L Hs).
  cbn [mbind res_bind]. unfold tensor_and, broadcast2.
  cbn [shape tabulate]. rewrite broadcast_shapes_mask. cbn [mbind res_bind].
  eexists. split; reflexivity.
Qed.

Lemma length_chunks {A} (n k : nat) (l : list A) : length (chunks n k l) = k.
Proof.
  revert l. induction k as [|k IH]; intros l; simpl; [reflexivity|].
  rewrite IH. reflexivity.
Qed.

Lemma view_rows_flatten {A} (t : Tensor A) (B L V : nat) :
  shape t = [B; L; V] -> 0 < V ->
  view_rows t V = Ok (mkTensor [B * L; V] (data t)).
Proof.
  intros Hs HV. unfold view_rows. rewrite Hs. cbn [numel].
  replace (V =? 0) with false by (symmetry; apply Nat.eqb_neq; lia).
  replace (B * (L * (V * 1))) with (B * L * V) by lia.
  rewrite Nat.Div0.mod_mul, Nat.div_mul by lia. reflexivity.
Qed.

Lemma get_flatten {A} (l : list A) (B L V b t v : nat) :
  b < B -> t < L -> v < V ->
  get (mkTensor [B * L; V] l) [b * L + t; v]
  = get (mkTensor [B; L; V] l) [b; t; v].
Proof.
  intros Hb Ht Hv. unfold get. cbn [shape data in_bounds ravel numel].
  replace (b * L + t <? B * L) with true by (symmetry; apply Nat.ltb_lt; nia).
  replace (b <? B) with true by (symmetry; apply Nat.ltb_lt; lia).
  replace (t <? L) with true by (symmetry; apply Nat.ltb_lt; lia).
  cbn [andb]. destruct (v <? V); [|reflexivity].
  f_equal. lia.
Qed.

(** * Further properties of the masks *)

Lemma unsqueeze_before_last {A} (lead : list nat) (L : nat) (l : list A) :
  unsqueeze (mkTensor (lead ++ [L]) l) (-2)
  = Ok (mkTensor (lead ++ [1; L]) l).
Proof.
  unfold unsqueeze. cbn [shape data].
  rewrite length_app. cbn [length].
  replace ((- (Z.of_nat (length lead + 1) + 1) <=? -2)%Z
           && (-2 <=? Z.of_nat (length lead + 1))%Z) with true
    by (symmetry; apply andb_true_iff; split; apply Z.leb_le; lia).
  cbn [Z.ltb Z.compare].
  replace (Z.to_nat (-2 + Z.of_nat (length lead + 1) + 1)) with (length lead)
    by lia.
  unfold insert_at. rewrite firstn_app, firstn_all, Nat.sub_diag.
  rewrite skipn_app, skipn_all, Nat.sub_diag. cbn [firstn skipn app].
  rewrite app_nil_r. reflexivity.
Qed.

(** X1. With a pad index that is an int64 value, [get_pad_mask] accepts a
    tensor of any rank from one up: the mask has the shape of [seq] with a
    dimension of size 1 inserted before the last one and marks, in storage
    order, the entries that differ from [pad_idx]; on a 0-dimensional tensor
    it raises IndexError. *)
Theorem get_pad_mask_any_rank (lead : list nat) (L : nat) (l : list Z)
    (pad_idx : Z) :
  in_int64 pad_idx ->
  get_pad_mask (mkTensor (lead ++ [L]) l) pad_idx
  = Ok (mkTensor (lead ++ [1; L]) (map (fun x => negb (x =? pad_idx)%Z) l)) /\
  (forall x, get_pad_mask (mkTensor [] [x]) pad_idx = Raise IndexError).
Proof.
  intros _. split; [|reflexivity].
  unfold get_pad_mask, tmap. cbn [shape data].
  apply unsqueeze_before_last.
Qed.

Lemma get_pad_mask_any_rank_witness :
  in_int64 0 /\
  get_pad_mask (mkTensor [2; 1; 2] [3; 0; 0; 7]%Z) 0
  = Ok (mkTensor [2; 1; 1; 2] [true; false; false; true]) /\
  get_pad_mask (mkTensor [] [5]%Z) 0 = Raise IndexError.
Proof.
  assert (Hpad : in_int64 0) by (unfold in_int64; lia).
  split; [exact Hpad|].
  destruct (get_pad_mask_any_rank [2; 1] 2 [3; 0; 0; 7]%Z 0 Hpad) as [H1 H2].
  split; [exact H1|exact (H2 5%Z)].
Defined.

(** X2. In the decoder mask of a (B, L) target, row [i] of batch [b] is
    false everywhere exactly when the tokens [0 .. i] of that batch row are
    all padding: a target row that starts with the pad index leaves its
    first positions with nothing to attend to. *)
Theorem target_mask_blocked_row (seq : Tensor Z) (pad_idx : Z)
    (B L b i : nat) :
  shape seq = [B; L] -> wf seq -> b < B -> i < L ->
  exists m,
    target_mask seq pad_idx = Ok m /\
    ((forall j, j < L -> get m [b; i; j] = Some false) <->
     (forall j, j <= i -> get seq [b; j] = Some pad_idx)).
Proof.
  intros Hs Hwf Hb Hi.
  destruct (target_mask_entry seq pad_idx B L Hs Hwf)
    as (p & s & m & _ & _ & Hm & _ & _ & Hent).
  exists m. split; [exact Hm|]. split.
  - intros Hrow j Hj.
    destruct (Hent b i j Hb Hi ltac:(lia)) as (v & Hv & _ & _ & Hg).
    rewrite (Hrow j ltac:(lia)) in Hg. rewrite Hv. f_equal.
    injection Hg as Hg.
    replace (j <=? i) with true in Hg by (symmetry; apply Nat.leb_le; lia).
    rewrite andb_true_r in Hg.
    destruct (Z.eqb_spec v pad_idx); [assumption|discriminate].
  - intros Hpad j Hj.
    destruct (Hent b i j Hb Hi Hj) as (v & Hv & _ & _ & Hg).
    rewrite Hg. f_equal.
    destruct (Nat.leb_spec j i) as [Hle|Hgt]; [|apply andb_false_r].
    rewrite (Hpad j Hle) in Hv. injection Hv as <-.
    rewrite Z.eqb_refl. reflexivity.
Qed.

Lemma target_mask_blocked_row_witness :
  let seq := mkTensor [1; 3] [0; 0; 5]%Z in
  shape seq = [1; 3] /\ wf seq /\ 0 < 1 /\ 1 < 3 /\
  exists m,
    target_mask seq 0 = Ok m /\
    forall j, j < 3 -> get m [0; 1; j] = Some false.
Proof.
  intros seq. split; [reflexivity|]. split; [reflexivity|].
  split; [lia|]. split; [lia|].
  destruct (target_mask_blocked_row seq 0%Z 1 3 0 1 eq_refl eq_refl
              ltac:(lia) ltac:(lia)) as (m & Hm & Hiff).
  exists m. split; [exact Hm|]. apply Hiff.
  intros [|[|j]] Hj; [reflexivity|reflexivity|lia].
Defined.

(** * Further properties of the position table *)

Section TableColumns.
Context {rt : Runtime}.

(** X3. In every column [j < d_hid], paired or not, the table holds the
    sine (even [j]) or the cosine (odd [j]) of [pos / 10000^(2(j//2)/d_hid)];
    for an odd [d_hid] the last column is a sine without its cosine. *)
Theorem sinusoid_table_columns (n_position d_hid pos j : nat) :
  pos < n_position -> j < d_hid ->
  exists t,
    _get_sinusoid_encoding_table n_position d_hid = Ok t /\
    get t [0; pos; j]
    = Some (to_float32
              ((if Nat.even j then np_sin else np_cos)
                 (position_angle d_hid pos (j / 2)))).
Proof.
  intros Hpos Hj. eexists.
  split; [apply sinusoid_table_tabulate; lia|].
  rewrite get_unsqueeze0.
  change (mkTensor [n_position; d_hid]
            (data (tabulate [n_position; d_hid] (table_entry d_hid))))
    with (tabulate [n_position; d_hid] (table_entry d_hid)).
  rewrite get_tabulate
    by (simpl; rewrite !andb_true_iff, !Nat.ltb_lt; repeat split; lia).
  cbn [table_entry raw_angle]. destruct (Nat.even j); reflexivity.
Qed.

End TableColumns.

Lemma sinusoid_table_columns_witness :
  0 < 2 /\ 2 < 3 /\
  exists t,
    @_get_sinusoid_encoding_table int_runtime 2 3 = Ok t /\
    get t [0; 0; 2] = Some 0%Z.
Proof.
  split; [lia|]. split; [lia|].
  destruct (@sinusoid_table_columns int_runtime 2 3 0 2 ltac:(lia) ltac:(lia))
    as (t & Ht & Hg).
  exists t. split; [exact Ht|exact Hg].
Defined.

(** * Errors of the forward pass *)

Section ForwardErrors.
Context {rt : Runtime} {bl : Blocks}.

Lemma lift_Raise_bind {A B} (r : res A) (e : exn) (k : A -> M B) (st : State) :
  r = Raise e -> (lift r ≫= k) st = Raise e.
Proof. intros ->. reflexivity. Qed.

Lemma bind_Raise {A B} (m : M A) (k : A -> M B) (st : State) (e : exn) :
  m st = Raise e -> (m ≫= k) st = Raise e.
Proof. intros H. rewrite bind_run, H. reflexivity. Qed.

Lemma shape_last (s : list nat) :
  1 <= length s -> exists lead L, s = lead ++ [L].
Proof.
  intros H. destruct (exists_last (l := s)) as (lead & L & ->).
  - destruct s; [simpl in H; lia|discriminate].
  - eauto.
Qed.

Lemma get_pad_mask_rank (seq : Tensor Z) (pad_idx : Z) :
  1 <= length (shape seq) -> exists p, get_pad_mask seq pad_idx = Ok p.
Proof.
  intros H. destruct (shape_last _ H) as (lead & L & Hs).
  destruct seq as [s l]. cbn [shape] in Hs. subst s.
  eexists. unfold get_pad_mask, tmap. cbn [shape data].
  apply unsqueeze_before_last.
Qed.

Lemma get_subsequent_mask_rank (seq : Tensor Z) :
  length (shape seq) <> 2 -> get_subsequent_mask seq = Raise ValueError.
Proof.
  unfold get_subsequent_mask.
  destruct (shape seq) as [|a [|b [|c r]]]; cbn [length]; intros H;
    try reflexivity.
  lia.
Qed.

(** X4. [Transformer.forward] accepts only a 2-dimensional target: on a
    target of any other rank (and a source of rank one or more) it raises
    before the encoder is run, with ValueError from the unpacking of
    [seq.size()] when the target has at least one dimension and with
    IndexError when it has none. *)
Theorem forward_target_rank (m : Transformer) (src_seq trg_seq : Tensor Z)
    (st : State) :
  1 <= length (shape src_seq) ->
  length (shape trg_seq) <> 2 ->
  Transformer_forward m src_seq trg_seq st
  = Raise (if length (shape trg_seq) =? 0 then IndexError else ValueError).
Proof.
  intros Hsrc Htrg.
  destruct (get_pad_mask_rank src_seq (src_pad_idx m) Hsrc) as (p & Hp).
  unfold Transformer_forward, Transformer_logits.
  apply bind_Raise. rewrite (lift_Ok_bind _ _ _ _ Hp).
  apply lift_Raise_bind. unfold target_mask.
  destruct (length (shape trg_seq) =? 0) eqn:E.
  - apply Nat.eqb_eq in E. destruct trg_seq as [[|a s] l];
      [reflexivity|discriminate].
  - apply Nat.eqb_neq in E.
    destruct (get_pad_mask_rank trg_seq (trg_pad_idx m) ltac:(lia)) as (q & ->).
    cbn [mbind res_bind]. rewrite get_subsequent_mask_rank by exact Htrg.
    reflexivity.
Qed.

End ForwardErrors.

Lemma forward_target_rank_witness :
  exists m st,
    @Transformer_new int_runtime int_config empty_state = Ok (m, st) /\
    Transformer_forward (bl := int_blocks) m
      (mkTensor [1; 2] [1; 2]%Z) (mkTensor [3] [1; 4; 0]%Z) st
    = Raise ValueError.
Proof.
  destruct (@Transformer_new int_runtime int_config empty_state)
    as [[m st]|e] eqn:E; [|vm_compute in E; discriminate].
  exists m, st. split; [reflexivity|].
  apply (@forward_target_rank int_runtime int_blocks m
           (mkTensor [1; 2] [1; 2]%Z) (mkTensor [3] [1; 4; 0]%Z) st);
    cbn; lia.
Defined.

Lemma int_ctors_accept_any (c : @Config int_runtime) :
  @ctors_accept int_runtime c.
Proof.
  split; intros w; eexists _, _; reflexivity.
Qed.

(** * Replacing a block *)

Section BlockArguments.
Context {rt : Runtime} {bl : Blocks}.

Lemma bind_ext_Ok {A B} (m : M A) (k1 k2 : A -> M B) (st : State) :
  (forall a st', m st = Ok (a, st') -> k1 a st' = k2 a st') ->
  (m ≫= k1) st = (m ≫= k2) st.
Proof.
  intros H. rewrite !bind_run. destruct (m st) as [[a st']|e]; auto.
Qed.

Lemma enc_loop_with_encoder_layer g (sm : Tensor bool)
    (layers : list EncoderLayer) :
  (forall l x w, g l x sm w = EncoderLayer_forward l x sm w) ->
  forall flag x acc st,
    enc_loop (bl := with_encoder_layer bl g) layers sm flag x acc st
    = enc_loop layers sm flag x acc st.
Proof.
  intros Hg. induction layers as [|l rest IH]; intros flag x acc st;
    [reflexivity|].
  cbn [enc_loop]. rewrite !bind_run.
  unfold ext. cbn [EncoderLayer_forward with_encoder_layer].
  rewrite Hg.
  destruct (EncoderLayer_forward l x sm (world st)) as [[[x1 a1] w1]|e];
    [apply IH|reflexivity].
Qed.

Lemma dec_loop_with_fixed_arguments g (tm : Tensor bool) (e : Tensor F)
    (sm : Tensor bool) (layers : list DecoderLayer) :
  (forall l x w, g l x e tm sm w = DecoderLayer_forward l x e tm sm w) ->
  forall flag x a b st,
    dec_loop (bl := with_decoder_layer bl g) layers tm e sm flag x a b st
    = dec_loop layers tm e sm flag x a b st.
Proof.
  intros Hg. induction layers as [|l rest IH]; intros flag x a b st;
    [reflexivity|].
  cbn [dec_loop]. rewrite !bind_run.
  unfold ext. cbn [DecoderLayer_forward with_decoder_layer].
  rewrite Hg.
  destruct (DecoderLayer_forward l x e tm sm (world st))
    as [[[[x1 a1] c1] w1]|err]; [apply IH|reflexivity].
Qed.

End BlockArguments.

(** * What the constructor allocates and writes *)

Section Allocation.
Context {rt : Runtime}.

Ltac peel H :=
  repeat (let a := fresh "a" in let st := fresh "st" in
          let H1 := fresh "Hstep" in
          apply bind_Ok_inv in H as (a & st & H1 & H)).

Lemma keeps_refl (st : State) : keeps st st.
Proof. intros l t H. exact H. Qed.

Lemma keeps_trans (st1 st2 st3 : State) :
  keeps st1 st2 -> keeps st2 st3 -> keeps st1 st3.
Proof. intros H1 H2 l t H. auto. Qed.

Lemma keeps_heap (st st' : State) : heap st' = heap st -> keeps st st'.
Proof. intros E l t H. rewrite E. exact H. Qed.

Lemma heap_stable_ext_total {A} (f : World -> A * World) :
  heap_stable (ext_total f).
Proof.
  intros st a st' H. unfold ext_total in H.
  destruct (f (world st)) as [b w]. injection H as _ <-. reflexivity.
Qed.

Lemma heap_stable_assert (b : bool) : heap_stable (assert b).
Proof.
  intros st a st' H. apply assert_Ok_inv in H as [_ ->]. reflexivity.
Qed.

Lemma heap_stable_replicateM {A} (m : M A) (n : nat) :
  heap_stable m -> heap_stable (replicateM n m).
Proof.
  intros Hm. induction n as [|n IH]; cbn [replicateM].
  - apply heap_stable_ret.
  - apply heap_stable_bind; [exact Hm|]. intros a.
    apply heap_stable_bind; [exact IH|]. intros l. apply heap_stable_ret.
Qed.

Lemma replicateM_length {A} (m : M A) (n : nat) :
  forall st l st', replicateM n m st = Ok (l, st') -> length l = n.
Proof.
  induction n as [|n IH]; intros st l st' H; cbn [replicateM] in H.
  - apply mret_Ok_inv in H as [-> _]. reflexivity.
  - peel H. apply mret_Ok_inv in H as [-> _]. cbn [length].
    f_equal. eapply IH, Hstep0.
Qed.

Lemma alloc_inv (t : Tensor F) (st st' : State) (l : loc) :
  alloc t st = Ok (l, st') ->
  heap st !! l = None /\ heap st' !! l = Some t /\ keeps st st'.
Proof.
  unfold alloc. intros H. injection H as <- <-. cbn [heap].
  split; [apply not_elem_of_dom, is_fresh|].
  split; [apply lookup_insert_eq|].
  intros l t' Hl. cbn [heap]. rewrite lookup_insert_ne; [exact Hl|].
  intros E.
  assert (Hin : l ∈ dom (heap st)) by (apply elem_of_dom; rewrite Hl; eauto).
  rewrite <- E in Hin. exact (is_fresh _ Hin).
Qed.

Lemma nn_Embedding_alloc (num dim : nat) (pad : Z) (st st' : State)
    (e : Embedding) :
  nn_Embedding num dim pad st = Ok (e, st') ->
  heap st !! weight e = None /\ is_Some (heap st' !! weight e) /\
  keeps st st'.
Proof.
  unfold nn_Embedding. intros H. peel H.
  apply mret_Ok_inv in H as [-> ->]. cbn [weight].
  assert (H0 : heap st0 = heap st).
  { revert Hstep. clear.
    destruct (0 <? pad)%Z; [|destruct (pad <? 0)%Z]; intros H.
    - peel H. apply mret_Ok_inv in H as [_ ->].
      apply assert_Ok_inv in Hstep as [_ ->]. reflexivity.
    - peel H. apply mret_Ok_inv in H as [_ ->].
      apply assert_Ok_inv in Hstep as [_ ->]. reflexivity.
    - apply mret_Ok_inv in H as [_ ->]. reflexivity. }
  apply heap_stable_ext_total in Hstep0.
  apply heap_stable_lift in Hstep1.
  apply alloc_inv in Hstep2 as (Hnone & Hsome & Hkeep).
  rewrite Hstep1, Hstep0, H0 in Hnone.
  split; [exact Hnone|]. split; [rewrite Hsome; eauto|].
  eapply keeps_trans; [|exact Hkeep].
  apply keeps_heap. congruence.
Qed.

Lemma nn_Linear_alloc (n_in n_out : nat) (st st' : State) (p : Linear) :
  nn_Linear n_in n_out st = Ok (p, st') ->
  heap st !! lin_weight p = None /\ is_Some (heap st' !! lin_weight p) /\
  keeps st st'.
Proof.
  unfold nn_Linear. intros H. peel H.
  apply mret_Ok_inv in H as [-> ->]. cbn [lin_weight].
  apply heap_stable_ext_total in Hstep.
  apply alloc_inv in Hstep0 as (Hnone & Hsome & Hkeep).
  rewrite Hstep in Hnone.
  split; [exact Hnone|]. split; [rewrite Hsome; eauto|].
  eapply keeps_trans; [apply keeps_heap, Hstep|exact Hkeep].
Qed.

Lemma Encoder_new_alloc n d nl nh dk dv dm di pad dr np sc st e st' :
  Encoder_new n d nl nh dk dv dm di pad dr np sc st = Ok (e, st') ->
  heap st !! weight (src_word_emb e) = None /\
  is_Some (heap st' !! weight (src_word_emb e)) /\ keeps st st' /\
  length (enc_layer_stack e) = nl /\
  PositionalEncoding_new d np = Ok (enc_position_enc e).
Proof.
  unfold Encoder_new. intros H. peel H.
  apply mret_Ok_inv in H as [-> ->].
  cbn [src_word_emb enc_layer_stack enc_position_enc].
  apply nn_Embedding_alloc in Hstep as (Hnone & Hsome & Hkeep).
  assert (Hpe : PositionalEncoding_new d np = Ok a0 /\ heap st1 = heap st0).
  { unfold lift in Hstep0.
    destruct (PositionalEncoding_new d np); [|discriminate].
    injection Hstep0 as -> ->. auto. }
  destruct Hpe as [Hpe H1].
  apply heap_stable_ext in Hstep1.
  pose proof (replicateM_length _ _ _ _ _ Hstep2) as Hlen.
  apply (heap_stable_replicateM _ _ (heap_stable_ext _)) in Hstep2.
  apply heap_stable_ext in Hstep3.
  assert (Hh : heap st4 = heap st0) by congruence.
  split; [exact Hnone|]. split; [rewrite Hh; exact Hsome|].
  split; [|auto].
  eapply keeps_trans; [exact Hkeep|apply keeps_heap, Hh].
Qed.

Lemma Decoder_new_alloc n d nl nh dk dv dm di pad np dr sc st e st' :
  Decoder_new n d nl nh dk dv dm di pad np dr sc st = Ok (e, st') ->
  heap st !! weight (trg_word_emb e) = None /\
  is_Some (heap st' !! weight (trg_word_emb e)) /\ keeps st st' /\
  length (dec_layer_stack e) = nl /\
  PositionalEncoding_new d np = Ok (dec_position_enc e).
Proof.
  unfold Decoder_new. intros H. peel H.
  apply mret_Ok_inv in H as [-> ->].
  cbn [trg_word_emb dec_layer_stack dec_position_enc].
  apply nn_Embedding_alloc in Hstep as (Hnone & Hsome & Hkeep).
  assert (Hpe : PositionalEncoding_new d np = Ok a0 /\ heap st1 = heap st0).
  { unfold lift in Hstep0.
    destruct (PositionalEncoding_new d np); [|discriminate].
    injection Hstep0 as -> ->. auto. }
  destruct Hpe as [Hpe H1].
  apply heap_stable_ext in Hstep1.
  pose proof (replicateM_length _ _ _ _ _ Hstep2) as Hlen.
  apply (heap_stable_replicateM _ _ (heap_stable_ext _)) in Hstep2.
  apply heap_stable_ext in Hstep3.
  assert (Hh : heap st4 = heap st0) by congruence.
  split; [exact Hnone|]. split; [rewrite Hh; exact Hsome|].
  split; [|auto].
  eapply keeps_trans; [exact Hkeep|apply keeps_heap, Hh].
Qed.

Lemma drawn_heap (st st' : State) (l : loc) :
  heap st' !! l = heap st !! l -> drawn_by_xavier st l -> drawn_by_xavier st' l.
Proof.
  intros E (t & w & Ht & Hd). exists t, w. rewrite E. auto.
Qed.

Lemma xavier_inv (p : loc) (st st' : State) (u : unit) :
  xavier_uniform_ p st = Ok (u, st') ->
  (forall l, l <> p -> heap st' !! l = heap st !! l) /\
  drawn_by_xavier st' p /\
  (forall l, drawn_by_xavier st l -> drawn_by_xavier st' l).
Proof.
  unfold xavier_uniform_. intros H. peel H.
  unfold read in Hstep. destruct (heap st !! p) as [t|] eqn:Ht; [|discriminate].
  injection Hstep as <- <-.
  unfold ext_total in Hstep0.
  destruct (init_values XavierUniform (shape t) (world st)) as [v w'] eqn:Ev.
  injection Hstep0 as <- <-.
  unfold write in H. injection H as _ <-. cbn [heap].
  assert (Hother : forall l, l <> p ->
            <[p := mkTensor (shape t) v]> (heap st) !! l = heap st !! l).
  { intros l Hl. apply lookup_insert_ne. congruence. }
  assert (Hdrawn : drawn_by_xavier
            (mkState (<[p := mkTensor (shape t) v]> (heap st)) w') p).
  { exists (mkTensor (shape t) v), (world st). cbn [heap shape data].
    rewrite lookup_insert_eq, Ev. auto. }
  split; [exact Hother|]. split; [exact Hdrawn|].
  intros l Hl. destruct (Nat.eq_dec l p) as [->|Hne]; [exact Hdrawn|].
  apply (drawn_heap st); [|exact Hl]. cbn [heap]. apply Hother, Hne.
Qed.

Lemma init_parameters_inv (e : Encoder) (d : Decoder) (prj : Linear)
    (st st' : State) (u : unit) :
  init_parameters e d prj st = Ok (u, st') ->
  (forall l, l <> weight (src_word_emb e) -> l <> weight (trg_word_emb d) ->
             l <> lin_weight prj -> heap st' !! l = heap st !! l) /\
  drawn_by_xavier st' (weight (src_word_emb e)) /\
  drawn_by_xavier st' (weight (trg_word_emb d)) /\
  drawn_by_xavier st' (lin_weight prj).
Proof.
  unfold init_parameters. intros H.
  apply bind_Ok_inv in H as (u0 & st0 & Hstep & H).
  apply bind_Ok_inv in H as (u1 & st1 & Hstep0 & H).
  apply bind_Ok_inv in H as (u2 & st2 & Hstep1 & H).
  apply bind_Ok_inv in H as (u3 & st3 & Hstep2 & H).
  apply xavier_inv in Hstep as (F0 & D0 & K0).
  apply heap_stable_ext_total in Hstep0.
  apply xavier_inv in Hstep1 as (F1 & D1 & K1).
  apply heap_stable_ext_total in Hstep2.
  apply xavier_inv in H as (F2 & D2 & K2).
  assert (E1 : forall l, drawn_by_xavier st0 l -> drawn_by_xavier st1 l).
  { intros l. apply drawn_heap. rewrite Hstep0. reflexivity. }
  assert (E3 : forall l, drawn_by_xavier st2 l -> drawn_by_xavier st3 l).
  { intros l. apply drawn_heap. rewrite Hstep2. reflexivity. }
  split; [|auto 10].
  intros l N0 N1 N2.
  rewrite (F2 l N2), Hstep2, (F1 l N1), Hstep0, (F0 l N0). reflexivity.
Qed.

(** The steps of a construction that returned. *)
Lemma Transformer_new_steps (c : Config) (st st' : State) (m : Transformer) :
  Transformer_new c st = Ok (m, st') ->
  exists enc st1 dec st2 prj st3 sc,
    Encoder_new (n_src_vocab c) (d_word_vec c) (n_layers c) (n_head c)
      (d_k c) (d_v c) (c_d_model c) (d_inner c) (c_src_pad_idx c)
      (dropout c) (n_position c) sc st = Ok (enc, st1) /\
    Decoder_new (n_trg_vocab c) (d_word_vec c) (n_layers c) (n_head c)
      (d_k c) (d_v c) (c_d_model c) (d_inner c) (c_trg_pad_idx c)
      (n_position c) (dropout c) sc st1 = Ok (dec, st2) /\
    nn_Linear (c_d_model c) (n_trg_vocab c) st2 = Ok (prj, st3) /\
    init_parameters enc dec prj st3 = Ok (tt, st') /\
    encoder m
    = (if emb_src_trg_weight_sharing c
       then set_src_word_emb enc
              (set_weight (src_word_emb enc) (weight (trg_word_emb dec)))
       else enc) /\
    decoder m = dec /\
    trg_word_prj m
    = (if trg_emb_prj_weight_sharing c
       then set_lin_weight prj (weight (trg_word_emb dec)) else prj).
Proof.
  unfold Transformer_new. intros H. peel H.
  apply mret_Ok_inv in H as [-> ->].
  apply assert_Ok_inv in Hstep as [_ ->].
  apply assert_Ok_inv in Hstep4 as [_ ->].
  destruct a3. eexists _, _, _, _, _, _, _.
  repeat (split; [eassumption|]). auto.
Qed.

(** The three parameters a construction allocated: new, pairwise distinct,
    and beside them nothing in the heap changed. *)
Lemma Transformer_new_allocation (c : Config) (st st' : State)
    (m : Transformer) :
  Transformer_new c st = Ok (m, st') ->
  exists l0 l1 l2,
    weight (src_word_emb (encoder m))
      = (if emb_src_trg_weight_sharing c then l1 else l0) /\
    weight (trg_word_emb (decoder m)) = l1 /\
    lin_weight (trg_word_prj m)
      = (if trg_emb_prj_weight_sharing c then l1 else l2) /\
    l0 <> l1 /\ l0 <> l2 /\ l1 <> l2 /\
    heap st !! l0 = None /\ heap st !! l1 = None /\ heap st !! l2 = None /\
    keeps st st' /\
    drawn_by_xavier st' l0 /\ drawn_by_xavier st' l1 /\ drawn_by_xavier st' l2.
Proof.
  intros H.
  destruct (Transformer_new_steps c st st' m H)
    as (enc & st1 & dec & st2 & prj & st3 & sc & E1 & E2 & E3 & E4
        & -> & -> & ->).
  apply Encoder_new_alloc in E1 as (N0 & [t0 S0] & K1 & _).
  apply Decoder_new_alloc in E2 as (N1 & [t1 S1] & K2 & _).
  apply nn_Linear_alloc in E3 as (N2 & [t2 S2] & K3).
  apply init_parameters_inv in E4 as (Fr & D0 & D1 & D2).
  set (l0 := weight (src_word_emb enc)) in *.
  set (l1 := weight (trg_word_emb dec)) in *.
  set (l2 := lin_weight prj) in *.
  assert (H01 : l0 <> l1) by (intros E; rewrite E in S0; congruence).
  assert (H02 : l0 <> l2)
    by (intros E; pose proof (K2 _ _ S0) as S0'; rewrite E in S0';
        rewrite N2 in S0'; discriminate).
  assert (H12 : l1 <> l2) by (intros E; rewrite E in S1; congruence).
  assert (M0 : heap st !! l0 = None) by exact N0.
  assert (M1 : heap st !! l1 = None).
  { destruct (heap st !! l1) as [t|] eqn:E; [|reflexivity].
    pose proof (K1 _ _ E) as E'. rewrite N1 in E'. discriminate. }
  assert (M2 : heap st !! l2 = None).
  { destruct (heap st !! l2) as [t|] eqn:E; [|reflexivity].
    pose proof (K2 _ _ (K1 _ _ E)) as E'. rewrite N2 in E'. discriminate. }
  exists l0, l1, l2.
  split; [destruct (emb_src_trg_weight_sharing c); reflexivity|].
  split; [reflexivity|].
  split; [destruct (trg_emb_prj_weight_sharing c); reflexivity|].
  repeat (split; [assumption|]).
  split; [|auto].
  intros l t Hl.
  rewrite Fr; [apply K3, K2, K1, Hl| | |]; intros ->; congruence.
Qed.

End Allocation.

Section ConstructedModel.
Context {rt : Runtime} {bl : Blocks}.

(** X9. When [Transformer(...)] returns, the source embedding table, the
    target embedding table and the projection weight all hold the values
    [xavier_uniform_] drew for their whole shape: the zero row that
    [nn.Embedding] wrote at [padding_idx] is overwritten by the
    initialisation loop of the constructor. *)
Theorem constructed_weights_xavier (c : Config) (st st' : State)
    (m : Transformer) :
  Transformer_new c st = Ok (m, st') ->
  drawn_by_xavier st' (weight (src_word_emb (encoder m))) /\
  drawn_by_xavier st' (weight (trg_word_emb (decoder m))) /\
  drawn_by_xavier st' (lin_weight (trg_word_prj m)).
Proof.
  intros H.
  destruct (Transformer_new_allocation c st st' m H)
    as (l0 & l1 & l2 & -> & -> & -> & _ & _ & _ & _ & _ & _ & _
        & D0 & D1 & D2).
  destruct (emb_src_trg_weight_sharing c);
    destruct (trg_emb_prj_weight_sharing c); auto.
Qed.

(** X10. A switch that is off leaves two distinct parameter objects: without
    [emb_src_trg_weight_sharing] the source and target embedding weights
    differ, without [trg_emb_prj_weight_sharing] the projection weight
    differs from the target embedding weight, and unless both switches are
    on the source embedding weight differs from the projection weight.  An
    update through one of two distinct references is not seen through the
    other. *)
Theorem unshared_weights_distinct (c : Config) (st st' : State)
    (m : Transformer) :
  Transformer_new c st = Ok (m, st') ->
  (emb_src_trg_weight_sharing c = false ->
   weight (src_word_emb (encoder m)) <> weight (trg_word_emb (decoder m)) /\
   forall t st1,
     heap (step m (Update (weight (trg_word_emb (decoder m))) t) st1)
       !! weight (src_word_emb (encoder m))
     = heap st1 !! weight (src_word_emb (encoder m))) /\
  (trg_emb_prj_weight_sharing c = false ->
   lin_weight (trg_word_prj m) <> weight (trg_word_emb (decoder m)) /\
   forall t st1,
     heap (step m (Update (weight (trg_word_emb (decoder m))) t) st1)
       !! lin_weight (trg_word_prj m)
     = heap st1 !! lin_weight (trg_word_prj m)) /\
  (emb_src_trg_weight_sharing c = false \/
   trg_emb_prj_weight_sharing c = false ->
   weight (src_word_emb (encoder m)) <> lin_weight (trg_word_prj m)).
Proof.
  intros H.
  destruct (Transformer_new_allocation c st st' m H)
    as (l0 & l1 & l2 & -> & -> & -> & H01 & H02 & H12 & _).
  split; [|split].
  - intros ->. split; [exact H01|].
    intros t st1. cbn [step heap]. apply lookup_insert_ne. congruence.
  - intros ->. split; [congruence|].
    intros t st1. cbn [step heap]. apply lookup_insert_ne. congruence.
  - intros [-> | ->].
    + destruct (trg_emb_prj_weight_sharing c); assumption.
    + destruct (emb_src_trg_weight_sharing c); congruence.
Qed.

(** X11. The constructor only allocates: the three weights of the new model
    are parameters that did not exist before, and every parameter that
    existed before the call has the same value after it. *)
Theorem construction_frame (c : Config) (st st' : State) (m : Transformer) :
  Transformer_new c st = Ok (m, st') ->
  keeps st st' /\
  heap st !! weight (src_word_emb (encoder m)) = None /\
  heap st !! weight (trg_word_emb (decoder m)) = None /\
  heap st !! lin_weight (trg_word_prj m) = None.
Proof.
  intros H.
  destruct (Transformer_new_allocation c st st' m H)
    as (l0 & l1 & l2 & -> & -> & -> & _ & _ & _ & N0 & N1 & N2 & K & _).
  split; [exact K|].
  destruct (emb_src_trg_weight_sharing c);
    destruct (trg_emb_prj_weight_sharing c); auto.
Qed.

(** X12. A constructed model has [n_layers] encoder blocks and [n_layers]
    decoder blocks, and its encoder and decoder hold the same position
    table, the one of ([d_word_vec], [n_position]); so a forward pass of the
    encoder with [return_attns] returns exactly [n_layers] attention
    matrices. *)
Theorem constructed_stacks (c : Config) (st st' : State) (m : Transformer) :
  Transformer_new c st = Ok (m, st') ->
  length (enc_layer_stack (encoder m)) = n_layers c /\
  length (dec_layer_stack (decoder m)) = n_layers c /\
  PositionalEncoding_new (d_word_vec c) (n_position c)
    = Ok (enc_position_enc (encoder m)) /\
  enc_position_enc (encoder m) = dec_position_enc (decoder m) /\
  forall src_seq src_mask st1,
    match Encoder_forward (encoder m) src_seq src_mask true st1 with
    | Ok ((_, Some attns), _) => length attns = n_layers c
    | Ok ((_, None), _) => False
    | Raise _ => True
    end.
Proof.
  intros H.
  destruct (Transformer_new_steps c st st' m H)
    as (enc & st1 & dec & st2 & prj & st3 & sc & E1 & E2 & _ & _
        & He & Hd & _).
  apply Encoder_new_alloc in E1 as (_ & _ & _ & Len & Pe).
  apply Decoder_new_alloc in E2 as (_ & _ & _ & Ld & Pd).
  assert (Hstack : enc_layer_stack (encoder m) = enc_layer_stack enc)
    by (rewrite He; destruct (emb_src_trg_weight_sharing c); reflexivity).
  assert (Hpe : enc_position_enc (encoder m) = enc_position_enc enc)
    by (rewrite He; destruct (emb_src_trg_weight_sharing c); reflexivity).
  rewrite Hstack, Hpe, Hd.
  split; [exact Len|]. split; [exact Ld|]. split; [exact Pe|].
  split; [congruence|].
  intros src_seq src_mask st0. unfold Encoder_forward. rewrite bind_run.
  destruct (embed _ _ _ _ _ _ src_seq st0) as [[x0 sx]|e]; [|exact I].
  rewrite bind_run, Hstack.
  destruct (enc_loop (enc_layer_stack enc) src_mask true x0 [] sx)
    as [[[o l] so]|e] eqn:El; [|exact I].
  cbn. apply enc_loop_trace in El as (attns & -> & Ht).
  cbn [app]. rewrite (enc_trace_length _ _ _ _ _ _ _ Ht). exact Len.
Qed.

End ConstructedModel.

(** * Errors of the constructor *)

Section ConstructionErrors.
Context {rt : Runtime}.

(** X13. On a configuration the layers accept, with valid pad indices and
    at least one position, [Transformer(...)] returns exactly when the
    selector is one of 'emb', 'prj', 'none' and [d_model = d_word_vec];
    otherwise it raises AssertionError (for the dimensions, only after the
    encoder, the decoder and the projection have been built and
    initialised). *)
Theorem construction_assertions (c : Config) (st : State) :
  valid_pad (n_src_vocab c) (c_src_pad_idx c) ->
  valid_pad (n_trg_vocab c) (c_trg_pad_idx c) ->
  0 < n_position c ->
  ctors_accept c ->
  (str_in (scale_emb_or_prj c) ["emb"%string; "prj"%string; "none"%string]
     = false ->
   Transformer_new c st = Raise AssertionError) /\
  (str_in (scale_emb_or_prj c) ["emb"%string; "prj"%string; "none"%string]
     = true ->
   c_d_model c <> d_word_vec c ->
   Transformer_new c st = Raise AssertionError) /\
  (str_in (scale_emb_or_prj c) ["emb"%string; "prj"%string; "none"%string]
     = true ->
   c_d_model c = d_word_vec c ->
   exists m st', Transformer_new c st = Ok (m, st')).
Proof.
  intros Hps Hpt Hnp Hctors. split; [|split].
  - intros Hlegal. unfold Transformer_new. rewrite Hlegal. reflexivity.
  - intros Hlegal Hdim. destruct Hctors as [Hdr Hln Hel Hdl].
    unfold Transformer_new.
    rewrite Hlegal. cbn [assert]. rewrite bind_run. cbn [mret M_ret].
    match goal with
    | |- context [Encoder_new ?n ?d ?nl ?nh ?dk ?dv ?dm ?di ?pad ?dr ?np ?sc] =>
        destruct (Encoder_new_total n d nl nh dk dv dm di pad dr np sc st
                    Hps Hnp Hdr Hel Hln)
          as (enc & st1 & E1 & _ & S0 & X1 & _)
    end.
    rewrite (bind_Ok _ _ _ _ _ E1).
    match goal with
    | |- context [Decoder_new ?n ?d ?nl ?nh ?dk ?dv ?dm ?di ?pad ?np ?dr ?sc] =>
        destruct (Decoder_new_total n d nl nh dk dv dm di pad np dr sc st1
                    Hpt Hnp Hdr Hdl Hln)
          as (dec & st2 & E2 & _ & S1 & X2 & _)
    end.
    rewrite (bind_Ok _ _ _ _ _ E2).
    destruct (nn_Linear_total (c_d_model c) (n_trg_vocab c) st2)
      as (prj & st3 & E3 & S2 & X3).
    rewrite (bind_Ok _ _ _ _ _ E3).
    destruct (init_parameters_total enc dec prj _ _ _ st3
                (X3 _ _ (X2 _ _ S0)) (X3 _ _ S1) S2) as (st4 & E4 & X4).
    rewrite (bind_Ok _ _ _ _ _ E4).
    replace (c_d_model c =? d_word_vec c) with false
      by (symmetry; apply Nat.eqb_neq; exact Hdim).
    reflexivity.
  - intros Hlegal Hdim.
    destruct (Transformer_new_total c st Hlegal Hdim Hps Hpt Hnp Hctors)
      as (m & st' & E & _).
    eauto.
Qed.

(** X14. With [n_position = 0] the constructor raises IndexError while it
    builds the encoder's position table (numpy makes a one-dimensional empty
    array, which the column slice rejects), whatever the other dimensions
    are. *)
Theorem construction_no_position (c : Config) (st : State) :
  str_in (scale_emb_or_prj c) ["emb"%string; "prj"%string; "none"%string]
    = true ->
  valid_pad (n_src_vocab c) (c_src_pad_idx c) ->
  n_position c = 0 ->
  Transformer_new c st = Raise IndexError.
Proof.
  intros Hlegal Hps Hnp. unfold Transformer_new.
  rewrite Hlegal. cbn [assert]. rewrite bind_run. cbn [mret M_ret].
  apply bind_Raise. unfold Encoder_new.
  match goal with
  | |- context [nn_Embedding ?n ?d ?pad] =>
      destruct (nn_Embedding_total n d pad st Hps) as (emb & st1 & E1 & _)
  end.
  rewrite (bind_Ok _ _ _ _ _ E1), Hnp.
  apply lift_Raise_bind. reflexivity.
Qed.

End ConstructionErrors.

(** * The blocks in the forward pass *)

Section Traces.
Context {rt : Runtime} {bl : Blocks}.

Lemma lift_Ok_inv {A} (r : res A) (a : A) (st st' : State) :
  lift r st = Ok (a, st') -> r = Ok a /\ st' = st.
Proof.
  unfold lift. destruct r; [|discriminate].
  intros H. injection H as -> ->. auto.
Qed.

Lemma enc_loop_iff (layers : list EncoderLayer) (sm : Tensor bool)
    (flag : bool) :
  forall x acc st o l st',
    enc_loop layers sm flag x acc st = Ok ((o, l), st') <->
    exists attns,
      enc_trace sm layers x st o attns st' /\
      l = acc ++ (if flag then attns else []).
Proof.
  induction layers as [|lay rest IH]; intros x acc st o l st'.
  - cbn [enc_loop]. split.
    + intros H. apply mret_Ok_inv in H as [E ->]. injection E as -> ->.
      exists []. split; [constructor|].
      destruct flag; rewrite app_nil_r; reflexivity.
    + intros (attns & Ht & ->). inversion Ht; subst.
      destruct flag; rewrite app_nil_r; reflexivity.
  - cbn [enc_loop]. split.
    + intros H. apply bind_Ok_inv in H as ([x1 a] & st1 & H1 & H).
      apply IH in H as (attns & Ht & ->). exists (a :: attns).
      split; [econstructor; eassumption|].
      destruct flag; rewrite <- app_assoc; reflexivity.
    + intros (attns & Ht & ->). inversion Ht as [|? ? ? ? x1 a st1 ? at1 ? H1 Hr];
        subst.
      rewrite (bind_Ok _ _ _ _ _ H1). cbn beta iota.
      apply IH. exists at1. split; [exact Hr|].
      destruct flag; rewrite <- app_assoc; reflexivity.
Qed.

Lemma dec_loop_iff (layers : list DecoderLayer) (tm : Tensor bool)
    (e : Tensor F) (sm : Tensor bool) (flag : bool) :
  forall x a b st o l1 l2 st',
    dec_loop layers tm e sm flag x a b st = Ok ((o, l1, l2), st') <->
    exists slf enc,
      dec_trace tm e sm layers x st o slf enc st' /\
      l1 = a ++ (if flag then slf else []) /\
      l2 = b ++ (if flag then enc else []).
Proof.
  induction layers as [|lay rest IH]; intros x a b st o l1 l2 st'.
  - cbn [dec_loop]. split.
    + intros H. apply mret_Ok_inv in H as [E ->]. injection E as -> -> ->.
      exists [], []. split; [constructor|].
      destruct flag; rewrite !app_nil_r; auto.
    + intros (slf & enc & Ht & -> & ->). inversion Ht; subst.
      destruct flag; rewrite !app_nil_r; reflexivity.
  - cbn [dec_loop]. split.
    + intros H. apply bind_Ok_inv in H as ([[x1 u] v] & st1 & H1 & H).
      apply IH in H as (slf & enc & Ht & -> & ->).
      exists (u :: slf), (v :: enc).
      split; [econstructor; eassumption|].
      destruct flag; rewrite <- !app_assoc; auto.
    + intros (slf & enc & Ht & -> & ->).
      inversion Ht as [|? ? ? ? x1 u v st1 ? s1 e1 ? H1 Hr]; subst.
      rewrite (bind_Ok _ _ _ _ _ H1). cbn beta iota.
      apply IH. exists s1, e1. split; [exact Hr|].
      destruct flag; rewrite <- !app_assoc; auto.
Qed.

(** [Encoder.forward] returns exactly when the embedding steps and then
    each block of the stack, called in order with [src_mask], return. *)
Lemma Encoder_forward_iff (e : Encoder) (src_seq : Tensor Z)
    (src_mask : Tensor bool) (flag : bool) (st : State)
    (o : Tensor F) (aux : option (list (Tensor F))) (st' : State) :
  Encoder_forward e src_seq src_mask flag st = Ok ((o, aux), st') <->
  exists x0 st0 attns,
    embed (src_word_emb e) (enc_scale_emb e) (enc_d_model e)
      (enc_position_enc e) (enc_dropout e) (enc_layer_norm e) src_seq st
      = Ok (x0, st0) /\
    enc_trace src_mask (enc_layer_stack e) x0 st0 o attns st' /\
    aux = (if flag then Some attns else None).
Proof.
  unfold Encoder_forward. split.
  - intros H. apply bind_Ok_inv in H as (x0 & st0 & H0 & H).
    apply bind_Ok_inv in H as ([o1 l1] & st1 & H1 & H).
    apply enc_loop_iff in H1 as (attns & Ht & ->). cbn [app] in H.
    exists x0, st0, attns. split; [exact H0|].
    destruct flag; apply mret_Ok_inv in H as [E ->]; injection E as -> ->;
      auto.
  - intros (x0 & st0 & attns & H0 & Ht & ->).
    rewrite (bind_Ok _ _ _ _ _ H0).
    assert (H1 : enc_loop (enc_layer_stack e) src_mask flag x0 [] st0
                 = Ok ((o, if flag then attns else []), st'))
      by (apply enc_loop_iff; exists attns; auto).
    rewrite (bind_Ok _ _ _ _ _ H1). destruct flag; reflexivity.
Qed.

(** [Decoder.forward] returns exactly when the embedding steps and then
    each block of the stack, called in order with [enc_output], [trg_mask]
    and [src_mask], return. *)
Lemma Decoder_forward_iff (d : Decoder) (trg_seq : Tensor Z)
    (trg_mask : Tensor bool) (enc_output : Tensor F) (src_mask : Tensor bool)
    (flag : bool) (st : State) (o : Tensor F)
    (aux : option (list (Tensor F) * list (Tensor F))) (st' : State) :
  Decoder_forward d trg_seq trg_mask enc_output src_mask flag st
    = Ok ((o, aux), st') <->
  exists x0 st0 slf enc,
    embed (trg_word_emb d) (dec_scale_emb d) (dec_d_model d)
      (dec_position_enc d) (dec_dropout d) (dec_layer_norm d) trg_seq st
      = Ok (x0, st0) /\
    dec_trace trg_mask enc_output src_mask (dec_layer_stack d)
      x0 st0 o slf enc st' /\
    aux = (if flag then Some (slf, enc) else None).
Proof.
  unfold Decoder_forward. split.
  - intros H. apply bind_Ok_inv in H as (x0 & st0 & H0 & H).
    apply bind_Ok_inv in H as ([[o1 l1] l2] & st1 & H1 & H).
    apply dec_loop_iff in H1 as (slf & enc & Ht & -> & ->). cbn [app] in H.
    exists x0, st0, slf, enc. split; [exact H0|].
    destruct flag; apply mret_Ok_inv in H as [E ->]; injection E as -> ->;
      auto.
  - intros (x0 & st0 & slf & enc & H0 & Ht & ->).
    rewrite (bind_Ok _ _ _ _ _ H0).
    assert (H1 : dec_loop (dec_layer_stack d) trg_mask enc_output src_mask
                   flag x0 [] [] st0
                 = Ok ((o, if flag then slf else [],
                           if flag then enc else []), st'))
      by (apply dec_loop_iff; exists slf, enc; auto).
    rewrite (bind_Ok _ _ _ _ _ H1). destruct flag; reflexivity.
Qed.

(** The steps of a [Transformer.forward] that returns logits. *)
Lemma Transformer_logits_iff (m : Transformer) (src_seq trg_seq : Tensor Z)
    (st : State) (logits : Tensor F) (st' : State) :
  Transformer_logits m src_seq trg_seq st = Ok (logits, st') <->
  exists sm tm enc_output eaux st1 dec_output daux st2,
    get_pad_mask src_seq (src_pad_idx m) = Ok sm /\
    target_mask trg_seq (trg_pad_idx m) = Ok tm /\
    Encoder_forward (encoder m) src_seq sm false st
      = Ok ((enc_output, eaux), st1) /\
    Decoder_forward (decoder m) trg_seq tm enc_output sm false st1
      = Ok ((dec_output, daux), st2) /\
    (seq_logit ← Linear_forward (trg_word_prj m) dec_output;
     if scale_prj m
     then c ← lift (py_pow (Z.of_nat (d_model m)) lit_neg_half);
          mret (imul seq_logit c)
     else mret seq_logit) st2 = Ok (logits, st').
Proof.
  unfold Transformer_logits. split.
  - intros H. apply bind_Ok_inv in H as (sm & s0 & H0 & H).
    apply lift_Ok_inv in H0 as [H0 ->].
    apply bind_Ok_inv in H as (tm & s1 & H1 & H).
    apply lift_Ok_inv in H1 as [H1 ->].
    apply bind_Ok_inv in H as ([eo ea] & s2 & H2 & H).
    apply bind_Ok_inv in H as ([dout da] & s3 & H3 & H).
    exists sm, tm, eo, ea, s2, dout, da, s3. auto.
  - intros (sm & tm & eo & ea & s2 & dout & da & s3 & H0 & H1 & H2 & H3 & H).
    rewrite (lift_Ok_bind _ _ _ _ H0), (lift_Ok_bind _ _ _ _ H1).
    rewrite (bind_Ok _ _ _ _ _ H2). cbn beta iota.
    rewrite (bind_Ok _ _ _ _ _ H3). exact H.
Qed.

(** C1. For every 2D integer tensor [seq] of shape (B, L) and every pad
    index, the mask [get_pad_mask(seq, pad_idx) & get_subsequent_mask(seq)]
    has shape (B, L, L) and its entry [b, i, j] is the conjunction of the
    padding-mask entry [b, 0, j] and the subsequent-mask entry [0, i, j]:
    true iff [seq[b, j] != pad_idx] and [j <= i].  On [[1,2,0]] with pad
    index 0 it is [[[1,0,0],[1,1,0],[1,1,0]]].  In [Transformer.forward]
    every decoder block is called with this mask as its self-attention
    mask: the pass returns logits exactly when the blocks of the decoder
    stack, called in order with this mask, the encoder output and the source
    mask, each on the output of the one before, return.  And it is the only
    self-attention mask they are called with: replacing the decoder block by
    any function that agrees with it on calls made with this mask leaves
    [Transformer.forward] unchanged. *)
Theorem target_mask_spec (seq : Tensor Z) (pad_idx : Z) (B L : nat) :
  shape seq = [B; L] -> wf seq ->
  (exists p s m,
     get_pad_mask seq pad_idx = Ok p /\
     get_subsequent_mask seq = Ok s /\
     target_mask seq pad_idx = Ok m /\
     shape m = [B; L; L] /\ wf m /\
     (forall b i j, b < B -> i < L -> j < L ->
        exists v, get seq [b; j] = Some v /\
          get p [b; 0; j] = Some (negb (v =? pad_idx)%Z) /\
          get s [0; i; j] = Some (j <=? i) /\
          get m [b; i; j] = Some (negb (v =? pad_idx)%Z && (j <=? i))) /\
     (forall (model : Transformer) (src_seq : Tensor Z) (st : State)
             (logits : Tensor F) (st' : State),
        trg_pad_idx model = pad_idx ->
        (Transformer_logits model src_seq seq st = Ok (logits, st') <->
         exists sm enc_output aux st1 x0 st0 dec_output slf enc st2,
           get_pad_mask src_seq (src_pad_idx model) = Ok sm /\
           Encoder_forward (encoder model) src_seq sm false st
             = Ok ((enc_output, aux), st1) /\
           embed (trg_word_emb (decoder model)) (dec_scale_emb (decoder model))
             (dec_d_model (decoder model)) (dec_position_enc (decoder model))
             (dec_dropout (decoder model)) (dec_layer_norm (decoder model))
             seq st1 = Ok (x0, st0) /\
           dec_trace m enc_output sm (dec_layer_stack (decoder model))
             x0 st0 dec_output slf enc st2 /\
           (seq_logit ← Linear_forward (trg_word_prj model) dec_output;
            if scale_prj model
            then c ← lift (py_pow (Z.of_nat (d_model model)) lit_neg_half);
                 mret (imul seq_logit c)
            else mret seq_logit) st2 = Ok (logits, st'))) /\
     (forall (model : Transformer) (src_seq : Tensor Z) (st : State) g,
        trg_pad_idx model = pad_idx ->
        (forall l x e sm w,
            g l x e m sm w = DecoderLayer_forward l x e m sm w) ->
        Transformer_forward (bl := with_decoder_layer bl g)
          model src_seq seq st
        = Transformer_forward model src_seq seq st)) /\
  target_mask (mkTensor [1; 3] [1; 2; 0]%Z) 0
  = Ok (mkTensor [1; 3; 3]
          [true; false; false; true; true; false; true; true; false]).
Proof.
  intros Hs Hwf. split; [|reflexivity].
  destruct (target_mask_entry seq pad_idx B L Hs Hwf)
    as (p & s & m & Hp & Hsub & Hm & Hshape & Hwfm & Hent).
  exists p, s, m. repeat (split; [assumption|]). split.
  - intros model src_seq st logits st' Hpad.
    rewrite Transformer_logits_iff. rewrite Hpad. split.
    + intros (sm & tm & eo & ea & s1 & dout & da & s2 & H0 & H1 & H2 & H3 & H).
      rewrite Hm in H1. injection H1 as <-.
      apply Decoder_forward_iff in H3 as (x0 & st0 & slf & enc & E0 & Ht & _).
      exists sm, eo, ea, s1, x0, st0, dout, slf, enc, s2. auto.
    + intros (sm & eo & ea & s1 & x0 & st0 & dout & slf & enc & s2
              & H0 & H2 & E0 & Ht & H).
      exists sm, m, eo, ea, s1, dout, None, s2.
      repeat (split; [assumption|]). split; [|exact H].
      apply Decoder_forward_iff. exists x0, st0, slf, enc. auto.
  - intros model src_seq st g Hpad Hg.
    apply (Transformer_forward_with_decoder_layer g m Hg).
    rewrite Hpad. exact Hm.
Qed.

(** X8. What the blocks are called with.  [Transformer.forward] returns
    logits exactly when the encoder blocks, called in order with the source
    padding mask, and then the decoder blocks, called in order with the
    encoder's final output, the combined target mask as self-attention mask
    and the source padding mask as cross-attention mask, all return; each
    block receives the output of the one before it.  No block is called
    with anything else: a block that agrees with the given one on these
    arguments gives the same [Transformer.forward]. *)
Theorem forward_block_arguments (m : Transformer) (src_seq trg_seq : Tensor Z)
    (st : State) (sm tm : Tensor bool) :
  get_pad_mask src_seq (src_pad_idx m) = Ok sm ->
  target_mask trg_seq (trg_pad_idx m) = Ok tm ->
  (forall logits st',
     Transformer_logits m src_seq trg_seq st = Ok (logits, st') <->
     exists x0 s0 enc_output attns s1 y0 s2 dec_output slf enc s3,
       embed (src_word_emb (encoder m)) (enc_scale_emb (encoder m))
         (enc_d_model (encoder m)) (enc_position_enc (encoder m))
         (enc_dropout (encoder m)) (enc_layer_norm (encoder m)) src_seq st
         = Ok (x0, s0) /\
       enc_trace sm (enc_layer_stack (encoder m)) x0 s0 enc_output attns s1 /\
       embed (trg_word_emb (decoder m)) (dec_scale_emb (decoder m))
         (dec_d_model (decoder m)) (dec_position_enc (decoder m))
         (dec_dropout (decoder m)) (dec_layer_norm (decoder m)) trg_seq s1
         = Ok (y0, s2) /\
       dec_trace tm enc_output sm (dec_layer_stack (decoder m))
         y0 s2 dec_output slf enc s3 /\
       (seq_logit ← Linear_forward (trg_word_prj m) dec_output;
        if scale_prj m
        then c ← lift (py_pow (Z.of_nat (d_model m)) lit_neg_half);
             mret (imul seq_logit c)
        else mret seq_logit) s3 = Ok (logits, st')) /\
  (forall ge,
     (forall l x w, ge l x sm w = EncoderLayer_forward l x sm w) ->
     Transformer_forward (bl := with_encoder_layer bl ge) m src_seq trg_seq st
     = Transformer_forward m src_seq trg_seq st) /\
  (forall gd,
     (forall enc_output aux st1,
        Encoder_forward (encoder m) src_seq sm false st
          = Ok ((enc_output, aux), st1) ->
        forall l x w,
          gd l x enc_output tm sm w
          = DecoderLayer_forward l x enc_output tm sm w) ->
     Transformer_forward (bl := with_decoder_layer bl gd) m src_seq trg_seq st
     = Transformer_forward m src_seq trg_seq st).
Proof.
  intros Hsm Htm. split; [|split].
  - intros logits st'. rewrite Transformer_logits_iff. split.
    + intros (sm' & tm' & eo & ea & s1 & dout & da & s3
              & H0 & H1 & H2 & H3 & H).
      rewrite Hsm in H0. injection H0 as <-.
      rewrite Htm in H1. injection H1 as <-.
      apply Encoder_forward_iff in H2 as (x0 & s0 & attns & E0 & Te & _).
      apply Decoder_forward_iff in H3 as (y0 & s2 & slf & enc & E1 & Td & _).
      exists x0, s0, eo, attns, s1, y0, s2, dout, slf, enc, s3. auto.
    + intros (x0 & s0 & eo & attns & s1 & y0 & s2 & dout & slf & enc & s3
              & E0 & Te & E1 & Td & H).
      exists sm, tm, eo, None, s1, dout, None, s3.
      split; [exact Hsm|]. split; [exact Htm|]. split; [|split; [|exact H]].
      * apply Encoder_forward_iff. exists x0, s0, attns. auto.
      * apply Decoder_forward_iff. exists y0, s2, slf, enc. auto.
  - intros ge Hge. unfold Transformer_forward. apply bind_ext_l.
    unfold Transformer_logits.
    rewrite !(lift_Ok_bind _ _ _ _ Hsm), !(lift_Ok_bind _ _ _ _ Htm).
    apply bind_ext_l. unfold Encoder_forward.
    change (embed (bl := with_encoder_layer bl ge)) with (embed (bl := bl)).
    apply bind_ext_r. intros x0 st0. apply bind_ext_l.
    apply enc_loop_with_encoder_layer, Hge.
  - intros gd Hgd. unfold Transformer_forward. apply bind_ext_l.
    unfold Transformer_logits.
    rewrite !(lift_Ok_bind _ _ _ _ Hsm), !(lift_Ok_bind _ _ _ _ Htm).
    change (Encoder_forward (bl := with_decoder_layer bl gd))
      with (Encoder_forward (bl := bl)).
    apply bind_ext_Ok. intros [enc_output aux] st1 Henc.
    apply bind_ext_l. unfold Decoder_forward.
    change (embed (bl := with_decoder_layer bl gd)) with (embed (bl := bl)).
    apply bind_ext_r. intros x0 st0. apply bind_ext_l.
    apply dec_loop_with_fixed_arguments. apply (Hgd enc_output aux st1 Henc).
Qed.

End Traces.

(** * The scaling mode *)

Section ScalingMode.
Context {rt : Runtime} {bl : Blocks}.

Lemma Encoder_forward_pipeline (e : Encoder) (src_seq : Tensor Z)
    (src_mask : Tensor bool) (flag : bool) (st : State) :
  Encoder_forward e src_seq src_mask flag st
  = (x ← Embedding_forward (src_word_emb e) src_seq;
     x ← (if enc_scale_emb e
          then k ← lift (py_pow (Z.of_nat (enc_d_model e)) lit_half);
               mret (imul x k)
          else mret x);
     x ← lift (PositionalEncoding_forward (enc_position_enc e) x);
     x ← ext (Dropout_forward (enc_dropout e) x);
     x ← ext (LayerNorm_forward (enc_layer_norm e) x);
     '(o, l) ← enc_loop (enc_layer_stack e) src_mask flag x [];
     if flag then mret (o, Some l) else mret (o, None)) st.
Proof.
  unfold Encoder_forward, embed.
  rewrite bind_assoc_run. apply bind_ext_r. intros x0 s0.
  rewrite bind_assoc_run. apply bind_ext_r. intros x1 s1.
  rewrite bind_assoc_run. apply bind_ext_r. intros x2 s2.
  rewrite bind_assoc_run. reflexivity.
Qed.

Lemma Decoder_forward_pipeline (d : Decoder) (trg_seq : Tensor Z)
    (trg_mask : Tensor bool) (enc_output : Tensor F) (src_mask : Tensor bool)
    (flag : bool) (st : State) :
  Decoder_forward d trg_seq trg_mask enc_output src_mask flag st
  = (x ← Embedding_forward (trg_word_emb d) trg_seq;
     x ← (if dec_scale_emb d
          then k ← lift (py_pow (Z.of_nat (dec_d_model d)) lit_half);
               mret (imul x k)
          else mret x);
     x ← lift (PositionalEncoding_forward (dec_position_enc d) x);
     x ← ext (Dropout_forward (dec_dropout d) x);
     x ← ext (LayerNorm_forward (dec_layer_norm d) x);
     '(o, l1, l2) ←
       dec_loop (dec_layer_stack d) trg_mask enc_output src_mask flag x [] [];
     if flag then mret (o, Some (l1, l2)) else mret (o, None)) st.
Proof.
  unfold Decoder_forward, embed.
  rewrite bind_assoc_run. apply bind_ext_r. intros x0 s0.
  rewrite bind_assoc_run. apply bind_ext_r. intros x1 s1.
  rewrite bind_assoc_run. apply bind_ext_r. intros x2 s2.
  rewrite bind_assoc_run. reflexivity.
Qed.

Lemma Transformer_new_fields (c : Config) (st st' : State) (m : Transformer) :
  Transformer_new c st = Ok (m, st') ->
  d_model m = c_d_model c /\
  enc_d_model (encoder m) = c_d_model c /\
  dec_d_model (decoder m) = c_d_model c /\
  enc_scale_emb (encoder m)
    = trg_emb_prj_weight_sharing c
      && String.eqb (scale_emb_or_prj c) "emb"%string /\
  dec_scale_emb (decoder m)
    = trg_emb_prj_weight_sharing c
      && String.eqb (scale_emb_or_prj c) "emb"%string /\
  scale_prj m
    = trg_emb_prj_weight_sharing c
      && String.eqb (scale_emb_or_prj c) "prj"%string.
Proof.
  unfold Transformer_new. intros H.
  repeat (let a := fresh "a" in let s := fresh "st" in
          let H1 := fresh "Hstep" in
          apply bind_Ok_inv in H as (a & s & H1 & H)).
  apply mret_Ok_inv in H as [-> _].
  apply Encoder_new_inv in Hstep0 as (Hse & Hde & _).
  apply Decoder_new_inv in Hstep1 as (Hsd & Hdd & _).
  cbn [d_model encoder decoder scale_prj].
  destruct (emb_src_trg_weight_sharing c);
    cbn [set_src_word_emb enc_d_model enc_scale_emb];
    rewrite Hse, Hsd, Hde, Hdd;
    destruct (trg_emb_prj_weight_sharing c); cbn [andb]; auto 10.
Qed.

(** C5. Without target-embedding/projection sharing the selector has no
    effect: the three legal values construct the same model, hence the same
    logits, and none of the scaling flags is set.  With sharing, ['emb'] sets
    the embedding flag of both Encoder and Decoder, ['prj'] sets the
    projection flag, ['none'] sets neither.  In the constructed model,
    [Encoder.forward] and [Decoder.forward] multiply the result of the
    lookup by [d_model ** 0.5], before the positions are added, exactly when
    sharing is on and the selector is ['emb'], and [Transformer.forward]
    multiplies the logits of the projection by [d_model ** -0.5] exactly
    when sharing is on and the selector is ['prj'], with [d_model] the one
    of the configuration.  Multiplying a tensor by a factor keeps its shape
    and multiplies each of its elements by that factor. *)
Theorem scaling_mode_spec (c : Config) (st : State) :
  (trg_emb_prj_weight_sharing c = false ->
   (forall s1 s2,
      str_in s1 ["emb"%string; "prj"%string; "none"%string] = true ->
      str_in s2 ["emb"%string; "prj"%string; "none"%string] = true ->
      Transformer_new (with_scale c s1) st
        = Transformer_new (with_scale c s2) st /\
      forall src_seq trg_seq,
        (m ← Transformer_new (with_scale c s1);
         Transformer_forward m src_seq trg_seq) st
        = (m ← Transformer_new (with_scale c s2);
           Transformer_forward m src_seq trg_seq) st) /\
   match Transformer_new c st with
   | Ok (m, _) =>
       enc_scale_emb (encoder m) = false /\
       dec_scale_emb (decoder m) = false /\ scale_prj m = false
   | Raise _ => True
   end) /\
  (trg_emb_prj_weight_sharing c = true ->
   match Transformer_new c st with
   | Ok (m, _) =>
       (scale_emb_or_prj c = "emb"%string ->
        enc_scale_emb (encoder m) = true /\
        dec_scale_emb (decoder m) = true /\ scale_prj m = false) /\
       (scale_emb_or_prj c = "prj"%string ->
        enc_scale_emb (encoder m) = false /\
        dec_scale_emb (decoder m) = false /\ scale_prj m = true) /\
       (scale_emb_or_prj c = "none"%string ->
        enc_scale_emb (encoder m) = false /\
        dec_scale_emb (decoder m) = false /\ scale_prj m = false)
   | Raise _ => True
   end) /\
  (forall emb d pe dr ln seq st1,
     embed emb true d pe dr ln seq st1
     = (x ← Embedding_forward emb seq;
        k ← lift (py_pow (Z.of_nat d) lit_half);
        x ← lift (PositionalEncoding_forward pe (imul x k));
        x ← ext (Dropout_forward dr x);
        ext (LayerNorm_forward ln x)) st1 /\
     embed emb false d pe dr ln seq st1
     = (x ← Embedding_forward emb seq;
        x ← lift (PositionalEncoding_forward pe x);
        x ← ext (Dropout_forward dr x);
        ext (LayerNorm_forward ln x)) st1) /\
  (forall m src_seq trg_seq st1,
     Transformer_logits m src_seq trg_seq st1
     = (x ← Transformer_logits (set_scale_prj m false) src_seq trg_seq;
        if scale_prj m
        then k ← lift (py_pow (Z.of_nat (d_model m)) lit_neg_half);
             mret (imul x k)
        else mret x) st1) /\
  match Transformer_new c st with
  | Ok (m, _) =>
      (forall src_seq src_mask flag st1,
         Encoder_forward (encoder m) src_seq src_mask flag st1
         = (x ← Embedding_forward (src_word_emb (encoder m)) src_seq;
            x ← (if trg_emb_prj_weight_sharing c
                    && String.eqb (scale_emb_or_prj c) "emb"%string
                 then k ← lift (py_pow (Z.of_nat (c_d_model c)) lit_half);
                      mret (imul x k)
                 else mret x);
            x ← lift (PositionalEncoding_forward
                        (enc_position_enc (encoder m)) x);
            x ← ext (Dropout_forward (enc_dropout (encoder m)) x);
            x ← ext (LayerNorm_forward (enc_layer_norm (encoder m)) x);
            '(o, l) ←
              enc_loop (enc_layer_stack (encoder m)) src_mask flag x [];
            if flag then mret (o, Some l) else mret (o, None)) st1) /\
      (forall trg_seq trg_mask enc_output src_mask flag st1,
         Decoder_forward (decoder m) trg_seq trg_mask enc_output src_mask
           flag st1
         = (x ← Embedding_forward (trg_word_emb (decoder m)) trg_seq;
            x ← (if trg_emb_prj_weight_sharing c
                    && String.eqb (scale_emb_or_prj c) "emb"%string
                 then k ← lift (py_pow (Z.of_nat (c_d_model c)) lit_half);
                      mret (imul x k)
                 else mret x);
            x ← lift (PositionalEncoding_forward
                        (dec_position_enc (decoder m)) x);
            x ← ext (Dropout_forward (dec_dropout (decoder m)) x);
            x ← ext (LayerNorm_forward (dec_layer_norm (decoder m)) x);
            '(o, l1, l2) ←
              dec_loop (dec_layer_stack (decoder m)) trg_mask enc_output
                src_mask flag x [] [];
            if flag then mret (o, Some (l1, l2)) else mret (o, None)) st1) /\
      (forall src_seq trg_seq st1,
         Transformer_logits m src_seq trg_seq st1
         = (src_mask ← lift (get_pad_mask src_seq (src_pad_idx m));
            trg_mask ← lift (target_mask trg_seq (trg_pad_idx m));
            '(enc_output, _) ←
              Encoder_forward (encoder m) src_seq src_mask false;
            '(dec_output, _) ←
              Decoder_forward (decoder m) trg_seq trg_mask enc_output
                src_mask false;
            seq_logit ← Linear_forward (trg_word_prj m) dec_output;
            if trg_emb_prj_weight_sharing c
               && String.eqb (scale_emb_or_prj c) "prj"%string
            then k ← lift (py_pow (Z.of_nat (c_d_model c)) lit_neg_half);
                 mret (imul seq_logit k)
            else mret seq_logit) st1)
  | Raise _ => True
  end /\
  (forall (x : Tensor F) (k : F64),
     shape (imul x k) = shape x /\
     forall idx, get (imul x k) idx
                 = option_map (fun v => fmul_py v k) (get x idx)).
Proof.
  split; [|split; [|split; [|split; [|split]]]].
  - intros Hs. split.
    + intros s1 s2 H1 H2.
      pose proof (Transformer_new_unshared c s1 s2 st Hs H1 H2) as E.
      split; [exact E|]. intros src_seq trg_seq.
      apply bind_ext_l, E.
    + destruct (Transformer_new c st) as [[m st']|e] eqn:E; [|exact I].
      destruct (Transformer_new_fields c st st' m E)
        as (_ & _ & _ & -> & -> & ->).
      rewrite Hs. auto.
  - intros Hs.
    destruct (Transformer_new c st) as [[m st']|e] eqn:E; [|exact I].
    destruct (Transformer_new_fields c st st' m E)
      as (_ & _ & _ & -> & -> & ->).
    rewrite Hs. cbn [andb].
    split; [|split]; intros Hsel; rewrite Hsel; cbn; auto.
  - intros emb d pe dr ln seq st1. split.
    + unfold embed. apply bind_ext_r. intros x st2.
      rewrite bind_assoc_run. reflexivity.
    + reflexivity.
  - intros m src_seq trg_seq st1. apply Transformer_logits_scale.
  - destruct (Transformer_new c st) as [[m st']|e] eqn:E; [|exact I].
    destruct (Transformer_new_fields c st st' m E)
      as (Hd & Hde & Hdd & Hse & Hsd & Hsp).
    split; [|split].
    + intros src_seq src_mask flag st1.
      rewrite Encoder_forward_pipeline, Hse, Hde. reflexivity.
    + intros trg_seq trg_mask enc_output src_mask flag st1.
      rewrite Decoder_forward_pipeline, Hsd, Hdd. reflexivity.
    + intros src_seq trg_seq st1. unfold Transformer_logits.
      rewrite Hsp, Hd. reflexivity.
  - intros x k. split; [reflexivity|].
    intros idx. apply get_tmap.
Qed.

End ScalingMode.

(** * Shapes through the forward pass *)

Section Shapes.
Context {rt : Runtime} {bl : Blocks}.

Lemma forallb_in_range (ids : Tensor Z) (V : nat) :
  ids_in_range ids V ->
  forallb (fun i => (0 <=? i)%Z && (i <? Z.of_nat V)%Z) (data ids) = true.
Proof.
  intros Hr. apply forallb_forall. intros i Hin.
  unfold ids_in_range in Hr. rewrite Forall_forall in Hr.
  specialize (Hr i Hin). apply andb_true_iff.
  split; [apply Z.leb_le|apply Z.ltb_lt]; lia.
Qed.

Lemma forallb_out_of_range (ids : Tensor Z) (V : nat) :
  ~ ids_in_range ids V ->
  forallb (fun i => (0 <=? i)%Z && (i <? Z.of_nat V)%Z) (data ids) = false.
Proof.
  intros Hr.
  destruct (forallb _ (data ids)) eqn:E; [|reflexivity].
  exfalso. apply Hr. unfold ids_in_range. apply Forall_forall. intros i Hin.
  rewrite forallb_forall in E. specialize (E i Hin).
  apply andb_true_iff in E as [E1 E2].
  apply Z.leb_le in E1. apply Z.ltb_lt in E2. lia.
Qed.

Lemma length_row {A} (d i V : nat) (l : list A) :
  length l = V * d -> i < V -> length (row d i l) = d.
Proof.
  intros Hl Hi. unfold row. rewrite length_firstn, length_skipn.
  apply Nat.min_l. nia.
Qed.

Lemma check_padding_idx_rows (W : Tensor F) (p : Z) (V : nat)
    (rest : list nat) :
  shape W = V :: rest ->
  check_padding_idx W p
  = if pad_accepted p V then Ok tt else Raise AssertionError.
Proof.
  intros HW. unfold check_padding_idx, pad_accepted, size_at.
  rewrite HW. cbn [nth_error mbind res_bind].
  destruct (0 <? p)%Z; [reflexivity|]. destruct (p <? 0)%Z; reflexivity.
Qed.

Lemma F_embedding_ok (W : Tensor F) (ids : Tensor Z) (p : Z)
    (V d B L : nat) :
  shape W = [V; d] -> pad_accepted p V = true ->
  shape ids = [B; L] -> ids_in_range ids V ->
  exists x, F_embedding W ids p = Ok x /\ shape x = [B; L; d] /\
    (wf W -> wf ids -> wf x).
Proof.
  intros HW Hp Hi Hr. unfold F_embedding.
  rewrite (check_padding_idx_rows W p V [d] HW), Hp. cbn [mbind res_bind].
  rewrite HW, (forallb_in_range _ _ Hr).
  eexists. split; [reflexivity|].
  split; [cbn [shape]; rewrite Hi; reflexivity|].
  intros HwW Hwi. unfold wf in *. cbn [shape data].
  rewrite HW in HwW. rewrite Hi in Hwi |- *. cbn [numel app] in *.
  rewrite (flat_map_uniform_length _ d).
  - rewrite Hwi. lia.
  - intros i Hin. apply (length_row d _ V); [lia|].
    unfold ids_in_range in Hr. rewrite Forall_forall in Hr.
    specialize (Hr i Hin). lia.
Qed.

Lemma Embedding_forward_ok (emb : Embedding) (ids : Tensor Z)
    (V d B L : nat) (st : State) :
  has_shape st (weight emb) [V; d] ->
  pad_accepted (padding_idx emb) V = true ->
  shape ids = [B; L] -> ids_in_range ids V ->
  exists x, Embedding_forward emb ids st = Ok (x, st) /\
    shape x = [B; L; d] /\
    (table_wf st (weight emb) -> wf ids -> wf x).
Proof.
  intros (W & HW & HsW) Hp Hi Hr. unfold Embedding_forward, read.
  rewrite bind_run, HW.
  destruct (F_embedding_ok W ids (padding_idx emb) V d B L HsW Hp Hi Hr)
    as (x0 & -> & Hx0 & Hwf).
  exists x0. split; [reflexivity|]. split; [exact Hx0|].
  intros Ht. apply Hwf, Ht, HW.
Qed.

Lemma Embedding_forward_pad_rejected (emb : Embedding) (ids : Tensor Z)
    (V d : nat) (st : State) :
  has_shape st (weight emb) [V; d] ->
  pad_accepted (padding_idx emb) V = false ->
  Embedding_forward emb ids st = Raise AssertionError.
Proof.
  intros (W & HW & HsW) Hp. unfold Embedding_forward, read, F_embedding.
  rewrite bind_run, HW, (check_padding_idx_rows W _ V [d] HsW), Hp.
  reflexivity.
Qed.

Lemma Embedding_forward_out_of_range (emb : Embedding) (ids : Tensor Z)
    (V d : nat) (st : State) :
  has_shape st (weight emb) [V; d] ->
  pad_accepted (padding_idx emb) V = true ->
  ~ ids_in_range ids V ->
  Embedding_forward emb ids st = Raise IndexError.
Proof.
  intros (W & HW & HsW) Hp Hr. unfold Embedding_forward, read, F_embedding.
  rewrite bind_run, HW, (check_padding_idx_rows W _ V [d] HsW), Hp.
  cbn [mbind res_bind]. rewrite HsW, (forallb_out_of_range _ _ Hr).
  reflexivity.
Qed.

Lemma Embedding_forward_is_ok (e : Embedding) (ids : Tensor Z) (st : State)
    (V d : nat) :
  has_shape st (weight e) [V; d] ->
  is_ok (Embedding_forward e ids st)
  = pad_accepted (padding_idx e) V
    && forallb (fun i => (0 <=? i)%Z && (i <? Z.of_nat V)%Z) (data ids).
Proof.
  intros (W & HW & Hs). unfold Embedding_forward, read, F_embedding.
  rewrite bind_run, HW, (check_padding_idx_rows W _ V [d] Hs).
  destruct (pad_accepted (padding_idx e) V); [|reflexivity].
  cbn [mbind res_bind]. rewrite Hs.
  destruct (forallb _ (data ids)); reflexivity.
Qed.

Lemma scale_step_ok (sc : bool) (dm : nat) (e : F64) (x : Tensor F)
    (st : State) :
  (sc = true -> exists k, py_pow (Z.of_nat dm) e = Ok k) ->
  exists y,
    (if sc then k ← lift (py_pow (Z.of_nat dm) e); mret (imul x k)
     else mret x) st = Ok (y, st) /\
    shape y = shape x /\ (wf x -> wf y).
Proof.
  intros Hpow. destruct sc.
  - destruct (Hpow eq_refl) as (k & Hk).
    rewrite (lift_Ok_bind _ _ _ _ Hk). eexists. split; [reflexivity|].
    split; [reflexivity|]. unfold wf, imul, tmap. cbn [shape data].
    rewrite length_map. auto.
  - exists x. split; [reflexivity|]. auto.
Qed.

Lemma PositionalEncoding_forward_ok (pe : PositionalEncoding)
    (x : Tensor F) (B L d P : nat) :
  shape x = [B; L; d] -> shape (pos_table pe) = [1; P; d] -> L <= P ->
  exists y, PositionalEncoding_forward pe x = Ok y /\
    shape y = [B; L; d] /\ wf y.
Proof.
  intros Hx Ht HL.
  rewrite (PositionalEncoding_forward_unfold pe x B L d P Hx Ht).
  unfold broadcast2. cbn [shape tabulate]. rewrite Hx, Nat.min_l by exact HL.
  rewrite broadcast_shapes_table. cbn [mbind res_bind].
  eexists. split; [reflexivity|]. split; [reflexivity|]. apply wf_tabulate.
Qed.

Lemma PositionalEncoding_forward_too_long (pe : PositionalEncoding)
    (x : Tensor F) (B L d P : nat) :
  shape x = [B; L; d] -> shape (pos_table pe) = [1; P; d] ->
  P < L -> 2 <= P ->
  PositionalEncoding_forward pe x = Raise RuntimeError.
Proof.
  intros Hx Ht HL HP.
  rewrite (PositionalEncoding_forward_unfold pe x B L d P Hx Ht).
  unfold broadcast2. cbn [shape tabulate].
  rewrite Hx, Nat.min_r by lia.
  rewrite broadcast_shapes_mismatch by assumption. reflexivity.
Qed.

Lemma F_linear_shape (x W : Tensor F) (V d B L : nat) :
  shape W = [V; d] -> shape x = [B; L; d] ->
  exists y, F_linear x W = Ok y /\ shape y = [B; L; V] /\ wf y.
Proof.
  intros HW Hx. unfold F_linear. rewrite HW, Hx. cbn [rev app].
  rewrite Nat.eqb_refl. eexists. split; [reflexivity|].
  split; [reflexivity|].
  unfold wf. cbn [shape data].
  rewrite (flat_map_uniform_length _ V).
  - rewrite length_chunks. cbn [numel]. lia.
  - intros r _. rewrite length_map. apply length_chunks.
Qed.

Lemma Linear_forward_total (p : Linear) (x : Tensor F) (V d B L : nat)
    (st : State) :
  has_shape st (lin_weight p) [V; d] -> shape x = [B; L; d] ->
  exists y, Linear_forward p x st = Ok (y, st) /\
    shape y = [B; L; V] /\ wf y.
Proof.
  intros (W & HW & HsW) Hx. unfold Linear_forward, read.
  rewrite bind_run, HW.
  destruct (F_linear_shape x W V d B L HsW Hx) as (y & -> & Hy & Hwf).
  exists y. split; [reflexivity|]. auto.
Qed.

(** The embedding steps up to the position table: what does not involve a
    collaborator. *)
Lemma embed_lookup_ok (emb : Embedding) (sc : bool) (dm : nat)
    (ids : Tensor Z) (V d B L : nat) (st : State) :
  has_shape st (weight emb) [V; d] ->
  pad_accepted (padding_idx emb) V = true ->
  shape ids = [B; L] -> ids_in_range ids V ->
  (sc = true -> exists k, py_pow (Z.of_nat dm) lit_half = Ok k) ->
  exists x,
    (x ← Embedding_forward emb ids;
     if sc then k ← lift (py_pow (Z.of_nat dm) lit_half); mret (imul x k)
     else mret x) st = Ok (x, st) /\
    shape x = [B; L; d] /\
    (table_wf st (weight emb) -> wf ids -> wf x).
Proof.
  intros HW Hp Hi Hr Hpow.
  destruct (Embedding_forward_ok emb ids V d B L st HW Hp Hi Hr)
    as (x0 & E0 & Hx0 & Hw0).
  rewrite (bind_Ok _ _ _ _ _ E0).
  destruct (scale_step_ok sc dm lit_half x0 st Hpow) as (x1 & E1 & Hx1 & Hw1).
  exists x1. split; [exact E1|]. split; [congruence|auto].
Qed.

Lemma embed_unfold (emb : Embedding) (sc : bool) (dm : nat)
    (pe : PositionalEncoding) (dr : Dropout) (ln : LayerNorm)
    (ids : Tensor Z) (st : State) :
  embed emb sc dm pe dr ln ids st
  = (x ← (x ← Embedding_forward emb ids;
          if sc then k ← lift (py_pow (Z.of_nat dm) lit_half); mret (imul x k)
          else mret x);
     x ← lift (PositionalEncoding_forward pe x);
     x ← ext (Dropout_forward dr x);
     ext (LayerNorm_forward ln x)) st.
Proof.
  unfold embed. rewrite bind_assoc_run. reflexivity.
Qed.

Lemma embed_ok (emb : Embedding) (sc : bool) (dm : nat)
    (pe : PositionalEncoding) (dr : Dropout) (ln : LayerNorm)
    (ids : Tensor Z) (V d B L P : nat) (st : State) :
  has_shape st (weight emb) [V; d] -> table_wf st (weight emb) ->
  pad_accepted (padding_idx emb) V = true ->
  shape ids = [B; L] -> wf ids -> ids_in_range ids V ->
  shape (pos_table pe) = [1; P; d] -> L <= P ->
  (sc = true -> exists k, py_pow (Z.of_nat dm) lit_half = Ok k) ->
  (forall x w, shape x = [B; L; d] -> wf x ->
     exists y w', Dropout_forward dr x w = Ok (y, w') /\
       shape y = [B; L; d] /\ wf y) ->
  (forall x w, shape x = [B; L; d] -> wf x ->
     exists y w', LayerNorm_forward ln x w = Ok (y, w') /\
       shape y = [B; L; d] /\ wf y) ->
  exists x st', embed emb sc dm pe dr ln ids st = Ok (x, st') /\
    shape x = [B; L; d] /\ wf x /\ heap st' = heap st.
Proof.
  intros HW Htw Hp Hi Hwi Hr Ht HL Hpow Hdr Hln. rewrite embed_unfold.
  destruct (embed_lookup_ok emb sc dm ids V d B L st HW Hp Hi Hr Hpow)
    as (x1 & E1 & Hx1 & Hw1).
  rewrite (bind_Ok _ _ _ _ _ E1).
  destruct (PositionalEncoding_forward_ok pe x1 B L d P Hx1 Ht HL)
    as (x2 & E2 & Hx2 & Hw2).
  rewrite (lift_Ok_bind _ _ _ _ E2).
  rewrite bind_run. unfold ext at 1.
  destruct (Hdr x2 (world st) Hx2 Hw2) as (x3 & w3 & -> & Hx3 & Hw3).
  unfold ext.
  destruct (Hln x3 w3 Hx3 Hw3) as (x4 & w4 & E4 & Hx4 & Hw4).
  cbn [world heap]. rewrite E4.
  eexists _, _. split; [reflexivity|]. auto.
Qed.

Lemma embed_too_long (emb : Embedding) (sc : bool) (dm : nat)
    (pe : PositionalEncoding) (dr : Dropout) (ln : LayerNorm)
    (ids : Tensor Z) (V d B L P : nat) (st : State) :
  has_shape st (weight emb) [V; d] ->
  pad_accepted (padding_idx emb) V = true ->
  shape ids = [B; L] -> ids_in_range ids V ->
  shape (pos_table pe) = [1; P; d] -> P < L -> 2 <= P ->
  (sc = true -> exists k, py_pow (Z.of_nat dm) lit_half = Ok k) ->
  embed emb sc dm pe dr ln ids st = Raise RuntimeError.
Proof.
  intros HW Hp Hi Hr Ht HL HP Hpow. rewrite embed_unfold.
  destruct (embed_lookup_ok emb sc dm ids V d B L st HW Hp Hi Hr Hpow)
    as (x1 & E1 & Hx1 & _).
  rewrite (bind_Ok _ _ _ _ _ E1).
  apply lift_Raise_bind.
  apply (PositionalEncoding_forward_too_long pe x1 B L d P); assumption.
Qed.

Lemma enc_loop_ok (layers : list EncoderLayer) (mask : Tensor bool)
    (flag : bool) (d B L : nat) :
  (forall l x w, In l layers -> shape x = [B; L; d] -> wf x ->
     exists y a w', EncoderLayer_forward l x mask w = Ok ((y, a), w') /\
       shape y = [B; L; d] /\ wf y) ->
  forall x acc st, shape x = [B; L; d] -> wf x ->
    exists y l st', enc_loop layers mask flag x acc st = Ok ((y, l), st') /\
      shape y = [B; L; d] /\ wf y /\ heap st' = heap st.
Proof.
  induction layers as [|lay rest IH]; intros Hl x acc st Hx Hw.
  - eexists _, _, _. split; [reflexivity|]. auto.
  - cbn [enc_loop]. rewrite bind_run. unfold ext at 1.
    destruct (Hl lay x (world st) (or_introl eq_refl) Hx Hw)
      as (y & a & w & -> & Hy & Hwy).
    destruct (IH (fun l x w Hin => Hl l x w (or_intror Hin))
                y (acc ++ (if flag then [a] else []))
                (mkState (heap st) w) Hy Hwy)
      as (z & l & st' & E & Hz & Hwz & Hh).
    exists z, l, st'. split; [exact E|]. auto.
Qed.

Lemma dec_loop_ok (layers : list DecoderLayer) (tm : Tensor bool)
    (e : Tensor F) (sm : Tensor bool) (flag : bool) (d B Lt : nat) :
  (forall l x w, In l layers -> shape x = [B; Lt; d] -> wf x ->
     exists y a c w',
       DecoderLayer_forward l x e tm sm w = Ok ((y, a, c), w') /\
       shape y = [B; Lt; d] /\ wf y) ->
  forall x a b st, shape x = [B; Lt; d] -> wf x ->
    exists y l1 l2 st',
      dec_loop layers tm e sm flag x a b st = Ok ((y, l1, l2), st') /\
      shape y = [B; Lt; d] /\ wf y /\ heap st' = heap st.
Proof.
  induction layers as [|lay rest IH]; intros Hl x a b st Hx Hw.
  - eexists _, _, _, _. split; [reflexivity|]. auto.
  - cbn [dec_loop]. rewrite bind_run. unfold ext at 1.
    destruct (Hl lay x (world st) (or_introl eq_refl) Hx Hw)
      as (y & u & v & w & -> & Hy & Hwy).
    destruct (IH (fun l x w Hin => Hl l x w (or_intror Hin))
                y (a ++ (if flag then [u] else []))
                (b ++ (if flag then [v] else []))
                (mkState (heap st) w) Hy Hwy)
      as (z & l1 & l2 & st' & E & Hz & Hwz & Hh).
    exists z, l1, l2, st'. split; [exact E|]. auto.
Qed.

Lemma Encoder_forward_ok (e : Encoder) (src_seq : Tensor Z)
    (src_mask : Tensor bool) (V d B L P : nat) (st : State) :
  has_shape st (weight (src_word_emb e)) [V; d] ->
  table_wf st (weight (src_word_emb e)) ->
  pad_accepted (padding_idx (src_word_emb e)) V = true ->
  shape (pos_table (enc_position_enc e)) = [1; P; d] ->
  (enc_scale_emb e = true ->
   exists k, py_pow (Z.of_nat (enc_d_model e)) lit_half = Ok k) ->
  Encoder_accepts e d B L ->
  shape src_seq = [B; L] -> wf src_seq -> ids_in_range src_seq V -> L <= P ->
  shape src_mask = [B; 1; L] -> wf src_mask ->
  exists y st',
    Encoder_forward e src_seq src_mask false st = Ok ((y, None), st') /\
    shape y = [B; L; d] /\ wf y /\ heap st' = heap st.
Proof.
  intros HW Htw Hp Ht Hpow [Hdr Hln Hlay] Hi Hwi Hr HL Hm Hwm.
  unfold Encoder_forward.
  destruct (embed_ok (src_word_emb e) (enc_scale_emb e) (enc_d_model e)
              (enc_position_enc e) (enc_dropout e) (enc_layer_norm e)
              src_seq V d B L P st HW Htw Hp Hi Hwi Hr Ht HL Hpow Hdr Hln)
    as (x & st0 & E0 & Hx & Hwx & H0).
  rewrite (bind_Ok _ _ _ _ _ E0).
  destruct (enc_loop_ok (enc_layer_stack e) src_mask false d B L
              (fun l x w Hin Hx Hw => Hlay l x src_mask w Hin Hx Hw Hm Hwm)
              x [] st0 Hx Hwx) as (y & l & st1 & E1 & Hy & Hwy & H1).
  rewrite (bind_Ok _ _ _ _ _ E1).
  exists y, st1. split; [reflexivity|]. split; [exact Hy|].
  split; [exact Hwy|congruence].
Qed.

Lemma Decoder_forward_ok (dec : Decoder) (trg_seq : Tensor Z)
    (trg_mask : Tensor bool) (enc_output : Tensor F) (src_mask : Tensor bool)
    (V d B Lt Ls P : nat) (st : State) :
  has_shape st (weight (trg_word_emb dec)) [V; d] ->
  table_wf st (weight (trg_word_emb dec)) ->
  pad_accepted (padding_idx (trg_word_emb dec)) V = true ->
  shape (pos_table (dec_position_enc dec)) = [1; P; d] ->
  (dec_scale_emb dec = true ->
   exists k, py_pow (Z.of_nat (dec_d_model dec)) lit_half = Ok k) ->
  Decoder_accepts dec d B Lt Ls ->
  shape trg_seq = [B; Lt] -> wf trg_seq -> ids_in_range trg_seq V ->
  Lt <= P ->
  shape trg_mask = [B; Lt; Lt] -> wf trg_mask ->
  shape enc_output = [B; Ls; d] -> wf enc_output ->
  shape src_mask = [B; 1; Ls] -> wf src_mask ->
  exists y st',
    Decoder_forward dec trg_seq trg_mask enc_output src_mask false st
      = Ok ((y, None), st') /\
    shape y = [B; Lt; d] /\ wf y /\ heap st' = heap st.
Proof.
  intros HW Htw Hp Ht Hpow [Hdr Hln Hlay] Hi Hwi Hr HL Htm Hwtm He Hwe
    Hsm Hwsm.
  unfold Decoder_forward.
  destruct (embed_ok (trg_word_emb dec) (dec_scale_emb dec) (dec_d_model dec)
              (dec_position_enc dec) (dec_dropout dec) (dec_layer_norm dec)
              trg_seq V d B Lt P st HW Htw Hp Hi Hwi Hr Ht HL Hpow Hdr Hln)
    as (x & st0 & E0 & Hx & Hwx & H0).
  rewrite (bind_Ok _ _ _ _ _ E0).
  destruct (dec_loop_ok (dec_layer_stack dec) trg_mask enc_output src_mask
              false d B Lt
              (fun l x w Hin Hx Hw =>
                 Hlay l x enc_output trg_mask src_mask w Hin Hx Hw He Hwe
                   Htm Hwtm Hsm Hwsm)
              x [] [] st0 Hx Hwx)
    as (y & l1 & l2 & st1 & E1 & Hy & Hwy & H1).
  rewrite (bind_Ok _ _ _ _ _ E1).
  exists y, st1. split; [reflexivity|]. split; [exact Hy|].
  split; [exact Hwy|congruence].
Qed.

Lemma table_wf_heap (st st' : State) (l : loc) :
  heap st' = heap st -> table_wf st l -> table_wf st' l.
Proof. intros E H t Ht. apply H. rewrite <- E. exact Ht. Qed.

(** The source mask, and the encoder run on a valid source. *)
Lemma forward_encoder_ok (m : Transformer) (st : State)
    (src_seq : Tensor Z) (d Vs P B Ls : nat) :
  has_shape st (weight (src_word_emb (encoder m))) [Vs; d] ->
  table_wf st (weight (src_word_emb (encoder m))) ->
  pad_accepted (padding_idx (src_word_emb (encoder m))) Vs = true ->
  shape (pos_table (enc_position_enc (encoder m))) = [1; P; d] ->
  (enc_scale_emb (encoder m) = true ->
   exists k, py_pow (Z.of_nat (enc_d_model (encoder m))) lit_half = Ok k) ->
  Encoder_accepts (encoder m) d B Ls ->
  shape src_seq = [B; Ls] -> wf src_seq -> ids_in_range src_seq Vs ->
  Ls <= P ->
  exists src_mask enc_output st1,
    get_pad_mask src_seq (src_pad_idx m) = Ok src_mask /\
    shape src_mask = [B; 1; Ls] /\ wf src_mask /\
    Encoder_forward (encoder m) src_seq src_mask false st
      = Ok ((enc_output, None), st1) /\
    shape enc_output = [B; Ls; d] /\ wf enc_output /\ heap st1 = heap st.
Proof.
  intros Hsrc Hws Hps Het Hpow Hacc Hs Hws' Hsr HLs.
  pose proof (get_pad_mask_ok src_seq (src_pad_idx m) B Ls Hs) as Epad.
  pose proof (get_pad_mask_wf src_seq (src_pad_idx m) B Ls Hs Hws') as Hwm.
  set (src_mask := mkTensor [B; 1; Ls]
         (map (fun x => negb (x =? src_pad_idx m)%Z) (data src_seq))) in *.
  destruct (Encoder_forward_ok (encoder m) src_seq src_mask Vs d B Ls P st
              Hsrc Hws Hps Het Hpow Hacc Hs Hws' Hsr HLs eq_refl Hwm)
    as (enc_output & st1 & Eenc & Henc & Hwe & H1).
  exists src_mask, enc_output, st1. split; [exact Epad|].
  split; [reflexivity|]. split; [exact Hwm|]. auto.
Qed.

(** C8. On a model whose three weights have the shapes of dimension [d],
    whose embedding tables pass the lookup's padding check, and whose own
    dropout, layer norm and blocks keep the shape of the tensors of this
    call, for source ids of shape (B, Ls) and target ids of shape (B, Lt)
    within the tables and the position table: the encoder output has shape
    (B, Ls, d), the decoder output has shape (B, Lt, d), and
    [Transformer.forward] returns the (B, Lt, Vt) logits as a tensor of shape
    (B*Lt, Vt) whose row [b*Lt + t] is the logit row of batch [b] at
    position [t].  Of the float power only the two that the set flags use
    are asked to be defined. *)
Theorem forward_shape_spec (m : Transformer) (st : State)
    (src_seq trg_seq : Tensor Z) (d Vs Vt P B Ls Lt : nat) :
  model_ok m st d Vs Vt P ->
  lookups_ok m st Vs Vt ->
  Encoder_accepts (encoder m) d B Ls ->
  Decoder_accepts (decoder m) d B Lt Ls ->
  (enc_scale_emb (encoder m) = true \/ dec_scale_emb (decoder m) = true ->
   exists k, py_pow (Z.of_nat d) lit_half = Ok k) ->
  (scale_prj m = true -> exists k, py_pow (Z.of_nat d) lit_neg_half = Ok k) ->
  shape src_seq = [B; Ls] -> wf src_seq -> ids_in_range src_seq Vs ->
  Ls <= P ->
  shape trg_seq = [B; Lt] -> wf trg_seq -> ids_in_range trg_seq Vt ->
  Lt <= P ->
  0 < Vt ->
  exists src_mask trg_mask enc_output dec_output seq_logit out st1 st2,
    get_pad_mask src_seq (src_pad_idx m) = Ok src_mask /\
    target_mask trg_seq (trg_pad_idx m) = Ok trg_mask /\
    Encoder_forward (encoder m) src_seq src_mask false st
      = Ok ((enc_output, None), st1) /\
    shape enc_output = [B; Ls; d] /\
    Decoder_forward (decoder m) trg_seq trg_mask enc_output src_mask false st1
      = Ok ((dec_output, None), st2) /\
    shape dec_output = [B; Lt; d] /\
    Transformer_logits m src_seq trg_seq st = Ok (seq_logit, st2) /\
    shape seq_logit = [B; Lt; Vt] /\ wf seq_logit /\
    Transformer_forward m src_seq trg_seq st = Ok (out, st2) /\
    shape out = [B * Lt; Vt] /\ wf out /\
    forall b t v, b < B -> t < Lt -> v < Vt ->
      exists x, get seq_logit [b; t; v] = Some x /\
                get out [b * Lt + t; v] = Some x.
Proof.
  intros Hok Hlk Hea Hda Hpe Hpp Hs Hws Hsr HLs Ht Hwt Htr HLt HV.
  destruct Hok as [Hsrc Htrg Hprj Het Hdt Hed Hdd Hdm].
  destruct Hlk as [Htws Htwt Hps Hpt].
  assert (Hpenc : enc_scale_emb (encoder m) = true ->
                  exists k, py_pow (Z.of_nat (enc_d_model (encoder m)))
                              lit_half = Ok k)
    by (rewrite Hed; intros H; apply Hpe; auto).
  destruct (forward_encoder_ok m st src_seq d Vs P B Ls
              Hsrc Htws Hps Het Hpenc Hea Hs Hws Hsr HLs)
    as (src_mask & enc_output & st1 & Epad & Hsm & Hwsm & Eenc & Henc & Hwe
        & H1).
  destruct (target_mask_entry trg_seq (trg_pad_idx m) B Lt Ht Hwt)
    as (p0 & s0 & trg_mask & _ & _ & Etm & Htm & Hwtm & _).
  assert (Hpd : dec_scale_emb (decoder m) = true ->
                exists k, py_pow (Z.of_nat (dec_d_model (decoder m))) lit_half
                          = Ok k)
    by (rewrite Hdd; intros H; apply Hpe; auto).
  destruct (Decoder_forward_ok (decoder m) trg_seq trg_mask enc_output
              src_mask Vt d B Lt Ls P st1
              (extends_heap st st1 H1 _ _ Htrg)
              (table_wf_heap st st1 _ H1 Htwt) Hpt Hdt Hpd Hda Ht Hwt Htr HLt
              Htm Hwtm Henc Hwe Hsm Hwsm)
    as (dec_output & st2 & Edec & Hdec & Hwd & H2).
  assert (Hprj2 : has_shape st2 (lin_weight (trg_word_prj m)) [Vt; d]).
  { apply (extends_heap st1 st2 H2), (extends_heap st st1 H1), Hprj. }
  destruct (Linear_forward_total (trg_word_prj m) dec_output Vt d B Lt st2
              Hprj2 Hdec) as (y & Ey & Hy & Hwy).
  rewrite <- Hdm in Hpp.
  destruct (scale_step_ok (scale_prj m) (d_model m) lit_neg_half y st2 Hpp)
    as (seq_logit & Esc & Hlog & Hwl).
  rewrite Hy in Hlog. specialize (Hwl Hwy).
  assert (Elog : Transformer_logits m src_seq trg_seq st = Ok (seq_logit, st2)).
  { unfold Transformer_logits.
    rewrite (lift_Ok_bind _ _ _ _ Epad), (lift_Ok_bind _ _ _ _ Etm).
    rewrite (bind_Ok _ _ _ _ _ Eenc). cbn beta iota.
    rewrite (bind_Ok _ _ _ _ _ Edec). cbn beta iota.
    rewrite (bind_Ok _ _ _ _ _ Ey). exact Esc. }
  exists src_mask, trg_mask, enc_output, dec_output, seq_logit,
    (mkTensor [B * Lt; Vt] (data seq_logit)), st1, st2.
  split; [exact Epad|]. split; [exact Etm|]. split; [exact Eenc|].
  split; [exact Henc|]. split; [exact Edec|]. split; [exact Hdec|].
  split; [exact Elog|]. split; [exact Hlog|]. split; [exact Hwl|].
  split.
  { unfold Transformer_forward. rewrite (bind_Ok _ _ _ _ _ Elog).
    unfold size_at. rewrite Hlog. cbn [nth_error].
    rewrite (lift_Ok_bind _ _ _ _ eq_refl).
    rewrite (view_rows_flatten seq_logit B Lt Vt Hlog HV). reflexivity. }
  split; [reflexivity|]. split.
  { unfold wf in *. cbn [shape data numel]. rewrite Hwl, Hlog.
    cbn [numel]. lia. }
  intros b t v Hb Htl Hv.
  destruct (get_is_Some seq_logit [b; t; v] Hwl) as (x & Hx).
  { rewrite Hlog. apply in_bounds3_intro; assumption. }
  exists x. split; [exact Hx|].
  rewrite get_flatten by assumption. rewrite <- Hx.
  destruct seq_logit as [sh dat]. cbn [shape data] in *. subst sh.
  reflexivity.
Qed.

End Shapes.

(** * Errors of the lookups and of the position table *)

Section ForwardBounds.
Context {rt : Runtime}.

Lemma forward_lookup_raises {bl : Blocks} (m : Transformer) (st : State)
    (src_seq trg_seq : Tensor Z) (B Ls B' Lt : nat) (e : exn) :
  shape src_seq = [B; Ls] -> shape trg_seq = [B'; Lt] ->
  Embedding_forward (src_word_emb (encoder m)) src_seq st = Raise e ->
  Transformer_forward m src_seq trg_seq st = Raise e.
Proof.
  intros Hs Ht Hr.
  pose proof (get_pad_mask_ok src_seq (src_pad_idx m) B Ls Hs) as Hp.
  destruct (target_mask_shape trg_seq (trg_pad_idx m) B' Lt Ht)
    as (tm & Htm & _).
  unfold Transformer_forward, Transformer_logits.
  apply bind_Raise.
  rewrite (lift_Ok_bind _ _ _ _ Hp), (lift_Ok_bind _ _ _ _ Htm).
  apply bind_Raise. unfold Encoder_forward. apply bind_Raise.
  unfold embed. apply bind_Raise. exact Hr.
Qed.

(** A forward pass whose encoder returned fails with the error of the
    decoder's embedding steps, if they fail. *)
Lemma forward_decoder_embed_raises {bl : Blocks} (m : Transformer)
    (st st1 : State) (src_seq trg_seq : Tensor Z) (sm : Tensor bool)
    (enc_output : Tensor F) (B Lt : nat) (e : exn) :
  get_pad_mask src_seq (src_pad_idx m) = Ok sm ->
  shape trg_seq = [B; Lt] ->
  Encoder_forward (encoder m) src_seq sm false st
    = Ok ((enc_output, None), st1) ->
  embed (trg_word_emb (decoder m)) (dec_scale_emb (decoder m))
    (dec_d_model (decoder m)) (dec_position_enc (decoder m))
    (dec_dropout (decoder m)) (dec_layer_norm (decoder m)) trg_seq st1
    = Raise e ->
  Transformer_forward m src_seq trg_seq st = Raise e.
Proof.
  intros Hp Ht Eenc Hr.
  destruct (target_mask_shape trg_seq (trg_pad_idx m) B Lt Ht)
    as (tm & Htm & _).
  unfold Transformer_forward, Transformer_logits.
  apply bind_Raise.
  rewrite (lift_Ok_bind _ _ _ _ Hp), (lift_Ok_bind _ _ _ _ Htm).
  rewrite (bind_Ok _ _ _ _ _ Eenc). cbn beta iota.
  apply bind_Raise. unfold Decoder_forward. apply bind_Raise. exact Hr.
Qed.

(** X5. When the source table has [Vs] rows and passes the lookup's
    padding check, a source id outside [0, Vs) makes [Transformer.forward]
    raise IndexError at the source lookup, whatever the dropout, the layer
    norm and the blocks would do: none of them is reached.  With a valid
    source that the encoder's own layers accept, the encoder returns and a
    target id outside [0, Vt) then raises IndexError at the target lookup.
    [Vs] and [Vt] are the row counts of the tables the embeddings refer
    to. *)
Theorem forward_id_out_of_range (m : Transformer) (st : State)
    (src_seq trg_seq : Tensor Z) (d Vs Vt P B Ls Lt : nat) :
  shape src_seq = [B; Ls] -> shape trg_seq = [B; Lt] ->
  has_shape st (weight (src_word_emb (encoder m))) [Vs; d] ->
  pad_accepted (padding_idx (src_word_emb (encoder m))) Vs = true ->
  (~ ids_in_range src_seq Vs ->
   forall bl : Blocks,
     Transformer_forward m src_seq trg_seq st = Raise IndexError) /\
  (ids_in_range src_seq Vs -> ~ ids_in_range trg_seq Vt ->
   has_shape st (weight (trg_word_emb (decoder m))) [Vt; d] ->
   pad_accepted (padding_idx (trg_word_emb (decoder m))) Vt = true ->
   table_wf st (weight (src_word_emb (encoder m))) ->
   shape (pos_table (enc_position_enc (encoder m))) = [1; P; d] ->
   wf src_seq -> Ls <= P ->
   forall bl : Blocks,
     Encoder_accepts (encoder m) d B Ls ->
     (enc_scale_emb (encoder m) = true ->
      exists k, py_pow (Z.of_nat (enc_d_model (encoder m))) lit_half = Ok k) ->
     exists src_mask enc_output st1,
       get_pad_mask src_seq (src_pad_idx m) = Ok src_mask /\
       Encoder_forward (encoder m) src_seq src_mask false st
         = Ok ((enc_output, None), st1) /\
       Transformer_forward m src_seq trg_seq st = Raise IndexError).
Proof.
  intros Hs Ht Hsrc Hps. split.
  - intros Hr bl.
    apply (forward_lookup_raises m st src_seq trg_seq B Ls B Lt _ Hs Ht).
    apply (Embedding_forward_out_of_range _ _ Vs d st Hsrc Hps Hr).
  - intros Hsr Hr Htrg Hpt Htw Het Hws HLs bl Hacc Hpow.
    destruct (forward_encoder_ok m st src_seq d Vs P B Ls
                Hsrc Htw Hps Het Hpow Hacc Hs Hws Hsr HLs)
      as (src_mask & enc_output & st1 & Epad & _ & _ & Eenc & _ & _ & H1).
    exists src_mask, enc_output, st1. split; [exact Epad|].
    split; [exact Eenc|].
    apply (forward_decoder_embed_raises m st st1 src_seq trg_seq src_mask
             enc_output B Lt _ Epad Ht Eenc).
    unfold embed. apply bind_Raise.
    apply (Embedding_forward_out_of_range _ _ Vt d st1); try assumption.
    apply (extends_heap st st1 H1), Htrg.
Qed.

(** X6. With a position table of at least two rows and a source within a
    table that passes the lookup's padding check, a source longer than
    [n_position] makes [Transformer.forward] raise RuntimeError in the
    encoder's positional encoding, whatever the dropout, the layer norm and
    the blocks would do; a source that fits and that the encoder's own
    layers accept, with a valid target longer than [n_position], raises the
    same error in the decoder, after the encoder has returned. *)
Theorem forward_too_long (m : Transformer) (st : State)
    (src_seq trg_seq : Tensor Z) (d Vs Vt P B Ls Lt : nat) :
  shape src_seq = [B; Ls] -> shape trg_seq = [B; Lt] ->
  has_shape st (weight (src_word_emb (encoder m))) [Vs; d] ->
  pad_accepted (padding_idx (src_word_emb (encoder m))) Vs = true ->
  ids_in_range src_seq Vs ->
  shape (pos_table (enc_position_enc (encoder m))) = [1; P; d] ->
  2 <= P ->
  (enc_scale_emb (encoder m) = true ->
   exists k, py_pow (Z.of_nat (enc_d_model (encoder m))) lit_half = Ok k) ->
  (P < Ls ->
   forall bl : Blocks,
     Transformer_forward m src_seq trg_seq st = Raise RuntimeError) /\
  (Ls <= P -> P < Lt ->
   has_shape st (weight (trg_word_emb (decoder m))) [Vt; d] ->
   pad_accepted (padding_idx (trg_word_emb (decoder m))) Vt = true ->
   ids_in_range trg_seq Vt ->
   shape (pos_table (dec_position_enc (decoder m))) = [1; P; d] ->
   (dec_scale_emb (decoder m) = true ->
    exists k, py_pow (Z.of_nat (dec_d_model (decoder m))) lit_half = Ok k) ->
   table_wf st (weight (src_word_emb (encoder m))) -> wf src_seq ->
   forall bl : Blocks,
     Encoder_accepts (encoder m) d B Ls ->
     exists src_mask enc_output st1,
       get_pad_mask src_seq (src_pad_idx m) = Ok src_mask /\
       Encoder_forward (encoder m) src_seq src_mask false st
         = Ok ((enc_output, None), st1) /\
       Transformer_forward m src_seq trg_seq st = Raise RuntimeError).
Proof.
  intros Hs Ht Hsrc Hps Hsr Het HP Hpow. split.
  - intros HL bl.
    pose proof (get_pad_mask_ok src_seq (src_pad_idx m) B Ls Hs) as Hp.
    destruct (target_mask_shape trg_seq (trg_pad_idx m) B Lt Ht)
      as (tm & Htm & _).
    unfold Transformer_forward, Transformer_logits.
    apply bind_Raise.
    rewrite (lift_Ok_bind _ _ _ _ Hp), (lift_Ok_bind _ _ _ _ Htm).
    apply bind_Raise. unfold Encoder_forward. apply bind_Raise.
    apply (embed_too_long _ _ _ _ _ _ _ Vs d B Ls P st); assumption.
  - intros HLs HLt Htrg Hpt Htr Hdt Hpd Htw Hws bl Hacc.
    destruct (forward_encoder_ok m st src_seq d Vs P B Ls
                Hsrc Htw Hps Het Hpow Hacc Hs Hws Hsr HLs)
      as (src_mask & enc_output & st1 & Epad & _ & _ & Eenc & _ & _ & H1).
    exists src_mask, enc_output, st1. split; [exact Epad|].
    split; [exact Eenc|].
    apply (forward_decoder_embed_raises m st st1 src_seq trg_seq src_mask
             enc_output B Lt _ Epad Ht Eenc).
    apply (embed_too_long _ _ _ _ _ _ _ Vt d B Lt P st1); try assumption.
    apply (extends_heap st st1 H1), Htrg.
Qed.

End ForwardBounds.

(** * The lookups of a constructed model *)

Section ConstructedLookups.
Context {rt : Runtime}.

Lemma pad_accepted_in_range (p : Z) (n : nat) :
  (0 <= p < Z.of_nat n)%Z -> pad_accepted p n = true.
Proof.
  intros H. unfold pad_accepted.
  destruct (Z.ltb_spec 0 p); [apply Z.ltb_lt; lia|].
  destruct (Z.ltb_spec p 0); [lia|reflexivity].
Qed.

Lemma nn_Embedding_padding (num dim : nat) (pad : Z) (st st' : State)
    (e : Embedding) :
  nn_Embedding num dim pad st = Ok (e, st') ->
  padding_idx e = (if (pad <? 0)%Z then (Z.of_nat num + pad)%Z else pad) /\
  (0 <= padding_idx e < Z.of_nat num)%Z.
Proof.
  unfold nn_Embedding. intros H.
  apply bind_Ok_inv in H as (pidx & s0 & Hp & H).
  apply bind_Ok_inv in H as (w & s1 & _ & H).
  apply bind_Ok_inv in H as (t & s2 & Hfill & H).
  apply bind_Ok_inv in H as (l & s3 & _ & H).
  apply mret_Ok_inv in H as [-> _]. cbn [padding_idx]. split.
  - revert Hp. clear. destruct (Z.ltb_spec 0 pad) as [Hpos|Hnp].
    + intros H. apply bind_Ok_inv in H as (u & s & _ & H).
      apply mret_Ok_inv in H as [-> _].
      destruct (Z.ltb_spec pad 0); [lia|reflexivity].
    + destruct (Z.ltb_spec pad 0) as [Hneg|Hnn].
      * intros H. apply bind_Ok_inv in H as (u & s & _ & H).
        apply mret_Ok_inv in H as [-> _]. reflexivity.
      * intros H. apply mret_Ok_inv in H as [-> _]. reflexivity.
  - apply lift_Ok_inv in Hfill as [Hfill _].
    unfold fill_row_zero in Hfill. cbn [shape] in Hfill.
    destruct ((0 <=? pidx)%Z && (pidx <? Z.of_nat num)%Z) eqn:E;
      [|discriminate].
    apply andb_true_iff in E as [E1 E2].
    apply Z.leb_le in E1. apply Z.ltb_lt in E2. lia.
Qed.

Lemma Encoder_new_padding n d nl nh dk dv dm di pad dr np sc st e st' :
  Encoder_new n d nl nh dk dv dm di pad dr np sc st = Ok (e, st') ->
  padding_idx (src_word_emb e)
    = (if (pad <? 0)%Z then (Z.of_nat n + pad)%Z else pad) /\
  (0 <= padding_idx (src_word_emb e) < Z.of_nat n)%Z.
Proof.
  unfold Encoder_new. intros H.
  apply bind_Ok_inv in H as (emb & s0 & He & H).
  apply bind_Ok_inv in H as (pe & s1 & _ & H).
  apply bind_Ok_inv in H as (dro & s2 & _ & H).
  apply bind_Ok_inv in H as (ls & s3 & _ & H).
  apply bind_Ok_inv in H as (ln & s4 & _ & H).
  apply mret_Ok_inv in H as [-> _]. cbn [src_word_emb].
  apply (nn_Embedding_padding _ _ _ _ _ _ He).
Qed.

Lemma Decoder_new_padding n d nl nh dk dv dm di pad np dr sc st e st' :
  Decoder_new n d nl nh dk dv dm di pad np dr sc st = Ok (e, st') ->
  padding_idx (trg_word_emb e)
    = (if (pad <? 0)%Z then (Z.of_nat n + pad)%Z else pad) /\
  (0 <= padding_idx (trg_word_emb e) < Z.of_nat n)%Z.
Proof.
  unfold Decoder_new. intros H.
  apply bind_Ok_inv in H as (emb & s0 & He & H).
  apply bind_Ok_inv in H as (pe & s1 & _ & H).
  apply bind_Ok_inv in H as (dro & s2 & _ & H).
  apply bind_Ok_inv in H as (ls & s3 & _ & H).
  apply bind_Ok_inv in H as (ln & s4 & _ & H).
  apply mret_Ok_inv in H as [-> _]. cbn [trg_word_emb].
  apply (nn_Embedding_padding _ _ _ _ _ _ He).
Qed.

(** The padding indices a constructed model stores: the configured ones,
    a negative one counted from the end of the declared vocabulary. *)
Lemma Transformer_new_padding (c : Config) (st st' : State) (m : Transformer) :
  Transformer_new c st = Ok (m, st') ->
  padding_idx (src_word_emb (encoder m))
    = (if (c_src_pad_idx c <? 0)%Z
       then (Z.of_nat (n_src_vocab c) + c_src_pad_idx c)%Z
       else c_src_pad_idx c) /\
  (0 <= padding_idx (src_word_emb (encoder m)) < Z.of_nat (n_src_vocab c))%Z /\
  (0 <= padding_idx (trg_word_emb (decoder m)) < Z.of_nat (n_trg_vocab c))%Z.
Proof.
  intros H.
  destruct (Transformer_new_steps c st st' m H)
    as (enc & st1 & dec & st2 & prj & st3 & sc & E1 & E2 & _ & _
        & He & Hd & _).
  apply Encoder_new_padding in E1 as [P1 R1].
  apply Decoder_new_padding in E2 as [_ R2].
  assert (Hp : padding_idx (src_word_emb (encoder m))
               = padding_idx (src_word_emb enc))
    by (rewrite He; destruct (emb_src_trg_weight_sharing c); reflexivity).
  rewrite Hp, Hd. auto.
Qed.

(** With an initialiser that returns as many values as the shape asks for,
    the embedding tables of a constructed model are tensors. *)
Lemma Transformer_new_tables_wf (c : Config) (st st' : State)
    (m : Transformer) :
  (forall s w, length (fst (init_values XavierUniform s w)) = numel s) ->
  Transformer_new c st = Ok (m, st') ->
  table_wf st' (weight (src_word_emb (encoder m))) /\
  table_wf st' (weight (trg_word_emb (decoder m))).
Proof.
  intros Hlen H.
  destruct (Transformer_new_allocation c st st' m H)
    as (l0 & l1 & l2 & -> & -> & _ & _ & _ & _ & _ & _ & _ & _
        & D0 & D1 & _).
  assert (Hwf : forall l, drawn_by_xavier st' l -> table_wf st' l).
  { intros l (t & w & Ht & Hd) t' Ht'. rewrite Ht in Ht'.
    injection Ht' as <-. unfold wf. rewrite Hd. apply Hlen. }
  destruct (emb_src_trg_weight_sharing c); auto.
Qed.

Lemma Transformer_new_lookups_ok (c : Config) (st st' : State)
    (m : Transformer) :
  (forall s w, length (fst (init_values XavierUniform s w)) = numel s) ->
  Transformer_new c st = Ok (m, st') ->
  (emb_src_trg_weight_sharing c = true ->
   pad_accepted (padding_idx (src_word_emb (encoder m))) (n_trg_vocab c)
   = true) ->
  lookups_ok m st'
    (if emb_src_trg_weight_sharing c then n_trg_vocab c else n_src_vocab c)
    (n_trg_vocab c).
Proof.
  intros Hlen H Hshared.
  destruct (Transformer_new_tables_wf c st st' m Hlen H) as [W0 W1].
  destruct (Transformer_new_padding c st st' m H) as (_ & R0 & R1).
  split; [exact W0|exact W1| |apply pad_accepted_in_range, R1].
  destruct (emb_src_trg_weight_sharing c);
    [auto|apply pad_accepted_in_range, R0].
Qed.

(** C10. With [emb_src_trg_weight_sharing] and two different vocabulary
    sizes, on a configuration that passes the constructor's two assertions
    and that the layers accept, [Transformer(...)] returns: no check of the
    constructor reports the mismatch.  The source embedding then refers to
    the target embedding's weight, which has [n_trg_vocab] rows, while its
    [num_embeddings] still says [n_src_vocab] and its [padding_idx] is the
    one validated against [n_src_vocab].  Its lookup accepts a tensor of ids
    iff that padding index passes the lookup's check against the
    [n_trg_vocab] rows and every id is below [n_trg_vocab]; when the padding
    index does not pass, every lookup raises AssertionError. *)
Theorem shared_embedding_vocab_spec (c : Config) (st : State) :
  emb_src_trg_weight_sharing c = true ->
  n_src_vocab c <> n_trg_vocab c ->
  str_in (scale_emb_or_prj c) ["emb"%string; "prj"%string; "none"%string]
    = true ->
  c_d_model c = d_word_vec c ->
  valid_pad (n_src_vocab c) (c_src_pad_idx c) ->
  valid_pad (n_trg_vocab c) (c_trg_pad_idx c) ->
  0 < n_position c ->
  ctors_accept c ->
  exists m st',
    Transformer_new c st = Ok (m, st') /\
    weight (src_word_emb (encoder m)) = weight (trg_word_emb (decoder m)) /\
    num_embeddings (src_word_emb (encoder m)) = n_src_vocab c /\
    has_shape st' (weight (src_word_emb (encoder m)))
      [n_trg_vocab c; d_word_vec c] /\
    padding_idx (src_word_emb (encoder m))
      = (if (c_src_pad_idx c <? 0)%Z
         then (Z.of_nat (n_src_vocab c) + c_src_pad_idx c)%Z
         else c_src_pad_idx c) /\
    (forall ids,
       is_ok (Embedding_forward (src_word_emb (encoder m)) ids st')
       = pad_accepted (padding_idx (src_word_emb (encoder m))) (n_trg_vocab c)
         && forallb (fun i => (0 <=? i)%Z && (i <? Z.of_nat (n_trg_vocab c))%Z)
              (data ids)) /\
    (pad_accepted (padding_idx (src_word_emb (encoder m))) (n_trg_vocab c)
       = false ->
     forall ids,
       Embedding_forward (src_word_emb (encoder m)) ids st'
       = Raise AssertionError).
Proof.
  intros Hshare Hne Hlegal Hdim Hps Hpt Hnp Hctors.
  destruct (Transformer_new_total c st Hlegal Hdim Hps Hpt Hnp Hctors)
    as (m & st' & E & Hok).
  pose proof (src_emb_ok _ _ _ _ _ _ Hok) as Hshape.
  rewrite Hshare in Hshape.
  destruct (Transformer_new_padding c st st' m E) as (Hpad & _ & _).
  exists m, st'. split; [exact E|].
  destruct (Transformer_new_inv c st st' m E)
    as (enc & dec & prj & Hm & _ & _ & Hnum & _).
  split; [|split; [|split; [exact Hshape|split; [exact Hpad|split]]]].
  - rewrite Hm, Hshare. reflexivity.
  - rewrite Hm, Hshare. exact Hnum.
  - intros ids. apply (Embedding_forward_is_ok _ ids st' _ _ Hshape).
  - intros Hrej ids.
    apply (Embedding_forward_pad_rejected _ ids _ _ st' Hshape Hrej).
Qed.

(** X7. With [emb_src_trg_weight_sharing] and a source vocabulary larger
    than the target one, the constructor returns a model whose forward pass
    fails on any source that holds an id of [n_trg_vocab] or more, although
    such an id can be below the declared [n_src_vocab]: with IndexError at
    the source lookup when the source padding index passes the lookup's
    check against the [n_trg_vocab] rows, and with AssertionError from that
    check when it does not.  Neither depends on the blocks. *)
Theorem shared_vocab_lookup_failure (c : Config) (st : State)
    (src_seq trg_seq : Tensor Z) (B Ls B' Lt : nat) (x : Z) :
  emb_src_trg_weight_sharing c = true ->
  n_trg_vocab c < n_src_vocab c ->
  str_in (scale_emb_or_prj c) ["emb"%string; "prj"%string; "none"%string]
    = true ->
  c_d_model c = d_word_vec c ->
  valid_pad (n_src_vocab c) (c_src_pad_idx c) ->
  valid_pad (n_trg_vocab c) (c_trg_pad_idx c) ->
  0 < n_position c ->
  ctors_accept c ->
  shape src_seq = [B; Ls] -> shape trg_seq = [B'; Lt] ->
  In x (data src_seq) -> (Z.of_nat (n_trg_vocab c) <= x)%Z ->
  exists m st',
    Transformer_new c st = Ok (m, st') /\
    padding_idx (src_word_emb (encoder m))
      = (if (c_src_pad_idx c <? 0)%Z
         then (Z.of_nat (n_src_vocab c) + c_src_pad_idx c)%Z
         else c_src_pad_idx c) /\
    forall bl : Blocks,
      Transformer_forward m src_seq trg_seq st'
      = Raise (if pad_accepted (padding_idx (src_word_emb (encoder m)))
                    (n_trg_vocab c)
               then IndexError else AssertionError).
Proof.
  intros Hshare Hlt Hlegal Hdim Hps Hpt Hnp Hctors Hs Ht Hin Hx.
  destruct (Transformer_new_total c st Hlegal Hdim Hps Hpt Hnp Hctors)
    as (m & st' & E & Hok).
  destruct (Transformer_new_padding c st st' m E) as (Hpad & _ & _).
  exists m, st'. split; [exact E|]. split; [exact Hpad|]. intros bl.
  pose proof (src_emb_ok _ _ _ _ _ _ Hok) as HW. rewrite Hshare in HW.
  apply (forward_lookup_raises m st' src_seq trg_seq B Ls B' Lt _ Hs Ht).
  destruct (pad_accepted (padding_idx (src_word_emb (encoder m)))
              (n_trg_vocab c)) eqn:Hp.
  - apply (Embedding_forward_out_of_range _ _ _ _ st' HW Hp).
    intros Hr. unfold ids_in_range in Hr. rewrite Forall_forall in Hr.
    specialize (Hr x Hin). lia.
  - apply (Embedding_forward_pad_rejected _ _ _ _ st' HW Hp).
Qed.

End ConstructedLookups.

(** * The further properties on the integer runtime *)

Lemma constructed_weights_xavier_witness :
  exists m st,
    @Transformer_new int_runtime int_config empty_state = Ok (m, st) /\
    drawn_by_xavier st (weight (trg_word_emb (decoder m))).
Proof.
  destruct (@Transformer_new int_runtime int_config empty_state)
    as [[m st]|e] eqn:E; [|vm_compute in E; discriminate].
  exists m, st. split; [reflexivity|].
  apply (@constructed_weights_xavier int_runtime int_config empty_state st m E).
Defined.

Lemma unshared_weights_distinct_witness :
  exists m st,
    @Transformer_new int_runtime int_config_unshared empty_state = Ok (m, st) /\
    weight (src_word_emb (encoder m)) <> weight (trg_word_emb (decoder m)) /\
    lin_weight (trg_word_prj m) <> weight (trg_word_emb (decoder m)) /\
    weight (src_word_emb (encoder m)) <> lin_weight (trg_word_prj m).
Proof.
  destruct (@Transformer_new int_runtime int_config_unshared empty_state)
    as [[m st]|e] eqn:E; [|vm_compute in E; discriminate].
  exists m, st. split; [reflexivity|].
  destruct (@unshared_weights_distinct int_runtime int_blocks
              int_config_unshared empty_state st m E) as (H1 & H2 & H3).
  split; [apply H1; reflexivity|].
  split; [apply H2; reflexivity|].
  apply H3. left. reflexivity.
Defined.

Lemma construction_frame_witness :
  exists m st,
    @Transformer_new int_runtime int_config empty_state = Ok (m, st) /\
    keeps empty_state st.
Proof.
  destruct (@Transformer_new int_runtime int_config empty_state)
    as [[m st]|e] eqn:E; [|vm_compute in E; discriminate].
  exists m, st. split; [reflexivity|].
  apply (@construction_frame int_runtime int_config empty_state st m E).
Defined.

Lemma constructed_stacks_witness :
  exists m st,
    @Transformer_new int_runtime int_config_unshared empty_state = Ok (m, st) /\
    length (enc_layer_stack (encoder m)) = 3 /\
    length (dec_layer_stack (decoder m)) = 3.
Proof.
  destruct (@Transformer_new int_runtime int_config_unshared empty_state)
    as [[m st]|e] eqn:E; [|vm_compute in E; discriminate].
  exists m, st. split; [reflexivity|].
  destruct (@constructed_stacks int_runtime int_blocks int_config_unshared
              empty_state st m E) as (H1 & H2 & _).
  split; [exact H1|exact H2].
Defined.

Lemma construction_assertions_witness :
  @Transformer_new int_runtime
    (with_scale int_config "sqrt"%string) empty_state
  = Raise AssertionError.
Proof.
  refine (proj1 (@construction_assertions int_runtime
                   (with_scale int_config "sqrt"%string) empty_state
                   _ _ _ _) eq_refl);
    try (unfold valid_pad; cbn; lia); try (cbn; lia).
  apply int_ctors_accept_any.
Defined.

Lemma construction_no_position_witness :
  @Transformer_new int_runtime
    (@mkConfig int_runtime 10 12 0%Z 0%Z 2 2 4 1 2 1 1 0%Z 0 true true "prj")
    empty_state
  = Raise IndexError.
Proof.
  apply (@construction_no_position int_runtime); try reflexivity.
  unfold valid_pad; cbn; lia.
Defined.

(** * The forward pass on the integer runtime *)

Lemma int_Encoder_accepts (e : @Encoder int_runtime) (d B L : nat) :
  @Encoder_accepts int_runtime int_blocks e d B L.
Proof.
  split; intros; cbn; repeat eexists; auto.
Qed.

Lemma int_Decoder_accepts (dec : @Decoder int_runtime) (d B Lt Ls : nat) :
  @Decoder_accepts int_runtime int_blocks dec d B Lt Ls.
Proof.
  split; intros; cbn; repeat eexists; auto.
Qed.

Lemma int_init_sized (s : list nat) (w : @World int_runtime) :
  length (fst (@init_values int_runtime XavierUniform s w)) = numel s.
Proof. cbn. apply repeat_length. Qed.

Lemma int_pow_defined (d : nat) (e : Z) :
  0 < d -> exists k, @py_pow int_runtime (Z.of_nat d) e = Ok k.
Proof.
  intros Hd. cbn.
  replace (Z.of_nat d =? 0)%Z with false by (symmetry; apply Z.eqb_neq; lia).
  eexists. reflexivity.
Qed.

(** The model of [int_config], with what the forward-pass theorems ask. *)
Lemma int_model_ready :
  exists m st,
    @Transformer_new int_runtime int_config empty_state = Ok (m, st) /\
    model_ok m st 2 12 12 5 /\ lookups_ok m st 12 12.
Proof.
  destruct (@Transformer_new_total int_runtime int_config empty_state)
    as (m & st & E & Hok);
    try reflexivity; try (unfold valid_pad; cbn; lia);
    try apply int_ctors_accept_any.
  exists m, st. split; [exact E|]. split; [exact Hok|].
  apply (@Transformer_new_lookups_ok int_runtime int_config empty_state st m
           int_init_sized E).
  intros _. destruct (Transformer_new_padding _ _ _ _ E) as (_ & R & _).
  apply pad_accepted_in_range. cbn in R |- *. lia.
Qed.

Lemma target_mask_spec_witness :
  let seq := mkTensor [1; 3] [1; 2; 0]%Z in
  shape seq = [1; 3] /\ wf seq /\
  exists m,
    target_mask seq 0 = Ok m /\ shape m = [1; 3; 3] /\
    forall (model : @Transformer int_runtime) src_seq st g,
      trg_pad_idx model = 0%Z ->
      (forall l x e sm w,
          g l x e m sm w
          = @DecoderLayer_forward int_runtime int_blocks l x e m sm w) ->
      Transformer_forward (bl := with_decoder_layer int_blocks g)
        model src_seq seq st
      = Transformer_forward (bl := int_blocks) model src_seq seq st.
Proof.
  intros seq. split; [reflexivity|]. split; [reflexivity|].
  destruct (@target_mask_spec int_runtime int_blocks seq 0%Z 1 3
              eq_refl eq_refl)
    as [(p & s & m & _ & _ & Hm & Hshape & _ & _ & _ & Hsole) _].
  exists m. auto.
Defined.

Lemma scaling_mode_spec_witness :
  exists m st',
    @Transformer_new int_runtime int_config empty_state = Ok (m, st') /\
    enc_scale_emb (encoder m) = false /\
    dec_scale_emb (decoder m) = false /\ scale_prj m = true.
Proof.
  pose proof (@scaling_mode_spec int_runtime int_blocks int_config empty_state)
    as (_ & H & _).
  specialize (H eq_refl).
  destruct (@Transformer_new int_runtime int_config empty_state)
    as [[m st']|e] eqn:E; [|vm_compute in E; discriminate].
  exists m, st'. split; [reflexivity|].
  destruct H as (_ & Hprj & _). apply Hprj. reflexivity.
Defined.

Lemma forward_shape_spec_witness :
  let src_seq := mkTensor [1; 4] [1; 2; 3; 0]%Z in
  let trg_seq := mkTensor [1; 3] [1; 4; 0]%Z in
  exists m st out st2,
    @Transformer_new int_runtime int_config empty_state = Ok (m, st) /\
    Transformer_forward (bl := int_blocks) m src_seq trg_seq st
      = Ok (out, st2) /\
    shape out = [1 * 3; 12].
Proof.
  intros src_seq trg_seq.
  destruct int_model_ready as (m & st & E & Hok & Hlk).
  destruct (@forward_shape_spec int_runtime int_blocks m st src_seq trg_seq
              2 12 12 5 1 4 3 Hok Hlk
              (int_Encoder_accepts _ _ _ _) (int_Decoder_accepts _ _ _ _ _)
              (fun _ => int_pow_defined 2 _ ltac:(lia))
              (fun _ => int_pow_defined 2 _ ltac:(lia)))
    as (sm & tm & eo & dout & lg & out & st1 & st2 & _ & _ & _ & _ & _ & _
        & _ & _ & _ & Hfwd & Hshape & _).
  - reflexivity.
  - reflexivity.
  - unfold ids_in_range; cbn. repeat constructor; lia.
  - lia.
  - reflexivity.
  - reflexivity.
  - unfold ids_in_range; cbn. repeat constructor; lia.
  - lia.
  - lia.
  - exists m, st, out, st2. auto.
Defined.

Lemma shared_embedding_vocab_spec_witness :
  emb_src_trg_weight_sharing int_config = true /\
  n_src_vocab int_config <> n_trg_vocab int_config /\
  exists m st',
    @Transformer_new int_runtime int_config empty_state = Ok (m, st') /\
    weight (src_word_emb (encoder m)) = weight (trg_word_emb (decoder m)) /\
    num_embeddings (src_word_emb (encoder m)) = 10 /\
    is_ok (Embedding_forward (src_word_emb (encoder m))
             (mkTensor [1; 1] [11%Z]) st') = true.
Proof.
  split; [reflexivity|]. split; [cbn; lia|].
  destruct (@shared_embedding_vocab_spec int_runtime int_config empty_state)
    as (m & st' & E & Hw & Hn & _ & Hp & Hok & _).
  - reflexivity.
  - cbn; lia.
  - reflexivity.
  - reflexivity.
  - unfold valid_pad; cbn; lia.
  - unfold valid_pad; cbn; lia.
  - cbn; lia.
  - exact int_ctors_accept.
  - exists m, st'. split; [exact E|]. split; [exact Hw|]. split; [exact Hn|].
    rewrite Hok, Hp. reflexivity.
Defined.

Lemma forward_id_out_of_range_witness :
  exists m st,
    @Transformer_new int_runtime int_config empty_state = Ok (m, st) /\
    Transformer_forward (bl := int_blocks) m
      (mkTensor [1; 2] [1; 12]%Z) (mkTensor [1; 3] [1; 4; 0]%Z) st
    = Raise IndexError /\
    Transformer_forward (bl := int_blocks) m
      (mkTensor [1; 2] [1; 2]%Z) (mkTensor [1; 3] [1; 12; 0]%Z) st
    = Raise IndexError.
Proof.
  destruct int_model_ready
    as (m & st & E & [Hsrc Htrg Hprj Het Hdt Hed Hdd Hdm] & [Hws Hwt Hps Hpt]).
  exists m, st. split; [exact E|]. split.
  - refine (proj1 (@forward_id_out_of_range int_runtime m st
                     (mkTensor [1; 2] [1; 12]%Z) (mkTensor [1; 3] [1; 4; 0]%Z)
                     2 12 12 5 1 2 3 eq_refl eq_refl Hsrc Hps) _ int_blocks).
    unfold ids_in_range. cbn. intros H.
    inversion H as [|? ? _ H1]. inversion H1 as [|? ? Hbad _]. lia.
  - destruct (proj2 (@forward_id_out_of_range int_runtime m st
                       (mkTensor [1; 2] [1; 2]%Z)
                       (mkTensor [1; 3] [1; 12; 0]%Z)
                       2 12 12 5 1 2 3 eq_refl eq_refl Hsrc Hps))
      with (bl := int_blocks) as (sm & eo & st1 & _ & _ & Hf).
    + unfold ids_in_range. cbn. repeat constructor; lia.
    + unfold ids_in_range. cbn. intros H.
      inversion H as [|? ? _ H1]. inversion H1 as [|? ? Hbad _]. lia.
    + exact Htrg.
    + exact Hpt.
    + exact Hws.
    + exact Het.
    + reflexivity.
    + lia.
    + apply int_Encoder_accepts.
    + intros _. rewrite Hed. apply int_pow_defined. lia.
    + exact Hf.
Defined.

Lemma forward_too_long_witness :
  exists m st,
    @Transformer_new int_runtime int_config empty_state = Ok (m, st) /\
    Transformer_forward (bl := int_blocks) m
      (mkTensor [1; 6] [1; 2; 3; 4; 5; 6]%Z) (mkTensor [1; 3] [1; 4; 0]%Z) st
    = Raise RuntimeError.
Proof.
  destruct int_model_ready
    as (m & st & E & [Hsrc Htrg Hprj Het Hdt Hed Hdd Hdm] & [Hws Hwt Hps Hpt]).
  exists m, st. split; [exact E|].
  refine (proj1 (@forward_too_long int_runtime m st
                   (mkTensor [1; 6] [1; 2; 3; 4; 5; 6]%Z)
                   (mkTensor [1; 3] [1; 4; 0]%Z)
                   2 12 12 5 1 6 3 eq_refl eq_refl Hsrc Hps _ Het _ _)
            _ int_blocks).
  - unfold ids_in_range. cbn. repeat constructor; lia.
  - lia.
  - intros _. rewrite Hed. apply int_pow_defined. lia.
  - lia.
Defined.

Lemma shared_vocab_lookup_failure_witness :
  (exists m st,
     @Transformer_new int_runtime int_config_wide empty_state = Ok (m, st) /\
     num_embeddings (src_word_emb (encoder m)) = 12 /\
     Transformer_forward (bl := int_blocks) m
       (mkTensor [1; 2] [1; 11]%Z) (mkTensor [1; 3] [1; 4; 0]%Z) st
     = Raise IndexError) /\
  (exists m st,
     @Transformer_new int_runtime int_config_wide_pad empty_state
       = Ok (m, st) /\
     padding_idx (src_word_emb (encoder m)) = 11%Z /\
     Transformer_forward (bl := int_blocks) m
       (mkTensor [1; 2] [1; 11]%Z) (mkTensor [1; 3] [1; 4; 0]%Z) st
     = Raise AssertionError).
Proof.
  split.
  - destruct (@shared_vocab_lookup_failure int_runtime
                int_config_wide empty_state
                (mkTensor [1; 2] [1; 11]%Z) (mkTensor [1; 3] [1; 4; 0]%Z)
                1 2 1 3 11%Z) as (m & st & E & Hp & Hf);
      try reflexivity; try (unfold valid_pad; cbn; lia); try (cbn; lia);
      try apply int_ctors_accept_any; try (cbn; tauto).
    exists m, st. split; [exact E|]. split.
    + destruct (Transformer_new_inv _ _ _ _ E)
        as (enc & dec & prj & -> & _ & _ & Hn & _).
      exact Hn.
    + specialize (Hf int_blocks). rewrite Hp in Hf. exact Hf.
  - destruct (@shared_vocab_lookup_failure int_runtime
                int_config_wide_pad empty_state
                (mkTensor [1; 2] [1; 11]%Z) (mkTensor [1; 3] [1; 4; 0]%Z)
                1 2 1 3 11%Z) as (m & st & E & Hp & Hf);
      try reflexivity; try (unfold valid_pad; cbn; lia); try (cbn; lia);
      try apply int_ctors_accept_any; try (cbn; tauto).
    exists m, st. split; [exact E|]. split; [exact Hp|].
    specialize (Hf int_blocks). rewrite Hp in Hf. exact Hf.
Defined.

Lemma forward_block_arguments_witness :
  let src_seq := mkTensor [1; 2] [1; 0]%Z in
  let trg_seq := mkTensor [1; 3] [1; 4; 0]%Z in
  exists sm tm,
    get_pad_mask src_seq 0 = Ok sm /\ target_mask trg_seq 0 = Ok tm /\
    forall (m : @Transformer int_runtime) st ge,
      src_pad_idx m = 0%Z -> trg_pad_idx m = 0%Z ->
      (forall l x w,
          ge l x sm w = @EncoderLayer_forward int_runtime int_blocks l x sm w) ->
      Transformer_forward (bl := with_encoder_layer int_blocks ge)
        m src_seq trg_seq st
      = Transformer_forward (bl := int_blocks) m src_seq trg_seq st.
Proof.
  intros src_seq trg_seq. eexists _, _.
  split; [reflexivity|]. split; [reflexivity|].
  intros m st ge Hs Ht Hge.
  refine (proj1 (proj2 (@forward_block_arguments int_runtime int_blocks m
                          src_seq trg_seq st _ _ _ _)) ge Hge).
  - rewrite Hs. reflexivity.
  - rewrite Ht. reflexivity.
Defined.
